(** * ebpf-proc-comparison: the sampling loops, the isolated-CPU tracker
    and the active-process drain, embedded from the Go sources.

    Layout (definitions first, properties after):
    - [F64]       Go's float64, as IEEE 754 binary64 over [spec_float];
    - [GoMap]     ranging over a Go map;
    - [GoSort]    sort.Slice on short slices;
    - [Ebpf]      package ebpf: GetActiveProcPids / GetActiveProcs;
    - [Isolated]  package isolated (the variant with RemoveTracking);
    - [TaskIter]  the refactored ebpf-task-iter main (collectCurrentData,
                  calculateUsageData, updateStoredData, printResults,
                  collectAndPrintCPUData, monitor);
    - [TaskIterInline] the earlier ebpf-task-iter main, whose tick is one
                  closure inside main;
    - [Hybrid]    hybrid/main.go: run;
    - [GoStrings] the functions of strings and strconv that proc.go calls;
    - [Proc]      package proc: the parsers of the stat files, of the
                  /proc directory and of the list of isolated cpus;
    - [HybridIsolated] the main of the isolated variant: run;
    - [Drain], [TaskIterSpec], [IsolatedInv] measures and invariants in
                  which the further properties are stated. *)

From Stdlib Require Import ZArith List Bool Lia SpecFloat.
From stdpp Require Import base option list gmap strings sorting.

Open Scope Z_scope.

(* ===================================================================== *)
(** ** Go's float64 *)
(* ===================================================================== *)

Module F64.

Definition prec : Z := 53.
Definition emax : Z := 1024.

Definition float64 := spec_float.

(** float64(n) for an integer n: round to nearest, ties to even. *)
Definition of_Z (n : Z) : float64 := binary_normalize prec emax n 0 false.

Definition div (x y : float64) : float64 := SFdiv prec emax x y.
Definition add (x y : float64) : float64 := SFadd prec emax x y.

(** The zero value of a float64 field. *)
Definition zero : float64 := S754_zero false.

(** [x > y] and [x < y] on float64; false as soon as one side is NaN. *)
Definition gtb (x y : float64) : bool := SFltb y x.
Definition ltb (x y : float64) : bool := SFltb x y.

Definition is_nan (x : float64) : bool :=
  match x with S754_nan => true | _ => false end.

(** Finite and different from zero. *)
Definition is_finite (x : float64) : bool :=
  match x with S754_finite _ _ _ => true | _ => false end.

(** The sign bit; NaN carries none in [spec_float]. *)
Definition signbit (x : float64) : bool :=
  match x with
  | S754_zero s | S754_infinity s | S754_finite s _ _ => s
  | S754_nan => false
  end.

(** The constant 0.1, i.e. the binary64 value nearest to 1/10. *)
Definition c0_1 : float64 := S754_finite false 7205759403792794 (-56).

(** The constant 1e9, exactly representable. *)
Definition c1e9 : float64 := of_Z 1000000000.

(** A total preorder key for the floats that are not NaN: [SFcompare]
    orders them as these triples are ordered lexicographically. *)
Definition key (x : float64) : Z * Z * Z :=
  match x with
  | S754_infinity true => (-2, 0, 0)
  | S754_finite true m e => (-1, - e, - Z.pos m)
  | S754_zero _ | S754_nan => (0, 0, 0)
  | S754_finite false m e => (1, e, Z.pos m)
  | S754_infinity false => (2, 0, 0)
  end.

Definition key_lt (k1 k2 : Z * Z * Z) : Prop :=
  let '(c1, a1, b1) := k1 in
  let '(c2, a2, b2) := k2 in
  c1 < c2 \/ (c1 = c2 /\ (a1 < a2 \/ (a1 = a2 /\ b1 < b2))).

End F64.

(* ===================================================================== *)
(** ** Go values shared by the programs *)
(* ===================================================================== *)

(** A Go string, as its bytes. *)
Definition gostring := list Z.

Definition uint64_mod : Z := 2 ^ 64.

(** The values of an int64. *)
Definition is_int64 (n : Z) : Prop := - 2 ^ 63 <= n < 2 ^ 63.

(** [for k, v := range m]: Go visits the keys of a map in an order of the
    runtime's choosing. The order is an explicit argument [ord]; keys of
    [ord] that the map lacks are passed over. *)
Module GoMap.

Definition range {V} (m : gmap Z V) (ord : list Z) : list (Z * V) :=
  omap (fun k => pair k <$> m !! k) ord.

(** [ord] is one of the orders the runtime may choose for [m]. *)
Definition is_order {V} (m : gmap Z V) (ord : list Z) : Prop :=
  ord ≡ₚ (map_to_list m).*1.

End GoMap.

(** What a Go call can come to: a value, an error, or a run-time panic. *)
Inductive outcome (E A : Type) : Type :=
  | Ok (a : A)
  | Err (e : E)
  | Panic.
Arguments Ok {E A} a.
Arguments Err {E A} e.
Arguments Panic {E A}.

(* ===================================================================== *)
(** ** sort.Slice *)
(* ===================================================================== *)

(** sort.Slice hands slices of at most 12 elements to insertionSortLessFunc:
<<
    for i := a + 1; i < b; i++ {
        for j := i; j > a && data.Less(j, j-1); j-- { data.Swap(j, j-1) }
    }
>>
    On such a slice elements that [less] does not separate keep the order
    they came in. Longer slices go through pattern-defeating quicksort,
    of which the package promises the two things shown below for this
    function (a permutation, in order for [less]) and no stability. *)
Module GoSort.

Section Insertion.
Context {A : Type} (less : A -> A -> bool).

(** The inner loop. [before] is data[a:i] read from index i-1 down. *)
Fixpoint sink (x : A) (before : list A) : list A :=
  match before with
  | [] => [x]
  | y :: rest => if less x y then y :: sink x rest else x :: y :: rest
  end.

Definition insertionSort (data : list A) : list A :=
  rev (fold_left (fun sorted x => sink x sorted) data []).

End Insertion.

Definition Slice {A : Type} (data : list A) (less : A -> A -> bool) : list A :=
  insertionSort less data.

End GoSort.

(* ===================================================================== *)
(** ** package ebpf: draining the active_procs table *)
(* ===================================================================== *)

Module Ebpf.

(** struct active_proc of the BPF program, as bpf2go renders it:
    pid uint32, cpu int32, comm [16]int8. *)
Record keplerActiveProc := mkKeplerActiveProc {
  Pid : Z;
  Cpu : Z;
  Comm : list Z
}.

(** max_entries of the active_procs map in the BPF program. *)
Definition active_procs_max_entries : nat := Z.to_nat 8192.

(** The zero value that [make] fills a slice with. *)
Definition zeroActiveProc : keplerActiveProc :=
  mkKeplerActiveProc 0 0 (replicate 16 0).

(** One element of type ActiveProcs. *)
Module ActiveProc.
Record t := mk {
  Pid : Z;
  Comm : gostring
}.
End ActiveProc.

Inductive error :=
  | ErrKeyNotExist
  | ErrOther (msg : string).

(** How the kernel answers one BPF_MAP_LOOKUP_AND_DELETE_BATCH: the rows it
    hands over (already deleted from the table), and whether it has reached
    the last bucket (ENOENT), failed, or has more to give. *)
Inductive status :=
  | More
  | NoMore
  | Failed (msg : string).

Record response := mkResponse {
  delivered : list (Z * keplerActiveProc);
  stat : status
}.

(** Writing [xs] at the front of a slice: what the library does with the
    rows of one batch in keysOut and valuesOut. *)
Definition fill_front {A} (xs buf : list A) : list A :=
  take (length buf) xs ++ drop (length xs) buf.

(** Map.BatchLookupAndDelete(&cursor, keys, values, opts) of cilium/ebpf:
    count, error, and the two slices after the call. On a failure other
    than ENOENT the library returns 0 and leaves the slices alone. *)
Definition BatchLookupAndDelete (r : response)
    (keys : list Z) (values : list keplerActiveProc)
  : nat * option error * list Z * list keplerActiveProc :=
  match stat r with
  | Failed msg => (0%nat, Some (ErrOther msg), keys, values)
  | More =>
      (length (delivered r), None,
       fill_front (delivered r).*1 keys, fill_front (delivered r).*2 values)
  | NoMore =>
      (length (delivered r), Some ErrKeyNotExist,
       fill_front (delivered r).*1 keys, fill_front (delivered r).*2 values)
  end.

(** The kernel's answer once the cursor is past the last bucket. *)
Definition exhausted : response := mkResponse [] NoMore.

(** The [for { ... }] loop shared by GetActiveProcPids and GetActiveProcs.
    [script] lists the kernel's answers to the successive calls; when it
    runs out the kernel answers [exhausted], so the loop always ends. *)
Fixpoint lookupLoop (script : list response) (total : nat)
    (keys : list Z) (values : list keplerActiveProc)
  : outcome error (nat * list Z * list keplerActiveProc) :=
  match script with
  | [] =>
      let '(count, err, keys, values) := BatchLookupAndDelete exhausted keys values in
      Ok ((total + count)%nat, keys, values)
  | r :: script' =>
      let '(count, err, keys, values) := BatchLookupAndDelete r keys values in
      let total := (total + count)%nat in
      match err with
      | Some ErrKeyNotExist => Ok (total, keys, values)
      | Some e => Err e
      | None => lookupLoop script' total keys values
      end
  end.

(** keys[:total]; out of range past the capacity. *)
Definition slice_to {A} (s : list A) (total : nat) : outcome error (list A) :=
  if (total <=? length s)%nat then Ok (take total s) else Panic.

Definition GetActiveProcPids (maxEntries : nat) (script : list response)
  : outcome error (list Z) :=
  let total := 0%nat in
  let keys := replicate maxEntries 0 in
  let values := replicate maxEntries zeroActiveProc in
  match lookupLoop script total keys values with
  | Ok (total, keys, values) => slice_to keys total
  | Err e => Err e
  | Panic => Panic
  end.

(** C.GoString: the bytes up to the first NUL. *)
Fixpoint GoString (b : list Z) : gostring :=
  match b with
  | [] => []
  | c :: b' => if c =? 0 then [] else c `mod` 256 :: GoString b'
  end.

Definition GetActiveProcs (maxEntries : nat) (script : list response)
  : outcome error (list ActiveProc.t) :=
  let total := 0%nat in
  let keys := replicate maxEntries 0 in
  let values := replicate maxEntries zeroActiveProc in
  match lookupLoop script total keys values with
  | Ok (total, keys, values) =>
      match slice_to values total with
      | Ok vs => Ok (map (fun proc => ActiveProc.mk (Pid proc) (GoString (Comm proc))) vs)
      | Err e => Err e
      | Panic => Panic
      end
  | Err e => Err e
  | Panic => Panic
  end.

End Ebpf.

(* ===================================================================== *)
(** ** package isolated: the per-CPU generation pairs *)
(* ===================================================================== *)

Module Isolated.

(** Modelled from the spec: the declaration of ebpf.ActiveProc that this
    package imports is not among the sources; the spec's ActiveProcRecord
    is { pid, cpuId, comm }, and main reads its fields Pid and Cpu. *)
Record ActiveProc := mkActiveProc {
  Pid : Z;
  Cpu : Z;
  Comm : gostring
}.

#[global] Instance ActiveProc_eq_dec : EqDecision ActiveProc.
Proof. solve_decision. Defined.

(** A Go map value is a reference: [None] is the nil map, [Some l] points
    at the map object stored at index [l] of the heap. *)
Definition mapref := option nat.

Record procsTracker := mkProcsTracker {
  currentProcs : mapref;
  previousProcs : mapref
}.

(** The zero value of procsTracker, which [procs[cpu]] yields for a cpu
    that is not a key. *)
Definition zeroTracker : procsTracker := mkProcsTracker None None.

(** The package state: the map objects allocated so far, and the two
    package-level variables [procs] and [cpus]. *)
Record State := mkState {
  heap : list (gmap Z ActiveProc);
  procs : gmap Z procsTracker;
  cpus : gmap Z Z
}.

Definition initial : State := mkState [] ∅ ∅.

(** Reading through a reference; a nil map reads as the empty map. *)
Definition deref (h : list (gmap Z ActiveProc)) (r : mapref) : gmap Z ActiveProc :=
  match r with
  | Some l => default ∅ (h !! l)
  | None => ∅
  end.

(** map[Pid]ebpf.ActiveProc{} *)
Definition make_map (h : list (gmap Z ActiveProc)) : mapref * list (gmap Z ActiveProc) :=
  (Some (length h), h ++ [∅]).

(** m[k] = v; assignment to an entry of a nil map panics. *)
Definition map_assign (h : list (gmap Z ActiveProc)) (r : mapref) (k : Z) (v : ActiveProc)
  : option (list (gmap Z ActiveProc)) :=
  match r with
  | Some l => Some (alter (insert k v) l h)
  | None => None
  end.

(** delete(m, k); a no-op on a nil map. *)
Definition map_delete (h : list (gmap Z ActiveProc)) (r : mapref) (k : Z)
  : list (gmap Z ActiveProc) :=
  match r with
  | Some l => alter (delete k) l h
  | None => h
  end.

(** slices.Collect(maps.Values(m)), in the order the gmap lists its
    entries; Go fixes no order, so results are to be read up to
    permutation. *)
Definition Values (m : gmap Z ActiveProc) : list ActiveProc :=
  (map_to_list m).*2.

Definition Init_one (st : State) (cpu : Z) : State :=
  let '(cur, h) := make_map (heap st) in
  let '(prev, h) := make_map h in
  mkState h (<[cpu := mkProcsTracker cur prev]> (procs st)) (cpus st).

Definition Init (isolated : list Z) (st : State) : State :=
  fold_left Init_one isolated st.

(** [None] is the panic of an assignment into a nil map. *)
Definition Track (cpu : Z) (proc : ActiveProc) (st : State) : option State :=
  let t := default zeroTracker (procs st !! cpu) in
  h ← map_assign (heap st) (currentProcs t) (Pid proc) proc;
  Some (mkState h (procs st) (<[Pid proc := cpu]> (cpus st))).

Definition RemoveTracking (pid : Z) (st : State) : State :=
  let cpu := default 0 (cpus st !! pid) in
  let cpus' := delete pid (cpus st) in
  let pt := default zeroTracker (procs st !! cpu) in
  mkState (map_delete (heap st) (currentProcs pt) pid) (procs st) cpus'.

(** [t] is the local copy that [t, _ := procs[cpu]] makes of the struct;
    the two assignments to its fields change that copy. The function has
    no statement that stores [t] back in [procs]. *)
Definition ActiveProcs (cpu : Z) (st : State) : list ActiveProc * State :=
  let t := default zeroTracker (procs st !! cpu) in
  if negb (size (deref (heap st) (currentProcs t)) =? 0)%nat then
    let activeProcs := currentProcs t in
    let t := mkProcsTracker (currentProcs t) (currentProcs t) in
    let '(fresh, h) := make_map (heap st) in
    let t := mkProcsTracker fresh (previousProcs t) in
    (Values (deref h activeProcs), mkState h (procs st) (cpus st))
  else
    let activeProcs := previousProcs t in
    (Values (deref (heap st) activeProcs), st).

(** The calls a client can make, and the states they lead to. *)
Inductive call :=
  | CallInit (isolated : list Z)
  | CallTrack (cpu : Z) (proc : ActiveProc)
  | CallRemoveTracking (pid : Z)
  | CallActiveProcs (cpu : Z).

Definition step (st : State) (c : call) : option State :=
  match c with
  | CallInit isolated => Some (Init isolated st)
  | CallTrack cpu proc => Track cpu proc st
  | CallRemoveTracking pid => Some (RemoveTracking pid st)
  | CallActiveProcs cpu => Some (ActiveProcs cpu st).2
  end.

Fixpoint run (st : State) (cs : list call) : option State :=
  match cs with
  | [] => Some st
  | c :: cs' => st' ← step st c; run st' cs'
  end.

Definition reachable (st : State) : Prop :=
  exists cs, run initial cs = Some st.

(** What every reachable state satisfies: each tracker holds two
    allocated maps, the one stored as previous generation is empty and is
    no tracker's current generation, every pid of [cpus] is mapped to a
    cpu that has a tracker, and records are stored under their own pid. *)
Record wf (st : State) : Prop := mkWf {
  wf_tracker : forall cpu t,
    procs st !! cpu = Some t ->
    exists c p, currentProcs t = Some c /\ previousProcs t = Some p /\
                (c < length (heap st))%nat /\ heap st !! p = Some ∅;
  wf_apart : forall cpu t cpu' t',
    procs st !! cpu = Some t -> procs st !! cpu' = Some t' ->
    currentProcs t <> previousProcs t';
  wf_cpus : forall pid cpu,
    cpus st !! pid = Some cpu -> is_Some (procs st !! cpu);
  wf_keys : forall l m k v,
    heap st !! l = Some m -> m !! k = Some v -> Pid v = k
}.

End Isolated.

(* ===================================================================== *)
(** ** ebpf-task-iter, refactored main: one function per step of a tick *)
(* ===================================================================== *)

Module TaskIter.

Module ProcessData.
Record t := mk {
  PID : Z;
  CPUTime : Z;
  LastTime : Z;
  Comm : gostring;
  Executable : gostring
}.
End ProcessData.

Module ProcessUsage.
Record t := mk {
  PID : Z;
  CPUDelta : F64.float64;
  TotalTime : F64.float64;
  Comm : gostring;
  Executable : gostring
}.
End ProcessUsage.

Record Config := mkConfig {
  interval : Z;
  count : Z;
  clkTck : Z
}.

(** struct process_info of the BPF program. *)
Record cpuTimeProcessInfo := mkInfo {
  CpuTime : Z;
  Comm : list Z
}.

(** The fields of task_struct that the BPF program reads. *)
Record task_struct := mkTask {
  tgid : Z;
  utime : Z;
  stime : Z;
  comm : list Z
}.

Definition max_entries : nat := 1024.

(** SEC("iter/task") sum_cpu_time, for one task that is not NULL. *)
Definition sum_cpu_time (process_map : gmap Z cpuTimeProcessInfo) (task : task_struct)
  : gmap Z cpuTimeProcessInfo :=
  let cpu_time := (utime task + stime task) `mod` uint64_mod in
  match process_map !! tgid task with
  | Some info =>
      <[tgid task := mkInfo ((CpuTime info + cpu_time) `mod` uint64_mod) (Comm info)]> process_map
  | None =>
      if (size process_map <? max_entries)%nat
      then <[tgid task := mkInfo cpu_time (comm task)]> process_map
      else process_map
  end.

Inductive read_result :=
  | ReadOk
  | ReadErrClosed
  | ReadEOF
  | ReadError (msg : string).

(** What the kernel, the OS and the Go runtime contribute to one tick. *)
Record env := mkEnv {
  open_err : option string;
  tasks : list task_struct;
  read_res : read_result;
  iterate_order : list Z;
  iterate_err : option string;
  exe : Z -> gostring;
  concurrent : list (Z * cpuTimeProcessInfo);
  delete_fault : option string;
  range_calc : list Z;
  range_update : list Z
}.

Inductive error :=
  | ErrOpenIterator (msg : string)
  | ErrReadIterator (msg : string)
  | ErrIteratingMap (msg : string)
  | ErrBatchDelete (msg : string).

Inductive event :=
  | Printed (rows : list ProcessUsage.t) (total : nat)
  | LogInitialCollectionError (e : error)
  | LogErrorCollecting (e : error).

Definition trimNullBytes (b : list Z) : gostring := Ebpf.GoString b.

Definition dots : gostring := [46; 46; 46].

(** Called with lengths 20 and 30 only. *)
Definition truncateString (s : gostring) (length : Z) : gostring :=
  if Z.of_nat (List.length s) <=? length then s
  else take (Z.to_nat (length - 3)) s ++ dots.

(** One turn of the loop over ProcessMap.Iterate(). *)
Definition collect_row (exe : Z -> gostring)
    (acc : gmap Z ProcessData.t * list Z) (row : Z * cpuTimeProcessInfo)
  : gmap Z ProcessData.t * list Z :=
  let '(currentData, keys) := acc in
  let '(key, value) := row in
  let keys := keys ++ [key] in
  let executable := exe key in
  let comm := trimNullBytes (Comm value) in
  (<[key := ProcessData.mk key (CpuTime value) 0 comm executable]> currentData, keys).

(** The kernel table after the call, and what the call returns. A read
    that fails is taken to leave the table as it was. *)
Definition collectCurrentData (e : env) (process_map : gmap Z cpuTimeProcessInfo)
  : gmap Z cpuTimeProcessInfo * (error + gmap Z ProcessData.t * list Z) :=
  match open_err e with
  | Some msg => (process_map, inl (ErrOpenIterator msg))
  | None =>
      match read_res e with
      | ReadError msg => (process_map, inl (ErrReadIterator msg))
      | _ =>
          let process_map := fold_left sum_cpu_time (tasks e) process_map in
          let '(currentData, keys) :=
            fold_left (collect_row (exe e))
                      (GoMap.range process_map (iterate_order e)) (∅, []) in
          match iterate_err e with
          | Some msg => (process_map, inl (ErrIteratingMap msg))
          | None => (process_map, inr (currentData, keys))
          end
      end
  end.

(** BPF_MAP_DELETE_BATCH as the kernel runs it: the keys one after the
    other, stopping with ENOENT at the first that is absent. *)
Fixpoint delete_batch (keys : list Z) (process_map : gmap Z cpuTimeProcessInfo)
  : nat * option string * gmap Z cpuTimeProcessInfo :=
  match keys with
  | [] => (0%nat, None, process_map)
  | k :: keys' =>
      match process_map !! k with
      | None => (0%nat, Some "key does not exist"%string, process_map)
      | Some _ =>
          let '(n, err, m) := delete_batch keys' (delete k process_map) in
          (S n, err, m)
      end
  end.

(** ProcessMap.BatchDelete(keys, nil); [fault] is a failure of the system
    call before the kernel touched the table. *)
Definition BatchDelete (fault : option string) (keys : list Z)
    (process_map : gmap Z cpuTimeProcessInfo)
  : nat * option string * gmap Z cpuTimeProcessInfo :=
  match fault with
  | Some msg => (0%nat, Some msg, process_map)
  | None => delete_batch keys process_map
  end.

(** One turn of the loop of calculateUsageData. *)
Definition usage_of (processData : gmap Z ProcessData.t) (clkTck : Z)
    (pid : Z) (current : ProcessData.t) : ProcessUsage.t :=
  let usage :=
    ProcessUsage.mk pid
      (F64.zero)
      (F64.div (F64.of_Z (ProcessData.CPUTime current)) (F64.of_Z clkTck))
      (ProcessData.Comm current) (ProcessData.Executable current) in
  match processData !! pid with
  | Some prev =>
      let cpuDelta :=
        (ProcessData.CPUTime current - ProcessData.LastTime prev) `mod` uint64_mod in
      ProcessUsage.mk (ProcessUsage.PID usage)
        (F64.div (F64.of_Z cpuDelta) (F64.of_Z clkTck))
        (ProcessUsage.TotalTime usage)
        (ProcessUsage.Comm usage) (ProcessUsage.Executable usage)
  | None => usage
  end.

Definition by_delta_desc (a b : ProcessUsage.t) : bool :=
  F64.gtb (ProcessUsage.CPUDelta a) (ProcessUsage.CPUDelta b).

(** [ord] is the order in which the range loop visits [currentData]. *)
Definition calculateUsageData (ord : list Z)
    (currentData processData : gmap Z ProcessData.t) (clkTck : Z)
  : list ProcessUsage.t :=
  let usageData :=
    fold_left (fun usageData '(pid, current) =>
                 usageData ++ [usage_of processData clkTck pid current])
              (GoMap.range currentData ord) [] in
  GoSort.Slice usageData by_delta_desc.

Definition updateStoredData (ord : list Z)
    (processData currentData : gmap Z ProcessData.t) : gmap Z ProcessData.t :=
  fold_left (fun processData '(pid, current) =>
               <[pid := ProcessData.mk pid
                          (ProcessData.CPUTime current)
                          (ProcessData.CPUTime current)
                          (ProcessData.Comm current)
                          (ProcessData.Executable current)]> processData)
            (GoMap.range currentData ord) processData.

Definition print_row (process : ProcessUsage.t) : ProcessUsage.t :=
  ProcessUsage.mk (ProcessUsage.PID process)
    (ProcessUsage.CPUDelta process) (ProcessUsage.TotalTime process)
    (truncateString (ProcessUsage.Comm process) 20)
    (truncateString (ProcessUsage.Executable process) 30).

(** The rows written to standard output, and the length shown in the
    closing line. The test on CPUDelta is commented out in the source. *)
Definition printResults (usageData : list ProcessUsage.t) (count : Z) : event :=
  let limit := Z.of_nat (length usageData) in
  let limit := if 0 <? count then Z.min limit count else limit in
  Printed (map print_row (take (Z.to_nat limit) usageData)) (length usageData).

Record result := mkResult {
  ret : option error;
  table : gmap Z cpuTimeProcessInfo;
  stored : gmap Z ProcessData.t;
  output : list event
}.

(** Kernel-side writes that land between the iteration and the delete. *)
Definition kernel_writes (ws : list (Z * cpuTimeProcessInfo))
    (process_map : gmap Z cpuTimeProcessInfo) : gmap Z cpuTimeProcessInfo :=
  fold_left (fun m '(k, v) => <[k := v]> m) ws process_map.

Definition collectAndPrintCPUData (e : env)
    (process_map : gmap Z cpuTimeProcessInfo)
    (processData : gmap Z ProcessData.t) (cfg : Config) : result :=
  match collectCurrentData e process_map with
  | (process_map, inl err) => mkResult (Some err) process_map processData []
  | (process_map, inr (currentData, keys)) =>
      let process_map := kernel_writes (concurrent e) process_map in
      let '(_, err, process_map) := BatchDelete (delete_fault e) keys process_map in
      match err with
      | Some msg => mkResult (Some (ErrBatchDelete msg)) process_map processData []
      | None =>
          let usageData :=
            calculateUsageData (range_calc e) currentData processData (clkTck cfg) in
          let processData := updateStoredData (range_update e) processData currentData in
          mkResult None process_map processData [printResults usageData (count cfg)]
      end
  end.

(** The state that monitor carries from one tick to the next. *)
Record loop_state := mkLoop {
  kernel_map : gmap Z cpuTimeProcessInfo;
  processData : gmap Z ProcessData.t;
  written : list event
}.

Definition tick (cfg : Config) (log : error -> event) (st : loop_state) (e : env)
  : loop_state :=
  let r := collectAndPrintCPUData e (kernel_map st) (processData st) cfg in
  mkLoop (table r) (stored r)
         (written st ++ output r ++
          match ret r with Some err => [log err] | None => [] end).

(** monitor: the initial collection, then one collection per tick until
    the stop signal. [first] and [ticks] are what each collection meets. *)
Definition monitor (cfg : Config) (process_map : gmap Z cpuTimeProcessInfo)
    (first : env) (ticks : list env) : loop_state :=
  let st := mkLoop process_map ∅ [] in
  let st := tick cfg LogInitialCollectionError st first in
  fold_left (tick cfg LogErrorCollecting) ticks st.

End TaskIter.

(* ===================================================================== *)
(** ** ebpf-task-iter, earlier main: the tick is one closure in main *)
(* ===================================================================== *)

Module TaskIterInline.

Module ProcessData.
Record t := mk {
  PID : Z;
  CPUTime : Z;
  LastTime : Z
}.
End ProcessData.

Module ProcessUsage.
Record t := mk {
  PID : Z;
  CPUDelta : F64.float64;
  TotalTime : F64.float64
}.
End ProcessUsage.

(** What the kernel and the Go runtime contribute to one tick: [rows] is
    what CpuTimeMap.Iterate() yields, [clear_err] how
    CpuTimeMap.Delete(nil) ends. *)
Record env := mkEnv {
  open_err : option string;
  read_res : TaskIter.read_result;
  rows : list (Z * Z);
  iterate_err : option string;
  range_order : list Z;
  clear_err : option string
}.

Inductive error :=
  | ErrOpenIterator (msg : string)
  | ErrReadIterator (msg : string)
  | ErrIteratingMap (msg : string).

Inductive event :=
  | Printed (rows : list ProcessUsage.t)
  | WarningFailedToClear (msg : string)
  | LogInitialCollectionError (e : error)
  | LogErrorCollecting (e : error).

Definition by_delta_desc (a b : ProcessUsage.t) : bool :=
  F64.gtb (ProcessUsage.CPUDelta a) (ProcessUsage.CPUDelta b).

(** One turn of [for pid, current := range currentData]. *)
Definition usage_step (clkTck : Z)
    (acc : list ProcessUsage.t * gmap Z ProcessData.t)
    (entry : Z * ProcessData.t)
  : list ProcessUsage.t * gmap Z ProcessData.t :=
  let '(usageData, processData) := acc in
  let '(pid, current) := entry in
  let usage :=
    ProcessUsage.mk pid F64.zero
      (F64.div (F64.of_Z (ProcessData.CPUTime current)) (F64.of_Z clkTck)) in
  let usage :=
    match processData !! pid with
    | Some prev =>
        let cpuDelta :=
          (ProcessData.CPUTime current - ProcessData.LastTime prev) `mod` uint64_mod in
        ProcessUsage.mk (ProcessUsage.PID usage)
          (F64.div (F64.of_Z cpuDelta) (F64.of_Z clkTck))
          (ProcessUsage.TotalTime usage)
    | None => usage
    end in
  (usageData ++ [usage],
   <[pid := ProcessData.mk pid (ProcessData.CPUTime current)
                           (ProcessData.CPUTime current)]> processData).

Record result := mkResult {
  ret : option error;
  stored : gmap Z ProcessData.t;
  output : list event
}.

(** The closure collectAndPrintCPUData; [processData], [count] and
    [clkTck] are the variables of main that it captures. *)
Definition collectAndPrintCPUData (e : env)
    (processData : gmap Z ProcessData.t) (count clkTck : Z) : result :=
  match open_err e with
  | Some msg => mkResult (Some (ErrOpenIterator msg)) processData []
  | None =>
      match read_res e with
      | TaskIter.ReadError msg => mkResult (Some (ErrReadIterator msg)) processData []
      | _ =>
          let currentData :=
            fold_left (fun currentData '(key, value) =>
                         <[key := ProcessData.mk key value 0]> currentData)
                      (rows e) (∅ : gmap Z ProcessData.t) in
          match iterate_err e with
          | Some msg => mkResult (Some (ErrIteratingMap msg)) processData []
          | None =>
              let '(usageData, processData) :=
                fold_left (usage_step clkTck)
                          (GoMap.range currentData (range_order e))
                          ([], processData) in
              let warned :=
                match clear_err e with
                | Some msg => [WarningFailedToClear msg]
                | None => []
                end in
              let usageData := GoSort.Slice usageData by_delta_desc in
              let limit := Z.of_nat (length usageData) in
              let limit :=
                if (0 <? count) && (count <? limit) then count else limit in
              let shown :=
                filter (fun process => F64.gtb (ProcessUsage.CPUDelta process) F64.zero = true)
                       (take (Z.to_nat limit) usageData) in
              mkResult None processData (warned ++ [Printed shown])
          end
      end
  end.

End TaskIterInline.

(* ===================================================================== *)
(** ** hybrid/main.go: run *)
(* ===================================================================== *)

Module Hybrid.

(** What the select statement receives: a tick stamped [newTs]
    (nanoseconds), together with what the body of that tick will meet
    (the kernel's answers to the drain, the pids whose stat file cannot
    be read), or the cancellation of the context. *)
Inductive received :=
  | Tick (newTs : Z) (maxEntries : nat) (script : list Ebpf.response) (unreadable : list Z)
  | Done.

Inductive log :=
  | InfoStartingLoop
  | ErrorReadingActiveProcs (e : Ebpf.error)
  | ErrorCannotReadStat (pid : Z)
  | InfoActiveProcs (newTs : Z) (num : nat)
  | InfoLoopFinished
  | Crashed.

Definition Second : Z := 1000000000.

(** Duration.Seconds:
    sec := d / Second; nsec := d % Second; float64(sec) + float64(nsec)/1e9 *)
Definition Seconds (d : Z) : F64.float64 :=
  let sec := Z.quot d Second in
  let nsec := Z.rem d Second in
  F64.add (F64.of_Z sec) (F64.div (F64.of_Z nsec) F64.c1e9).

(** The guard at the head of the tick case. *)
Definition too_soon (oldTs newTs : Z) : bool :=
  let timeDiffSec := Seconds (newTs - oldTs) in
  F64.ltb timeDiffSec F64.c0_1.

(** The body of a tick that passed the guard; [None] when the drain
    panics. *)
Definition tick_body (newTs : Z) (maxEntries : nat)
    (script : list Ebpf.response) (unreadable : list Z) : option (list log) :=
  match Ebpf.GetActiveProcPids maxEntries script with
  | Panic => None
  | Err e => Some [ErrorReadingActiveProcs e; InfoActiveProcs newTs 0]
  | Ok activeProcPids =>
      Some (omap (fun pid => if bool_decide (pid ∈ unreadable)
                             then Some (ErrorCannotReadStat pid) else None)
                 activeProcPids
            ++ [InfoActiveProcs newTs (length activeProcPids)])
  end.

(** The for/select loop. [oldTs] is the variable of that name; the loop
    has no assignment to it. When [rs] runs out the loop is left waiting
    on its channels. *)
Fixpoint loop (oldTs : Z) (rs : list received) : list log :=
  match rs with
  | [] => []
  | Done :: _ => [InfoLoopFinished]
  | Tick newTs maxEntries script unreadable :: rs' =>
      if too_soon oldTs newTs then loop oldTs rs'
      else
        match tick_body newTs maxEntries script unreadable with
        | None => [Crashed]
        | Some logs => logs ++ loop oldTs rs'
        end
  end.

(** run; [now] is the reading of time.Now() that initialises oldTs. *)
Definition run (now : Z) (rs : list received) : list log :=
  InfoStartingLoop :: loop now rs.

End Hybrid.

(* ===================================================================== *)
(** ** Concrete inputs used by the examples below *)
(* ===================================================================== *)

Module Examples.

Definition pd (pid cpu last : Z) : TaskIter.ProcessData.t :=
  TaskIter.ProcessData.mk pid cpu last [] [].
Definition one_stored : gmap Z TaskIter.ProcessData.t := {[ 1 := pd 1 10 10 ]}.
Definition first_seen : gmap Z TaskIter.ProcessData.t := {[ 7 := pd 7 500 0 ]}.
Definition loop0 : TaskIter.loop_state := TaskIter.mkLoop ∅ one_stored [].
Definition inline_stored : gmap Z TaskIterInline.ProcessData.t :=
  {[ 7 := TaskIterInline.ProcessData.mk 7 100 100 ]}.

(** The inputs of the ordering example: three pids whose stored last
    values are 0 and whose cumulative times are 200, 500 and 500 ticks,
    with 100 ticks per second, so that the deltas are 2.0, 5.0 and 5.0. *)
Definition ex_current : gmap Z TaskIter.ProcessData.t :=
  <[10 := pd 10 200 0]> (<[11 := pd 11 500 0]> (<[12 := pd 12 500 0]> ∅)).
Definition ex_stored : gmap Z TaskIter.ProcessData.t :=
  <[10 := pd 10 0 0]> (<[11 := pd 11 0 0]> (<[12 := pd 12 0 0]> ∅)).


(** Tasks 1 and 2 with 100 and 200 ticks of CPU time on an empty table;
    a row for pid 3 is written after the iteration and before the delete. *)
Definition clear_env (fault : option string) : TaskIter.env :=
  TaskIter.mkEnv None
    [TaskIter.mkTask 1 60 40 []; TaskIter.mkTask 2 150 50 []]
    TaskIter.ReadEOF [1; 2] None (fun _ => [])
    [(3, TaskIter.mkInfo 50 [])] fault [1; 2] [2; 1].

Definition cfg100 : TaskIter.Config := TaskIter.mkConfig 1000000000 0 100.

(** A first drain of the earlier main: pid 7 with 500 ticks. *)
Definition inline_env (clear : option string) : TaskIterInline.env :=
  TaskIterInline.mkEnv None TaskIter.ReadEOF [(7, 500)] None [7] clear.

End Examples.

(* ===================================================================== *)
(** ** The functions of packages strings and strconv that proc.go calls *)
(* ===================================================================== *)

Module GoStrings.

(** strings.IndexByte: the index of the first [c], or -1. *)
Fixpoint IndexByte (s : gostring) (c : Z) : Z :=
  match s with
  | [] => -1
  | b :: s' =>
      if b =? c then 0
      else let i := IndexByte s' c in if i =? -1 then -1 else i + 1
  end.

(** strings.LastIndexByte: the index of the last [c], or -1. *)
Fixpoint LastIndexByte (s : gostring) (c : Z) : Z :=
  match s with
  | [] => -1
  | b :: s' =>
      let i := LastIndexByte s' c in
      if i =? -1 then (if b =? c then 0 else -1) else i + 1
  end.

(** s[lo:] and s[lo:hi], for indices within the string. *)
Definition slice_from (s : gostring) (lo : Z) : gostring := drop (Z.to_nat lo) s.
Definition slice (s : gostring) (lo hi : Z) : gostring :=
  take (Z.to_nat (hi - lo)) (drop (Z.to_nat lo) s).

(** The bytes that strings.Fields takes for white space in a string of
    ASCII bytes: tab, line feed, vertical tab, form feed, carriage return
    and space. *)
Definition asciiSpace (c : Z) : bool :=
  (c =? 9) || (c =? 10) || (c =? 11) || (c =? 12) || (c =? 13) || (c =? 32).

Definition is_ascii (s : gostring) : Prop := Forall (fun c => 0 <= c < 128) s.

(** strings.Fields on a string of ASCII bytes (with a byte of 128 or more
    in the string, Fields decodes UTF-8 and knows further spaces). [cur]
    is the field being read. *)
Fixpoint fields_from (s cur : gostring) : list gostring :=
  match s with
  | [] => match cur with [] => [] | _ => [cur] end
  | c :: s' =>
      if asciiSpace c
      then match cur with [] => fields_from s' [] | _ => cur :: fields_from s' [] end
      else fields_from s' (cur ++ [c])
  end.

Definition Fields (s : gostring) : list gostring := fields_from s [].

(** strings.Split(s, sep) for a separator of one byte. *)
Fixpoint split_from (sep : Z) (s cur : gostring) : list gostring :=
  match s with
  | [] => [cur]
  | c :: s' =>
      if c =? sep then cur :: split_from sep s' []
      else split_from sep s' (cur ++ [c])
  end.

Definition Split (s : gostring) (sep : Z) : list gostring := split_from sep s [].

(** strings.SplitN(s, sep, n) for a separator of one byte: at most [n]
    pieces, the last one being the rest of the string; nil for n = 0 and
    every piece for n < 0. *)
Fixpoint splitn_from (sep : Z) (s : gostring) (n : nat) (cur : gostring)
  : list gostring :=
  match s with
  | [] => [cur]
  | c :: s' =>
      if (c =? sep) && (1 <? n)%nat then cur :: splitn_from sep s' (n - 1) []
      else splitn_from sep s' n (cur ++ [c])
  end.

Definition SplitN (s : gostring) (sep : Z) (n : Z) : list gostring :=
  if n =? 0 then []
  else if n <? 0 then Split s sep
  else splitn_from sep s (Z.to_nat n) [].

Inductive NumError :=
  | ErrSyntax
  | ErrRange.

(** The smallest number whose product with 10 exceeds the greatest
    uint64. *)
Definition cutoff10 : Z := (uint64_mod - 1) / 10 + 1.

(** The loop of strconv.ParseUint for base 10: value and error. *)
Fixpoint parse_digits (maxVal : Z) (s : gostring) (n : Z) : Z * option NumError :=
  match s with
  | [] => (n, None)
  | c :: s' =>
      if (48 <=? c) && (c <=? 57) then
        let d := c - 48 in
        if cutoff10 <=? n then (maxVal, Some ErrRange)
        else
          let n := (n * 10) `mod` uint64_mod in
          let n1 := (n + d) `mod` uint64_mod in
          if (n1 <? n) || (maxVal <? n1) then (maxVal, Some ErrRange)
          else parse_digits maxVal s' n1
      else (0, Some ErrSyntax)
  end.

(** strconv.ParseUint(s, 10, bitSize), for bitSize from 1 to 64. *)
Definition ParseUint (s : gostring) (bitSize : Z) : Z * option NumError :=
  match s with
  | [] => (0, Some ErrSyntax)
  | _ => parse_digits (2 ^ bitSize - 1) s 0
  end.

(** strconv.Atoi on a 64-bit platform: an optional sign, then what
    ParseUint reads, within the range of int. *)
Definition Atoi (s : gostring) : Z * option NumError :=
  match s with
  | [] => (0, Some ErrSyntax)
  | c :: rest =>
      let neg := c =? 45 in
      let digits := if (c =? 43) || (c =? 45) then rest else s in
      match ParseUint digits 64 with
      | (_, Some ErrSyntax) => (0, Some ErrSyntax)
      | (un, _) =>
          let cutoff := 2 ^ 63 in
          if negb neg && (cutoff <=? un) then (cutoff - 1, Some ErrRange)
          else if neg && (cutoff <? un) then (- cutoff, Some ErrRange)
          else (if neg then - un else un, None)
      end
  end.

(** Decimal numerals, to state what the parsers read: a numeral is a
    string of one or more digits, and [decimal] is its value. *)
Definition is_digit (c : Z) : bool := (48 <=? c) && (c <=? 57).

Definition numeral (s : gostring) : bool :=
  match s with
  | [] => false
  | _ => forallb is_digit s
  end.

Definition decimal_from (s : gostring) (n : Z) : Z :=
  fold_left (fun n c => 10 * n + (c - 48)) s n.

Definition decimal (s : gostring) : Z := decimal_from s 0.

(** A word is a non-empty string without white space; [join] writes a
    space before each word, as the kernel does after the first field of
    a line of a stat file. *)
Definition word (w : gostring) : bool :=
  match w with
  | [] => false
  | _ => forallb (fun c => negb (asciiSpace c)) w
  end.

Definition join (ws : list gostring) : gostring := concat (map (cons 32) ws).

(** The bytes of a string literal. *)
Definition bytes (s : string) : gostring :=
  map (fun a => Z.of_N (Ascii.N_of_ascii a)) (String.list_ascii_of_string s).

End GoStrings.

(* ===================================================================== *)
(** ** Measures of a drain of package ebpf *)
(* ===================================================================== *)

Module Drain.

(** The count that one call of BatchLookupAndDelete returns. *)
Definition batch_length (r : Ebpf.response) : nat := length (Ebpf.delivered r).

(** What the loop adds up in [total]. *)
Definition delivered_total (script : list Ebpf.response) : nat :=
  sum_list (map batch_length script).

(** The longest batch of a script. *)
Definition longest_batch (script : list Ebpf.response) : nat :=
  max_list (map batch_length script).

(** A buffer after the batches [rs] were written to it, one after the
    other, each at its front. *)
Definition after_batches {A} (f : Ebpf.response -> list A) (rs : list Ebpf.response)
    (buf : list A) : list A :=
  fold_left (fun buf r => Ebpf.fill_front (f r) buf) rs buf.

(** The record that GetActiveProcs makes of a value of the table. *)
Definition to_ActiveProc (proc : Ebpf.keplerActiveProc) : Ebpf.ActiveProc.t :=
  Ebpf.ActiveProc.mk (Ebpf.Pid proc) (Ebpf.GoString (Ebpf.Comm proc)).

End Drain.

(* ===================================================================== *)
(** ** package proc *)
(* ===================================================================== *)

Module Proc.

(** CpuTicksKind: 1 << iota. *)
Definition User : Z := 1.
Definition Nice : Z := 2.
Definition System : Z := 4.
Definition Idle : Z := 8.
Definition IOWait : Z := 16.
Definition Irq : Z := 32.
Definition Softirq : Z := 64.
Definition Steal : Z := 128.
Definition Guest : Z := 256.
Definition GuestNice : Z := 512.
Definition UserSystem : Z := Z.lor User System.
Definition UserNiceSystem : Z := Z.lor (Z.lor User Nice) System.

Inductive error :=
  | ErrInvalidStatFormat (pid : Z)
  | ErrNotEnoughFields (pid : Z)
  | ErrParseUtime (e : GoStrings.NumError)
  | ErrParseStime (e : GoStrings.NumError)
  | ErrNotEnoughLines (n : nat)
  | ErrInvalidLine (line : gostring)
  | ErrInvalidTick (e : GoStrings.NumError)
  | ErrReadDir (msg : string)
  | ErrParsePid (e : GoStrings.NumError)
  | ErrInvalidRange (part : gostring)
  | ErrInvalidCpu (part : gostring).

(** readPidProcStatFromStr: utime, stime and comm, or the error. *)
Definition readPidProcStatFromStr (pid : Z) (stats : gostring)
  : error + Z * Z * gostring :=
  let commStart := GoStrings.IndexByte stats 40 in
  let commEnd := GoStrings.LastIndexByte stats 41 in
  if (commStart =? -1) || (commEnd =? -1) || (commEnd <? commStart)
  then inl (ErrInvalidStatFormat pid)
  else
    let fields := GoStrings.Fields (GoStrings.slice_from stats (commEnd + 1)) in
    if (length fields <? 14)%nat then inl (ErrNotEnoughFields pid)
    else
      match GoStrings.ParseUint (nth 11 fields []) 64 with
      | (_, Some e) => inl (ErrParseUtime e)
      | (utime, None) =>
          match GoStrings.ParseUint (nth 12 fields []) 64 with
          | (_, Some e) => inl (ErrParseStime e)
          | (stime, None) =>
              inr (utime, stime, GoStrings.slice stats (commStart + 1) commEnd)
          end
      end.

(** 1 << i on an int: the bit leaves the word from i = 64 on. *)
Definition mask (i : Z) : Z :=
  if i <? 63 then 2 ^ i else if i =? 63 then - 2 ^ 63 else 0.

(** The inner loop of readCpuProcStatFromStr over fields[1:]. *)
Fixpoint sum_fields (kind : Z) (vals : list gostring) (i : Z) (total : Z)
  : Z + GoStrings.NumError :=
  match vals with
  | [] => inl total
  | val :: vals' =>
      if Z.land kind (mask i) =? 0 then sum_fields kind vals' (i + 1) total
      else
        match GoStrings.ParseUint val 64 with
        | (_, Some e) => inr e
        | (tick, None) => sum_fields kind vals' (i + 1) ((total + tick) `mod` uint64_mod)
        end
  end.

(** What a line should come to, to compare with [sum_fields]: the sum
    of the values whose position is a bit of [kind]. *)
Fixpoint selected_sum (kind : Z) (vals : list Z) (i : Z) : Z :=
  match vals with
  | [] => 0
  | v :: vals' => (if Z.testbit kind i then v else 0) + selected_sum kind vals' (i + 1)
  end.

(** The number of line feeds in the data. *)
Definition line_feeds (data : gostring) : nat := count_occ Z.eq_dec data 10.

(** The loop over the lines, at index [i]. *)
Fixpoint cpu_lines (numCpu : nat) (kind : Z) (lines : list gostring) (i : nat)
    (cpuTicks : list Z) : list Z * option error :=
  match lines with
  | [] => (cpuTicks, None)
  | line :: lines' =>
      if (0 <? i)%nat && (Z.of_nat i =? Z.of_nat numCpu - 1) then (cpuTicks, None)
      else
        let fields := GoStrings.Fields line in
        if (length fields <? 8)%nat then ([], Some (ErrInvalidLine line))
        else
          match sum_fields kind (drop 1 fields) 0 0 with
          | inr e => ([0], Some (ErrInvalidTick e))
          | inl total => cpu_lines numCpu kind lines' (S i) (<[i := total]> cpuTicks)
          end
  end.

(** readCpuProcStatFromStr, for numCpu >= 0. *)
Definition readCpuProcStatFromStr (numCpu : nat) (kind : Z) (data : gostring)
  : list Z * option error :=
  let lines := GoStrings.SplitN data 10 (Z.of_nat numCpu + 1) in
  if (length lines <? numCpu + 1)%nat then ([], Some (ErrNotEnoughLines (length lines)))
  else
    let cpuTicks := replicate (numCpu + 1) 0 in
    cpu_lines numCpu kind lines 0 cpuTicks.

(** The loop of getProcPidsFromDir over the directory entries. *)
Fixpoint pids_loop (names : list gostring) (pids : list Z) (count : nat)
  : error + list Z :=
  match names with
  | [] => inr (take count pids)
  | name :: names' =>
      match GoStrings.ParseUint name 32 with
      | (_, Some GoStrings.ErrSyntax) => pids_loop names' pids count
      | (_, Some e) => inl (ErrParsePid e)
      | (pid, None) => pids_loop names' (<[count := pid]> pids) (count + 1)
      end
  end.

(** The pid that a directory name stands for, to compare with
    [pids_loop]: the value of a numeral. *)
Definition pid_of_name (name : gostring) : option Z :=
  if GoStrings.numeral name then Some (GoStrings.decimal name) else None.

(** A name that ParseUint refuses for its syntax before any digits of it
    exceed 32 bits: the empty name, or digits of a value below 2^32
    followed by a byte that is no digit. *)
Definition skipped (name : gostring) : Prop :=
  name = [] \/
  exists p c r, name = p ++ c :: r /\ forallb GoStrings.is_digit p = true /\
                GoStrings.decimal p < 2 ^ 32 /\ GoStrings.is_digit c = false.

(** getProcPidsFromDir; [entries] is what os.ReadDir returns: an error or
    the names of the entries. *)
Definition getProcPidsFromDir (entries : string + list gostring) : error + list Z :=
  match entries with
  | inl msg => inl (ErrReadDir msg)
  | inr names => pids_loop names (replicate (length names) 0) 0
  end.

(** What getIsolatedCPUsFromStr comes to: the cpus, an error, or a loop
    that cannot end ([cpu <= cpuEnd] holds for every int when cpuEnd is
    the greatest int). *)
Inductive parsed :=
  | Cpus (cpus : list Z)
  | Failed (e : error)
  | Unbounded.

Definition max_int : Z := 2 ^ 63 - 1.

(** The loop over the parts, with the cpus appended so far. *)
Fixpoint parts_loop (parts : list gostring) (cpus : list Z) : parsed :=
  match parts with
  | [] => Cpus cpus
  | part :: parts' =>
      let cpuRange := GoStrings.SplitN part 45 2 in
      match cpuRange with
      | [] => parts_loop parts' cpus
      | [_; _] =>
          match GoStrings.Atoi (nth 0 cpuRange []) with
          | (_, Some _) => Failed (ErrInvalidRange part)
          | (cpuBegin, None) =>
              match GoStrings.Atoi (nth 1 cpuRange []) with
              | (_, Some _) => Failed (ErrInvalidRange part)
              | (cpuEnd, None) =>
                  if cpuEnd <=? cpuBegin then Failed (ErrInvalidRange part)
                  else if cpuEnd =? max_int then Unbounded
                  else parts_loop parts' (cpus ++ seqZ cpuBegin (cpuEnd - cpuBegin + 1))
              end
          end
      | [_] =>
          match GoStrings.Atoi part with
          | (_, Some _) => Failed (ErrInvalidCpu part)
          | (cpu, None) => parts_loop parts' (cpus ++ [cpu])
          end
      | _ => parts_loop parts' cpus
      end
  end.

Definition getIsolatedCPUsFromStr (cpuStr : gostring) : parsed :=
  match cpuStr with
  | [] => Cpus []
  | _ => parts_loop (GoStrings.Split cpuStr 44) []
  end.

End Proc.

(* ===================================================================== *)
(** ** Measures of a tick of the task iterator *)
(* ===================================================================== *)

Module TaskIterSpec.

(** The tasks (threads) of a process, in the order of the iteration. *)
Definition threads_of (pid : Z) (tasks : list TaskIter.task_struct)
  : list TaskIter.task_struct :=
  filter (fun t => TaskIter.tgid t = pid) tasks.

(** The user and system time of some tasks, added up. *)
Definition ticks_of (ts : list TaskIter.task_struct) : Z :=
  foldr (fun t acc => TaskIter.utime t + TaskIter.stime t + acc) 0 ts.

(** The record that collectCurrentData makes of a row of the table. *)
Definition collected (exe : Z -> gostring) (pid : Z) (info : TaskIter.cpuTimeProcessInfo)
  : TaskIter.ProcessData.t :=
  TaskIter.ProcessData.mk pid (TaskIter.CpuTime info) 0
    (TaskIter.trimNullBytes (TaskIter.Comm info)) (exe pid).

(** The sample that updateStoredData keeps of a collected record. *)
Definition sample (pid : Z) (current : TaskIter.ProcessData.t) : TaskIter.ProcessData.t :=
  TaskIter.ProcessData.mk pid
    (TaskIter.ProcessData.CPUTime current) (TaskIter.ProcessData.CPUTime current)
    (TaskIter.ProcessData.Comm current) (TaskIter.ProcessData.Executable current).

End TaskIterSpec.

(* ===================================================================== *)
(** ** States of package isolated: what calls keep *)
(* ===================================================================== *)

Module IsolatedInv.

(** No two cpus share the map of their current generation: Init makes a
    new map for each cpu it is given. *)
Definition current_apart (st : Isolated.State) : Prop :=
  forall cpu cpu' t t',
    Isolated.procs st !! cpu = Some t -> Isolated.procs st !! cpu' = Some t' ->
    Isolated.currentProcs t = Isolated.currentProcs t' -> cpu = cpu'.

(** The calls that neither remove a pid nor initialise a tracker: the
    only ones that run of the isolated variant makes in its loop. *)
Definition keeps (c : Isolated.call) : bool :=
  match c with
  | Isolated.CallTrack _ _ | Isolated.CallActiveProcs _ => true
  | Isolated.CallInit _ | Isolated.CallRemoveTracking _ => false
  end.

End IsolatedInv.

(* ===================================================================== *)
(** ** The main of the isolated variant: run with the tracker *)
(* ===================================================================== *)

Module HybridIsolated.

(** What the select statement receives. For a tick: its time stamp, what
    bpfInstance.GetActiveProcs() comes to (the version of package ebpf
    whose records carry the cpu is not among the sources, so the result
    of the drain is given), and the pids whose stat file cannot be
    read. *)
Inductive received :=
  | Tick (newTs : Z) (drain : outcome Ebpf.error (list Isolated.ActiveProc))
         (unreadable : list Z)
  | Done.

Inductive log :=
  | InfoStartingLoop
  | InfoIsolatedCPUs (num : nat) (cpus : list Z)
  | ErrorReadingActiveProcs (e : Ebpf.error)
  | ErrorCannotReadStat (proc : Isolated.ActiveProc)
  | InfoActiveProcs (newTs : Z) (num : nat)
  | InfoLoopFinished
  | Crashed.

(** The flags and package variables that run reads. *)
Record config := mkConfig {
  isolatedCPUs : list Z;
  onlyIsolated : bool
}.

(** The loop over the active procs of one tick: the tracker, procsRead
    and the lines logged; [None] when Track panics. *)
Fixpoint each_proc (cfg : config) (unreadable : list Z)
    (activeProcs : list Isolated.ActiveProc)
    (st : Isolated.State) (procsRead : nat) (logs : list log)
  : option (Isolated.State * nat * list log) :=
  match activeProcs with
  | [] => Some (st, procsRead, logs)
  | activeProc :: rest =>
      if onlyIsolated cfg then
        if negb (bool_decide (Isolated.Cpu activeProc ∈ isolatedCPUs cfg))
        then each_proc cfg unreadable rest st procsRead logs
        else
          match Isolated.Track (Isolated.Cpu activeProc) activeProc st with
          | None => None
          | Some st => each_proc cfg unreadable rest st procsRead logs
          end
      else
        let procsRead := (procsRead + 1)%nat in
        let logs :=
          if bool_decide (Isolated.Pid activeProc ∈ unreadable)
          then logs ++ [ErrorCannotReadStat activeProc] else logs in
        each_proc cfg unreadable rest st procsRead logs
  end.

(** The loop over the isolated cpus that adds up the answers of
    ActiveProcs. *)
Fixpoint each_isolated (cpus : list Z) (st : Isolated.State) (procsRead : nat)
  : Isolated.State * nat :=
  match cpus with
  | [] => (st, procsRead)
  | isolatedCPU :: rest =>
      let '(answer, st) := Isolated.ActiveProcs isolatedCPU st in
      each_isolated rest st (procsRead + length answer)%nat
  end.

(** The tick after the drain returned [activeProcs], with the lines
    logged so far. *)
Definition after_drain (cfg : config) (newTs : Z) (unreadable : list Z)
    (activeProcs : list Isolated.ActiveProc) (logs : list log)
    (st : Isolated.State) : option (Isolated.State * list log) :=
  match each_proc cfg unreadable activeProcs st 0 logs with
  | None => None
  | Some (st, procsRead, logs) =>
      let '(st, procsRead) :=
        if onlyIsolated cfg then each_isolated (isolatedCPUs cfg) st procsRead
        else (st, procsRead) in
      Some (st, logs ++ [InfoActiveProcs newTs procsRead])
  end.

(** The body of a tick that passed the guard; [None] when the drain or
    Track panics. *)
Definition tick_body (cfg : config) (newTs : Z)
    (drain : outcome Ebpf.error (list Isolated.ActiveProc)) (unreadable : list Z)
    (st : Isolated.State) : option (Isolated.State * list log) :=
  match drain with
  | Panic => None
  | Ok activeProcs => after_drain cfg newTs unreadable activeProcs [] st
  | Err e => after_drain cfg newTs unreadable [] [ErrorReadingActiveProcs e] st
  end.

(** The for/select loop; as in [Hybrid.loop], nothing assigns [oldTs]. *)
Fixpoint loop (cfg : config) (oldTs : Z) (rs : list received) (st : Isolated.State)
  : list log :=
  match rs with
  | [] => []
  | Done :: _ => [InfoLoopFinished]
  | Tick newTs drain unreadable :: rs' =>
      if Hybrid.too_soon oldTs newTs then loop cfg oldTs rs' st
      else
        match tick_body cfg newTs drain unreadable st with
        | None => [Crashed]
        | Some (st, logs) => logs ++ loop cfg oldTs rs' st
        end
  end.

(** run, from the state in which the package isolated starts. *)
Definition run (cfg : config) (now : Z) (rs : list received) : list log :=
  InfoStartingLoop
    :: InfoIsolatedCPUs (length (isolatedCPUs cfg)) (isolatedCPUs cfg)
    :: loop cfg now rs (Isolated.Init (isolatedCPUs cfg) Isolated.initial).

(** The numbers reported by the ticks that were processed. *)
Definition reported (logs : list log) : list nat :=
  omap (fun l => match l with InfoActiveProcs _ num => Some num | _ => None end) logs.

(** What the last loop of a tick adds up: the lengths of the answers of
    ActiveProcs for the isolated cpus. *)
Definition tracked_total (cpus : list Z) (st : Isolated.State) : nat :=
  sum_list (map (fun cpu => length (Isolated.ActiveProcs cpu st).1) cpus).

(** The state at the head of the loop: the tracker holds maps for every
    isolated cpu. *)
Definition ready (cfg : config) (st : Isolated.State) : Prop :=
  Isolated.wf st /\
  forall cpu, cpu ∈ isolatedCPUs cfg -> is_Some (Isolated.procs st !! cpu).

Definition not_crashed (l : log) : Prop := l <> Crashed.

(** No drain of the ticks panics. *)
Definition drains_return (rs : list received) : Prop :=
  Forall (fun r => match r with Tick _ Panic _ => False | _ => True end) rs.

End HybridIsolated.

(* ===================================================================== *)
(** ** Concrete inputs used by the further examples *)
(* ===================================================================== *)

Module ProcExamples.
Import GoStrings.

Definition stat_fields : list gostring :=
  map bytes ["S"; "1"; "4621"; "4621"; "0"; "-1"; "4194560"; "7"; "0"; "0"; "0";
             "11"; "12"; "0"; "0"; "20"; "0"]%string.

Definition cpu_fields : list gostring :=
  map bytes ["100"; "20"; "300"; "4000"; "50"; "6"; "7"; "0"; "0"; "0"]%string.

Definition stat_data : gostring :=
  bytes "cpu" ++ join cpu_fields ++ [10] ++
  bytes "cpu0" ++ join cpu_fields ++ [10] ++
  bytes "cpu1" ++ join cpu_fields ++ [10] ++
  bytes "cpu2" ++ join cpu_fields ++ [10] ++
  bytes "intr 0".

Definition dir_names : list gostring :=
  map bytes ["34"; "cpuinfo"; "88"; "1abc"; "987987"; "self"]%string.

End ProcExamples.

Module DrainExamples.

Definition row (pid : Z) : Z * Ebpf.keplerActiveProc :=
  (pid, Ebpf.mkKeplerActiveProc pid 0 ([115; 104] ++ replicate 14 0)).

Definition two_batches : list Ebpf.response :=
  [Ebpf.mkResponse [row 1; row 2] Ebpf.More].

Definition last_batch : Ebpf.response := Ebpf.mkResponse [row 3] Ebpf.NoMore.

Definition failed_batch : Ebpf.response := Ebpf.mkResponse [] (Ebpf.Failed "EFAULT").

End DrainExamples.

Module IsolatedExamples.

Definition p5 : Isolated.ActiveProc := Isolated.mkActiveProc 5 0 [].
Definition p5' : Isolated.ActiveProc := Isolated.mkActiveProc 5 3 [].
Definition p6 : Isolated.ActiveProc := Isolated.mkActiveProc 6 0 [].

(** Pid 5 was seen on cpu 0 and then on cpu 3. *)
Definition migrated : list Isolated.call :=
  [Isolated.CallInit [0; 3]; Isolated.CallTrack 0 p5; Isolated.CallTrack 3 p5'].

(** Pid 5 tracked on cpu 0, and the state two ticks later. *)
Definition tracked5 : Isolated.State :=
  default Isolated.initial
    (Isolated.run Isolated.initial [Isolated.CallInit [0]; Isolated.CallTrack 0 p5]).

Definition two_ticks : list Isolated.call :=
  [Isolated.CallActiveProcs 0; Isolated.CallTrack 0 p6; Isolated.CallActiveProcs 0].

Definition later : Isolated.State :=
  default Isolated.initial (Isolated.run tracked5 two_ticks).

End IsolatedExamples.

Module TickExamples.

Definition thread (tgid utime stime : Z) (name : list Z) : TaskIter.task_struct :=
  TaskIter.mkTask tgid utime stime name.

(** Two threads of process 1 and one of process 2. *)
Definition three_tasks : list TaskIter.task_struct :=
  [thread 1 10 5 [97]; thread 2 7 0 [98]; thread 1 20 1 [99]].

(** A table with an entry for each of the pids 0 to 1023. *)
Definition full_table : gmap Z TaskIter.cpuTimeProcessInfo :=
  list_to_map (map (fun pid => (pid, TaskIter.mkInfo 1 [])) (seqZ 0 1024)).

Definition tick1 : gmap Z TaskIter.ProcessData.t :=
  {[ 1 := Examples.pd 1 500 0 ]}.

Definition usage (pid : Z) (comm : gostring) : TaskIter.ProcessUsage.t :=
  TaskIter.ProcessUsage.mk pid F64.zero F64.zero comm [].

Definition table12 : gmap Z TaskIter.cpuTimeProcessInfo :=
  {[ 1 := TaskIter.mkInfo 100 [115; 104; 0; 0]; 2 := TaskIter.mkInfo 200 [] ]}.

Definition env12 : TaskIter.env :=
  TaskIter.mkEnv None [] TaskIter.ReadEOF [2; 1] None (fun _ => []) [] None [] [].

End TickExamples.

Module RunExamples.

Definition proc (pid cpu : Z) : Isolated.ActiveProc := Isolated.mkActiveProc pid cpu [].

Definition only_isolated : HybridIsolated.config := HybridIsolated.mkConfig [2; 3] true.

Definition second : Z := 1000000000.

(** Three ticks, one second apart: pids 5 and 6 run on cpu 2 in the
    first, pid 7 on cpu 3 and pid 8 on cpu 0 in the second, and nothing
    runs in the third. *)
Definition three_ticks : list HybridIsolated.received :=
  [HybridIsolated.Tick (1 * second) (Ok [proc 5 2; proc 6 2]) [];
   HybridIsolated.Tick (2 * second) (Ok [proc 7 3; proc 8 0]) [];
   HybridIsolated.Tick (3 * second) (Ok []) [];
   HybridIsolated.Done].

End RunExamples.

Module InlineExamples.

(** Pids 7, 8 and 9 with samples of 100 ticks each. *)
Definition stored3 : gmap Z TaskIterInline.ProcessData.t :=
  {[ 7 := TaskIterInline.ProcessData.mk 7 100 100;
     8 := TaskIterInline.ProcessData.mk 8 100 100;
     9 := TaskIterInline.ProcessData.mk 9 100 100 ]}.

(** Their cumulative times a tick later: 300, 100 and 600 ticks. *)
Definition env3 : TaskIterInline.env :=
  TaskIterInline.mkEnv None TaskIter.ReadEOF [(7, 300); (8, 100); (9, 600)] None
    [7; 8; 9] None.

End InlineExamples.

(* ===================================================================== *)
(** * Properties *)
(* ===================================================================== *)

(** Closing a decidable goal about concrete data by evaluation. *)
Ltac by_computation :=
  try unfold GoMap.is_order; apply (bool_decide_unpack _); vm_compute; exact I.

(** ** float64 *)

Module F64Facts.
Import F64.

Lemma ltb_key x y :
  is_nan x = false -> is_nan y = false ->
  (SFltb x y = true <-> key_lt (key x) (key y)).
Proof.
  unfold SFltb.
  destruct x as [[]|[]| |[] mx ex], y as [[]|[]| |[] my ey];
    simpl; intros Hx Hy; try discriminate;
    try change (Pos.compare_cont Eq mx my) with (Pos.compare mx my);
    repeat match goal with
           | |- context [Z.compare ?a ?b] => destruct (Z.compare_spec a b)
           | |- context [Pos.compare ?a ?b] => destruct (Pos.compare_spec a b)
           end; simpl;
    (split; intros; first [done | lia | exfalso; lia]).
Qed.

Lemma gtb_asym x y : gtb x y = true -> gtb y x = false.
Proof.
  unfold gtb. intros H.
  destruct (is_nan x) eqn:Hx; [destruct x; try discriminate; destruct y as [[]|[]| |[]]; reflexivity|].
  destruct (is_nan y) eqn:Hy; [destruct y; try discriminate; reflexivity|].
  apply (ltb_key y x Hy Hx) in H.
  destruct (SFltb x y) eqn:E; [|reflexivity].
  apply (ltb_key x y Hx Hy) in E.
  unfold key_lt in *. destruct (key x) as [[? ?] ?], (key y) as [[? ?] ?]. lia.
Qed.

Lemma not_gtb_trans x y z :
  is_nan x = false -> is_nan y = false -> is_nan z = false ->
  gtb y x = false -> gtb z y = false -> gtb z x = false.
Proof.
  unfold gtb. intros Hx Hy Hz H1 H2.
  destruct (SFltb x z) eqn:E; [|reflexivity].
  apply (ltb_key x z Hx Hz) in E.
  assert (N1 : ~ key_lt (key x) (key y)) by (intros K; apply (ltb_key x y Hx Hy) in K; congruence).
  assert (N2 : ~ key_lt (key y) (key z)) by (intros K; apply (ltb_key y z Hy Hz) in K; congruence).
  unfold key_lt in *.
  destruct (key x) as [[? ?] ?], (key y) as [[? ?] ?], (key z) as [[? ?] ?]. lia.
Qed.

Lemma iter_pos_inv {A} (P : A -> Prop) (f : A -> A) :
  (forall x, P x -> P (f x)) -> forall n x, P x -> P (SpecFloat.iter_pos f n x).
Proof.
  intros Hf. induction n as [n IH | n IH |]; simpl; intros x Hx; auto.
Qed.

Lemma shr_1_nonneg mrs : 0 <= shr_m mrs -> 0 <= shr_m (shr_1 mrs).
Proof.
  destruct mrs as [m r s]. simpl.
  destruct m as [|[p|p|]|[p|p|]]; simpl; lia.
Qed.

Lemma shr_fexp_nonneg m e l :
  0 <= m -> 0 <= shr_m (fst (shr_fexp prec emax m e l)).
Proof.
  intros Hm. unfold shr_fexp, shr.
  assert (H0 : 0 <= shr_m (shr_record_of_loc m l))
    by (destruct l as [|[]]; simpl; exact Hm).
  destruct (fexp prec emax (Zdigits2 m + e) - e); simpl; try exact H0.
  apply (iter_pos_inv (fun r => 0 <= shr_m r)); [apply shr_1_nonneg | exact H0].
Qed.

Lemma round_nearest_even_nonneg m l : 0 <= m -> 0 <= round_nearest_even m l.
Proof.
  intros Hm. destruct l as [|[]]; simpl; try lia.
  destruct (Z.even m); lia.
Qed.

Lemma binary_round_aux_shape s m e l :
  0 <= m ->
  is_nan (binary_round_aux prec emax s m e l) = false /\
  signbit (binary_round_aux prec emax s m e l) = s.
Proof.
  intros Hm. unfold binary_round_aux.
  pose proof (shr_fexp_nonneg m e l Hm) as H1.
  destruct (shr_fexp prec emax m e l) as [mrs1 e1]. simpl in H1.
  pose proof (shr_fexp_nonneg _ e1 loc_Exact
                (round_nearest_even_nonneg _ (loc_of_shr_record mrs1) H1)) as H2.
  destruct (shr_fexp prec emax _ e1 loc_Exact) as [mrs2 e2]. simpl in H2.
  destruct (shr_m mrs2) as [|p|p]; simpl; [auto | | lia].
  destruct (e2 <=? emax - prec); simpl; auto.
Qed.

Lemma of_Z_shape n :
  is_nan (of_Z n) = false /\ signbit (of_Z n) = (n <? 0).
Proof.
  unfold of_Z, binary_normalize.
  destruct n as [|p|p]; [split; reflexivity | |];
    unfold binary_round;
    destruct (shl_align _ _ _) as [mz ez];
    apply binary_round_aux_shape; lia.
Qed.

Lemma of_Z_not_nan n : is_nan (of_Z n) = false.
Proof. apply of_Z_shape. Qed.

Lemma of_Z_signbit n : 0 <= n -> signbit (of_Z n) = false.
Proof.
  intros Hn. destruct (of_Z_shape n) as [_ ->]. apply Z.ltb_ge, Hn.
Qed.

Lemma SFdiv_core_nonneg mx ex my ey :
  0 <= fst (fst (SFdiv_core_binary prec emax (Z.pos mx) ex (Z.pos my) ey)).
Proof.
  unfold SFdiv_core_binary.
  set (s := _ - _ - Z.min _ _).
  set (m' := match s with Z0 => _ | Z.pos _ => _ | Z.neg _ => _ end).
  assert (Hm : 0 <= m').
  { subst m'. destruct s; try lia. apply Z.shiftl_nonneg. lia. }
  pose proof (Z_div_mod m' (Z.pos my) ltac:(lia)) as H.
  destruct (Z.div_eucl m' (Z.pos my)) as [q r]. simpl.
  destruct H as [H1 H2]. nia.
Qed.

Lemma div_shape x y :
  (is_nan x = false -> is_finite y = true -> is_nan (div x y) = false) /\
  (signbit x = false -> signbit y = false -> signbit (div x y) = false).
Proof.
  unfold div.
  destruct x as [sx|sx| |sx mx ex], y as [sy|sy| |sy my ey]; simpl;
    try (split; intros; subst; first [done | congruence]);
    try (split; intros H1 H2; rewrite ?H1, ?H2; done).
  pose proof (SFdiv_core_nonneg mx ex my ey) as Hq.
  destruct (SFdiv_core_binary prec emax (Z.pos mx) ex (Z.pos my) ey) as [[mz ez] lz].
  simpl in Hq.
  destruct (binary_round_aux_shape (xorb sx sy) mz ez lz Hq) as [Hn Hs].
  split; intros H1 H2; [exact Hn | rewrite Hs, H1, H2; reflexivity].
Qed.

Lemma signbit_not_neg d : signbit d = false -> ltb d zero = false.
Proof.
  unfold ltb, SFltb, zero. destruct d as [s|s| |s m e]; simpl; intros H; subst; reflexivity.
Qed.

Lemma digits2_pos_succ (q : positive) :
  Z.pos (digits2_pos q) <= Z.pos (digits2_pos (Pos.succ q)) <= Z.pos (digits2_pos q) + 1.
Proof.
  induction q as [q IH | q IH |]; simpl; lia.
Qed.

Lemma digits2_pos_iter_xO (m k : positive) :
  Z.pos (digits2_pos (PosDef.Pos.iter xO m k)) = Z.pos (digits2_pos m) + Z.pos k.
Proof.
  change (PosDef.Pos.iter xO m k) with (Pos.iter xO m k).
  induction k as [|k IH] using Pos.peano_ind.
  - simpl. lia.
  - rewrite Pos.iter_succ. simpl. lia.
Qed.

Lemma digits2_pos_bound (m : positive) (k : Z) :
  0 <= k -> Z.pos m < 2 ^ k -> Z.pos (digits2_pos m) <= k.
Proof.
  revert k. induction m as [m IH | m IH |]; intros k Hk Hlt; simpl.
  - assert (0 < k) by (destruct (Z.eq_dec k 0) as [->|]; [simpl in Hlt; lia | lia]).
    specialize (IH (k - 1) ltac:(lia)).
    replace (2 ^ k) with (2 * 2 ^ (k - 1)) in Hlt
      by (rewrite <- Z.pow_succ_r by lia; f_equal; lia).
    lia.
  - assert (0 < k) by (destruct (Z.eq_dec k 0) as [->|]; [simpl in Hlt; lia | lia]).
    specialize (IH (k - 1) ltac:(lia)).
    replace (2 ^ k) with (2 * 2 ^ (k - 1)) in Hlt
      by (rewrite <- Z.pow_succ_r by lia; f_equal; lia).
    lia.
  - destruct (Z.eq_dec k 0) as [->|]; [simpl in Hlt; lia | lia].
Qed.

(** Shifting a positive mantissa right by fewer bits than it has leaves a
    positive mantissa with that many bits fewer. *)
Lemma iter_shr_1_digits (n : positive) :
  forall (r : shr_record) (p : positive),
    shr_m r = Z.pos p -> Z.pos n < Z.pos (digits2_pos p) ->
    exists q, shr_m (SpecFloat.iter_pos shr_1 n r) = Z.pos q /\
              Z.pos (digits2_pos q) = Z.pos (digits2_pos p) - Z.pos n.
Proof.
  assert (H1 : forall (r : shr_record) (p : positive),
             shr_m r = Z.pos p -> 1 < Z.pos (digits2_pos p) ->
             exists q, shr_m (shr_1 r) = Z.pos q /\
                       Z.pos (digits2_pos q) = Z.pos (digits2_pos p) - 1).
  { intros [m b s] p Hm Hd. simpl in Hm. subst m.
    destruct p as [p|p|]; simpl in *; [exists p | exists p | lia]; split; try reflexivity; lia. }
  induction n as [n IH | n IH |]; intros r p Hm Hd; simpl.
  - destruct (H1 r p Hm ltac:(lia)) as (q0 & Hq0 & Hd0).
    destruct (IH _ q0 Hq0 ltac:(lia)) as (q1 & Hq1 & Hd1).
    destruct (IH _ q1 Hq1 ltac:(lia)) as (q2 & Hq2 & Hd2).
    exists q2. split; [done|]. lia.
  - destruct (IH _ p Hm ltac:(lia)) as (q1 & Hq1 & Hd1).
    destruct (IH _ q1 Hq1 ltac:(lia)) as (q2 & Hq2 & Hd2).
    exists q2. split; [done|]. lia.
  - by apply H1.
Qed.

(** [shr_fexp] on a positive mantissa of [dp] bits, away from the
    subnormal range: the mantissa stays positive, is cut to at most 53
    bits, and the exponent grows by the bits cut. *)
Lemma shr_fexp_positive (p : positive) (e : Z) (l : location) :
  - 1074 <= Z.pos (digits2_pos p) + e - 53 ->
  exists r q,
    shr_fexp prec emax (Z.pos p) e l = (r, e + Z.max (Z.pos (digits2_pos p) - 53) 0) /\
    shr_m r = Z.pos q /\
    Z.pos (digits2_pos q) = Z.min (Z.pos (digits2_pos p)) 53.
Proof.
  intros Hsub. unfold shr_fexp, shr, fexp, emin, prec, emax. simpl Zdigits2.
  replace (Z.max (Z.pos (digits2_pos p) + e - 53) (3 - 1024 - 53) - e)
    with (Z.pos (digits2_pos p) - 53) by lia.
  assert (Hrec : shr_m (shr_record_of_loc (Z.pos p) l) = Z.pos p)
    by (destruct l as [|[]]; reflexivity).
  destruct (Z.pos (digits2_pos p) - 53) as [|n|n] eqn:En.
  - eexists _, p. split; [f_equal; lia|]. split; [done|]. lia.
  - destruct (iter_shr_1_digits n _ p Hrec ltac:(lia)) as (q & Hq & Hd).
    eexists _, q. split; [f_equal; lia|]. split; [done|]. lia.
  - eexists _, p. split; [f_equal; lia|]. split; [done|]. lia.
Qed.

Lemma round_nearest_even_positive (q : positive) (l : location) :
  exists q', round_nearest_even (Z.pos q) l = Z.pos q' /\
             Z.pos (digits2_pos q) <= Z.pos (digits2_pos q') <= Z.pos (digits2_pos q) + 1.
Proof.
  pose proof (digits2_pos_succ q) as Hs.
  destruct l as [|[]]; simpl;
    try (exists q; split; [reflexivity | lia]).
  - destruct q as [q|q|]; simpl.
    + exists (Pos.succ q~1). split; [reflexivity|]. simpl in Hs |- *. lia.
    + exists q~0%positive. split; [reflexivity | simpl; lia].
    + exists 2%positive. split; [reflexivity | simpl; lia].
  - exists (q + 1)%positive. split; [reflexivity|]. rewrite Pos.add_1_r. exact Hs.
Qed.

Lemma binary_round_aux_finite (s : bool) (p : positive) (e : Z) (l : location) :
  - 1074 <= Z.pos (digits2_pos p) + e - 53 ->
  Z.pos (digits2_pos p) + e <= 1023 ->
  e <= 970 ->
  is_finite (binary_round_aux prec emax s (Z.pos p) e l) = true.
Proof.
  intros Hlo Hhi He. unfold binary_round_aux.
  destruct (shr_fexp_positive p e l Hlo) as (r1 & q1 & E1 & Hm1 & Hd1).
  rewrite E1, Hm1.
  destruct (round_nearest_even_positive q1 (loc_of_shr_record r1)) as (q' & Hr & Hd').
  rewrite Hr.
  assert (Hlo2 : - 1074 <= Z.pos (digits2_pos q')
                          + (e + Z.max (Z.pos (digits2_pos p) - 53) 0) - 53).
  { lia. }
  destruct (shr_fexp_positive q' (e + Z.max (Z.pos (digits2_pos p) - 53) 0) loc_Exact
              Hlo2) as (r2 & q2 & E2 & Hm2 & Hd2).
  rewrite E2, Hm2.
  unfold emax, prec.
  destruct (Z.leb_spec (e + Z.max (Z.pos (digits2_pos p) - 53) 0
                        + Z.max (Z.pos (digits2_pos q') - 53) 0) (1024 - 53));
    [reflexivity | lia].
Qed.

(** float64(n) is finite and not zero for every non-zero n of 64 bits. *)
Lemma of_Z_is_finite (n : Z) :
  n <> 0 -> - 2 ^ 64 < n < 2 ^ 64 -> is_finite (of_Z n) = true.
Proof.
  intros Hn Hr. unfold of_Z, binary_normalize.
  assert (G : forall s m, Z.pos m < 2 ^ 64 ->
                          is_finite (binary_round prec emax s m 0) = true).
  { intros s m Hm. unfold binary_round, shl_align.
    pose proof (digits2_pos_bound m 64 ltac:(lia) Hm) as Hd.
    destruct (fexp prec emax (Z.pos (digits2_pos m) + 0) - 0) as [|k|k] eqn:Ek;
      unfold fexp, emin, prec, emax in Ek.
    - apply binary_round_aux_finite; lia.
    - apply binary_round_aux_finite; lia.
    - pose proof (digits2_pos_iter_xO m k) as Hk.
      apply binary_round_aux_finite; unfold fexp, emin, prec, emax; lia. }
  destruct n as [|m|m]; [done | apply G; lia | apply G; lia].
Qed.

End F64Facts.

(** ** Ranging over a Go map *)

Lemma omap_fst_lookup {V} (m : gmap Z V) (l : list (Z * V)) :
  Forall (fun kv => m !! kv.1 = Some kv.2) l ->
  omap (fun k => pair k <$> m !! k) l.*1 = l.
Proof.
  induction 1 as [|[k v] l Hkv _ IH]; simpl; [reflexivity|].
  simpl in Hkv. rewrite Hkv. simpl. f_equal. exact IH.
Qed.

Lemma range_Permutation {V} (m : gmap Z V) (ord : list Z) :
  GoMap.is_order m ord -> GoMap.range m ord ≡ₚ map_to_list m.
Proof.
  unfold GoMap.is_order, GoMap.range. intros ->.
  rewrite omap_fst_lookup; [reflexivity|].
  apply Forall_forall. intros [k v] Hin. by apply elem_of_map_to_list.
Qed.

Lemma range_lookup {V} (m : gmap Z V) (ord : list Z) (k : Z) (v : V) :
  (k, v) ∈ GoMap.range m ord -> m !! k = Some v.
Proof.
  unfold GoMap.range. rewrite list_elem_of_omap.
  intros (k' & _ & Hk). destruct (m !! k') as [v'|] eqn:E; simplify_eq/=. done.
Qed.

Lemma range_elem_of {V} (m : gmap Z V) (ord : list Z) (k : Z) (v : V) :
  GoMap.is_order m ord -> m !! k = Some v -> (k, v) ∈ GoMap.range m ord.
Proof.
  intros Hord Hk. rewrite (range_Permutation m ord Hord).
  by apply elem_of_map_to_list.
Qed.

(** ** sort.Slice *)

Section SortFacts.
Context {A : Type} (less : A -> A -> bool).

Lemma sink_Permutation (x : A) (before : list A) :
  GoSort.sink less x before ≡ₚ x :: before.
Proof.
  induction before as [|y rest IH]; simpl; [reflexivity|].
  destruct (less x y); [|reflexivity].
  rewrite IH. apply perm_swap.
Qed.

Lemma Slice_Permutation (data : list A) : GoSort.Slice data less ≡ₚ data.
Proof.
  unfold GoSort.Slice, GoSort.insertionSort.
  rewrite <- Permutation_rev.
  assert (G : forall acc, fold_left (fun sorted x => GoSort.sink less x sorted) data acc
                          ≡ₚ data ++ acc).
  { induction data as [|x data IH]; intros acc; simpl; [reflexivity|].
    rewrite IH, sink_Permutation. by rewrite Permutation_middle. }
  rewrite G. by rewrite app_nil_r.
Qed.

(** [ok] singles out the elements on which "not less" is transitive. *)
Context (ok : A -> Prop).
Hypothesis less_asym : forall a b, less a b = true -> less b a = false.
Hypothesis not_less_trans :
  forall a b c, ok a -> ok b -> ok c ->
                less a b = false -> less b c = false -> less a c = false.

Lemma sink_sorted (x : A) (before : list A) :
  ok x -> Forall ok before ->
  StronglySorted (fun a b => less a b = false) before ->
  StronglySorted (fun a b => less a b = false) (GoSort.sink less x before).
Proof.
  intros Hx Hok Hs. induction Hs as [|y rest Hs IH Hy]; simpl.
  - repeat constructor.
  - inversion Hok as [|? ? Hoky Hokr]; subst.
    destruct (less x y) eqn:E.
    + constructor; [by apply IH|].
      rewrite (sink_Permutation x rest). constructor; [by apply less_asym|done].
    + constructor; [by constructor|].
      constructor; [done|].
      rewrite Forall_forall in Hy, Hokr |- *. intros b Hb.
      apply (not_less_trans x y b); auto.
  Qed.

Lemma StronglySorted_rev_flip (R : A -> A -> Prop) (l : list A) :
  StronglySorted R l -> StronglySorted (fun a b => R b a) (rev l).
Proof.
  induction 1 as [|x l Hs IH Hx]; simpl; [constructor|].
  apply StronglySorted_app_2; [|done|repeat constructor].
  intros a b Ha Hb. apply list_elem_of_In in Ha. apply <- in_rev in Ha.
  apply list_elem_of_In in Ha.
  apply list_elem_of_singleton in Hb. subst.
  rewrite Forall_forall in Hx. by apply Hx.
Qed.

Lemma Slice_sorted (data : list A) :
  Forall ok data ->
  StronglySorted (fun a b => less b a = false) (GoSort.Slice data less).
Proof.
  intros Hok. unfold GoSort.Slice, GoSort.insertionSort.
  apply (StronglySorted_rev_flip (fun a b => less a b = false)).
  assert (G : forall acc, Forall ok acc ->
             StronglySorted (fun a b => less a b = false) acc ->
             StronglySorted (fun a b => less a b = false)
               (fold_left (fun sorted x => GoSort.sink less x sorted) data acc)).
  { induction Hok as [|x data Hx Hd IH]; intros acc Hacc Hs; simpl; [done|].
    apply IH; [|by apply sink_sorted].
    rewrite (sink_Permutation x acc). by constructor. }
  apply G; constructor.
Qed.

End SortFacts.

(** ** The refactored tick *)

Section TaskIterFacts.
Import TaskIter.

Lemma fold_usage_app (processData : gmap Z ProcessData.t) (clkTck : Z)
    (l : list (Z * ProcessData.t)) (acc : list ProcessUsage.t) :
  fold_left (fun usageData '(pid, current) =>
               usageData ++ [usage_of processData clkTck pid current]) l acc
  = acc ++ map (fun kv => usage_of processData clkTck kv.1 kv.2) l.
Proof.
  revert acc. induction l as [|[pid cur] l IH]; intros acc; simpl.
  - by rewrite app_nil_r.
  - rewrite IH. by rewrite <- app_assoc.
Qed.

Lemma calculateUsageData_unfold ord currentData processData clkTck :
  calculateUsageData ord currentData processData clkTck
  = GoSort.Slice (map (fun kv => usage_of processData clkTck kv.1 kv.2)
                      (GoMap.range currentData ord)) by_delta_desc.
Proof. unfold calculateUsageData. by rewrite fold_usage_app. Qed.

Lemma usage_of_delta_cases processData clkTck pid current :
  ProcessUsage.CPUDelta (usage_of processData clkTck pid current)
  = match processData !! pid with
    | Some prev =>
        F64.div (F64.of_Z ((ProcessData.CPUTime current - ProcessData.LastTime prev)
                           `mod` uint64_mod))
                (F64.of_Z clkTck)
    | None => F64.zero
    end.
Proof. unfold usage_of. by destruct (processData !! pid). Qed.

Lemma usage_of_not_nan processData clkTck pid current :
  F64.is_finite (F64.of_Z clkTck) = true ->
  F64.is_nan (ProcessUsage.CPUDelta (usage_of processData clkTck pid current)) = false.
Proof.
  intros Hc. rewrite usage_of_delta_cases.
  destruct (processData !! pid); [|reflexivity].
  apply F64Facts.div_shape; [apply F64Facts.of_Z_not_nan | exact Hc].
Qed.

Lemma by_delta_desc_asym a b : by_delta_desc a b = true -> by_delta_desc b a = false.
Proof. apply F64Facts.gtb_asym. Qed.

Lemma by_delta_desc_trans a b c :
  F64.is_nan (ProcessUsage.CPUDelta a) = false ->
  F64.is_nan (ProcessUsage.CPUDelta b) = false ->
  F64.is_nan (ProcessUsage.CPUDelta c) = false ->
  by_delta_desc a b = false -> by_delta_desc b c = false -> by_delta_desc a c = false.
Proof.
  unfold by_delta_desc. intros Ha Hb Hc H1 H2.
  exact (F64Facts.not_gtb_trans _ _ _ Hc Hb Ha H2 H1).
Qed.


Lemma calculateUsageData_Permutation ord currentData processData clkTck :
  GoMap.is_order currentData ord ->
  calculateUsageData ord currentData processData clkTck
  ≡ₚ map (fun kv => usage_of processData clkTck kv.1 kv.2) (map_to_list currentData).
Proof.
  intros Hord. rewrite calculateUsageData_unfold, Slice_Permutation.
  apply Permutation_map. by apply range_Permutation.
Qed.

Lemma calculateUsageData_StronglySorted ord currentData processData clkTck :
  F64.is_finite (F64.of_Z clkTck) = true ->
  StronglySorted (fun a b => by_delta_desc b a = false)
                 (calculateUsageData ord currentData processData clkTck).
Proof.
  intros Hc. rewrite calculateUsageData_unfold.
  apply (Slice_sorted by_delta_desc
           (fun u => F64.is_nan (ProcessUsage.CPUDelta u) = false)).
  - apply by_delta_desc_asym.
  - apply by_delta_desc_trans.
  - apply Forall_forall. intros u Hu.
    apply list_elem_of_In, in_map_iff in Hu. destruct Hu as ([pid cur] & <- & _).
    by apply usage_of_not_nan.
Qed.

Lemma print_row_delta u :
  ProcessUsage.CPUDelta (print_row u) = ProcessUsage.CPUDelta u.
Proof. reflexivity. Qed.

Lemma StronglySorted_take {A} (R : A -> A -> Prop) (n : nat) (l : list A) :
  StronglySorted R l -> StronglySorted R (take n l).
Proof.
  intros H. rewrite <- (take_drop n l) in H.
  by apply StronglySorted_app in H as (_ & H & _).
Qed.

End TaskIterFacts.

Lemma ex_current_order : GoMap.is_order Examples.ex_current [12; 11; 10].
Proof.
  unfold GoMap.is_order.
  by_computation.
Qed.

(** C6, counterexample: with the range loop visiting pid 12 before pid 11,
    the two records of equal delta 5.0 come out with pid 12 first, so the
    report is not [(11,5.0),(12,5.0),(10,2.0)]. *)
Lemma calculateUsageData_ties_not_by_pid :
  ~ (forall ord, GoMap.is_order Examples.ex_current ord ->
       map TaskIter.ProcessUsage.PID
           (TaskIter.calculateUsageData ord Examples.ex_current Examples.ex_stored 100) = [11; 12; 10]).
Proof.
  intros H. specialize (H [12; 11; 10] ex_current_order).
  vm_compute in H. discriminate H.
Qed.

(** In the ordering example every iteration order gives one of two
    reports, and both occur. *)
Lemma ordering_example_reports :
  (forall ord, GoMap.is_order Examples.ex_current ord ->
     map TaskIter.ProcessUsage.PID
         (TaskIter.calculateUsageData ord Examples.ex_current Examples.ex_stored 100)
     ∈ [[11; 12; 10]; [12; 11; 10]]) /\
  map TaskIter.ProcessUsage.PID
      (TaskIter.calculateUsageData [10; 11; 12] Examples.ex_current Examples.ex_stored 100)
  = [11; 12; 10] /\
  map TaskIter.ProcessUsage.PID
      (TaskIter.calculateUsageData [12; 11; 10] Examples.ex_current Examples.ex_stored 100)
  = [12; 11; 10].
Proof.
  split; [|split; vm_compute; reflexivity].
  intros ord Hord. unfold GoMap.is_order in Hord.
  assert (Hp : ord ∈ permutations [10; 11; 12]).
  { apply permutations_Permutation. rewrite Hord. by_computation. }
  vm_compute in Hp.
  repeat (apply elem_of_cons in Hp as [-> | Hp]; [by_computation|]).
  by apply elem_of_nil in Hp.
Qed.

(** C6, as amended: whatever order the range loop takes, and for every
    non-zero int64 clkTck, the usage data is a permutation of one record
    per drained pid and no record is followed by one of strictly greater
    delta; the rows that printResults writes are a prefix of it and so in
    the same order. Nothing orders records of equal delta: the deltas
    [(10,2.0),(11,5.0),(12,5.0)] are reported as [11,12,10] or as
    [12,11,10], according to the iteration order. *)
Theorem calculateUsageData_sorted_by_delta ord currentData processData clkTck count :
  GoMap.is_order currentData ord ->
  clkTck <> 0 -> is_int64 clkTck ->
  let usageData := TaskIter.calculateUsageData ord currentData processData clkTck in
  usageData ≡ₚ map (fun kv => TaskIter.usage_of processData clkTck kv.1 kv.2)
                   (map_to_list currentData) /\
  StronglySorted
    (fun a b => F64.gtb (TaskIter.ProcessUsage.CPUDelta b)
                        (TaskIter.ProcessUsage.CPUDelta a) = false) usageData /\
  (exists rows,
     TaskIter.printResults usageData count
       = TaskIter.Printed rows (length usageData) /\
     StronglySorted
       (fun a b => F64.gtb (TaskIter.ProcessUsage.CPUDelta b)
                           (TaskIter.ProcessUsage.CPUDelta a) = false) rows) /\
  (forall ord', GoMap.is_order Examples.ex_current ord' ->
     map TaskIter.ProcessUsage.PID
         (TaskIter.calculateUsageData ord' Examples.ex_current Examples.ex_stored 100)
     ∈ [[11; 12; 10]; [12; 11; 10]]) /\
  (exists ord1 ord2,
     GoMap.is_order Examples.ex_current ord1 /\
     GoMap.is_order Examples.ex_current ord2 /\
     map TaskIter.ProcessUsage.PID
         (TaskIter.calculateUsageData ord1 Examples.ex_current Examples.ex_stored 100)
     = [11; 12; 10] /\
     map TaskIter.ProcessUsage.PID
         (TaskIter.calculateUsageData ord2 Examples.ex_current Examples.ex_stored 100)
     = [12; 11; 10]).
Proof.
  intros Hord Hnz Hrange usageData.
  assert (Hc : F64.is_finite (F64.of_Z clkTck) = true).
  { apply F64Facts.of_Z_is_finite; [done|]. unfold is_int64 in Hrange. lia. }
  pose proof (calculateUsageData_StronglySorted ord currentData processData clkTck Hc) as Hs.
  split; [by apply calculateUsageData_Permutation|].
  split; [exact Hs|].
  split.
  { eexists. split; [reflexivity|].
    apply (StronglySorted_fmap _ (fun a b => TaskIter.by_delta_desc b a = false)); [auto|].
    by apply StronglySorted_take. }
  destruct ordering_example_reports as (Hall & H1 & H2).
  split; [exact Hall|].
  exists [10; 11; 12], [12; 11; 10].
  split; [by_computation|]. split; [exact ex_current_order|]. done.
Qed.

Lemma calculateUsageData_sorted_by_delta_witness :
  let usageData := TaskIter.calculateUsageData [12; 11; 10] Examples.ex_current Examples.ex_stored 100 in
  map TaskIter.ProcessUsage.PID usageData = [12; 11; 10] /\
  StronglySorted
    (fun a b => F64.gtb (TaskIter.ProcessUsage.CPUDelta b)
                        (TaskIter.ProcessUsage.CPUDelta a) = false) usageData.
Proof.
  split; [vm_compute; reflexivity|].
  apply (calculateUsageData_sorted_by_delta [12; 11; 10] Examples.ex_current Examples.ex_stored 100 0).
  - exact ex_current_order.
  - lia.
  - unfold is_int64. lia.
Defined.

Section TaskIterTick.
Import TaskIter.

Lemma usage_of_delta_not_negative processData clkTck pid current :
  0 < clkTck ->
  F64.ltb (ProcessUsage.CPUDelta (usage_of processData clkTck pid current)) F64.zero = false.
Proof.
  intros Hc. apply F64Facts.signbit_not_neg. rewrite usage_of_delta_cases.
  destruct (processData !! pid) as [prev|]; [|reflexivity].
  apply F64Facts.div_shape; apply F64Facts.of_Z_signbit; [|lia].
  apply Z.mod_pos_bound. reflexivity.
Qed.

Lemma usage_of_elem_of ord currentData processData clkTck pid current :
  GoMap.is_order currentData ord ->
  currentData !! pid = Some current ->
  usage_of processData clkTck pid current
  ∈ calculateUsageData ord currentData processData clkTck.
Proof.
  intros Hord Hpid.
  rewrite (calculateUsageData_Permutation ord currentData processData clkTck Hord).
  apply list_elem_of_In, in_map_iff. exists (pid, current). split; [reflexivity|].
  by apply list_elem_of_In, elem_of_map_to_list.
Qed.

Lemma printResults_unlimited usageData count :
  count <= 0 ->
  printResults usageData count = Printed (map print_row usageData) (length usageData).
Proof.
  intros Hc. unfold printResults.
  destruct (0 <? count) eqn:E; [apply Z.ltb_lt in E; lia|].
  by rewrite Nat2Z.id, firstn_all.
Qed.

Lemma collect_rows_keys exe rows currentData keys :
  (fold_left (collect_row exe) rows (currentData, keys)).2 = keys ++ rows.*1.
Proof.
  revert currentData keys. induction rows as [|[k v] rows IH]; intros cd keys; simpl.
  - by rewrite app_nil_r.
  - rewrite IH. by rewrite <- app_assoc.
Qed.

Lemma collectCurrentData_keys e process_map m1 currentData keys :
  collectCurrentData e process_map = (m1, inr (currentData, keys)) ->
  m1 = fold_left sum_cpu_time (tasks e) process_map /\
  keys = (GoMap.range m1 (iterate_order e)).*1.
Proof.
  unfold collectCurrentData. intros H.
  destruct (open_err e); [discriminate|].
  pose proof (collect_rows_keys (exe e)
    (GoMap.range (fold_left sum_cpu_time (tasks e) process_map) (iterate_order e)) ∅ []) as K.
  destruct (fold_left (collect_row (exe e)) _ _) as [cd ks]. simpl in K.
  destruct (read_res e); try discriminate;
    destruct (iterate_err e); try discriminate;
    injection H as <- <- <-; by subst.
Qed.

Lemma delete_batch_frame keys process_map k :
  k ∉ keys -> (delete_batch keys process_map).2 !! k = process_map !! k.
Proof.
  revert process_map. induction keys as [|k' keys IH]; intros m Hk; simpl; [done|].
  apply not_elem_of_cons in Hk as [Hne Hk].
  destruct (m !! k'); [|done].
  specialize (IH (delete k' m) Hk).
  destruct (delete_batch keys (delete k' m)) as [[n err] m']. simpl in *.
  rewrite IH. by apply lookup_delete_ne.
Qed.

Lemma delete_batch_shrinks keys process_map k :
  process_map !! k = None -> (delete_batch keys process_map).2 !! k = None.
Proof.
  revert process_map. induction keys as [|k' keys IH]; intros m Hk; simpl; [done|].
  destruct (m !! k') eqn:E; [|done].
  assert (H : delete k' m !! k = None).
  { destruct (decide (k' = k)) as [->|Hne];
      [apply lookup_delete_eq | by rewrite lookup_delete_ne]. }
  specialize (IH (delete k' m) H).
  by destruct (delete_batch keys (delete k' m)) as [[n err] m'].
Qed.

Lemma delete_batch_success keys process_map k :
  (delete_batch keys process_map).1.2 = None ->
  k ∈ keys -> (delete_batch keys process_map).2 !! k = None.
Proof.
  revert process_map. induction keys as [|k' keys IH]; intros m Hok Hk; simpl in *.
  - by apply elem_of_nil in Hk.
  - destruct (m !! k') eqn:E; [|discriminate].
    pose proof (delete_batch_shrinks keys (delete k' m) k') as Hs.
    specialize (IH (delete k' m)).
    destruct (delete_batch keys (delete k' m)) as [[n err] m']. simpl in *.
    apply elem_of_cons in Hk as [->|Hk]; [apply Hs, lookup_delete_eq | by apply IH].
Qed.

End TaskIterTick.

Lemma collectAndPrintCPUData_after_collect e process_map processData cfg
    m1 currentData keys :
  TaskIter.collectCurrentData e process_map = (m1, inr (currentData, keys)) ->
  TaskIter.collectAndPrintCPUData e process_map processData cfg
  = let before_clear := TaskIter.kernel_writes (TaskIter.concurrent e) m1 in
    let '(_, err, m2) := TaskIter.BatchDelete (TaskIter.delete_fault e) keys before_clear in
    match err with
    | Some msg => TaskIter.mkResult (Some (TaskIter.ErrBatchDelete msg)) m2 processData []
    | None =>
        TaskIter.mkResult None m2
          (TaskIter.updateStoredData (TaskIter.range_update e) processData currentData)
          [TaskIter.printResults
             (TaskIter.calculateUsageData (TaskIter.range_calc e) currentData processData
                                          (TaskIter.clkTck cfg))
             (TaskIter.count cfg)]
    end.
Proof. unfold TaskIter.collectAndPrintCPUData. intros ->. reflexivity. Qed.

Lemma BatchDelete_frame fault keys process_map k :
  k ∉ keys -> (TaskIter.BatchDelete fault keys process_map).2 !! k = process_map !! k.
Proof.
  unfold TaskIter.BatchDelete. destruct fault; [done|]. apply delete_batch_frame.
Qed.

Lemma BatchDelete_success fault keys process_map k :
  (TaskIter.BatchDelete fault keys process_map).1.2 = None ->
  k ∈ keys -> (TaskIter.BatchDelete fault keys process_map).2 !! k = None.
Proof.
  unfold TaskIter.BatchDelete. destruct fault; [done|]. apply delete_batch_success.
Qed.

(** C5: the clear is a batch delete of the keys that the iteration read.
    Whatever the kernel wrote in between, a key that was not read has
    after the clear the value it had just before it, also when the delete
    stops half way; when the delete succeeds every key read is gone. *)
Theorem clear_removes_only_keys_read e process_map processData cfg
    m1 currentData keys :
  TaskIter.collectCurrentData e process_map = (m1, inr (currentData, keys)) ->
  let before_clear := TaskIter.kernel_writes (TaskIter.concurrent e) m1 in
  let r := TaskIter.collectAndPrintCPUData e process_map processData cfg in
  keys = (GoMap.range m1 (TaskIter.iterate_order e)).*1 /\
  (forall k, k ∉ keys -> TaskIter.table r !! k = before_clear !! k) /\
  (TaskIter.ret r = None -> forall k, k ∈ keys -> TaskIter.table r !! k = None).
Proof.
  intros Hc before_clear r.
  split; [by apply (collectCurrentData_keys e process_map m1 currentData keys)|].
  subst r. rewrite (collectAndPrintCPUData_after_collect _ _ _ _ _ _ _ Hc). simpl.
  fold before_clear.
  pose proof (BatchDelete_frame (TaskIter.delete_fault e) keys before_clear) as Hf.
  pose proof (BatchDelete_success (TaskIter.delete_fault e) keys before_clear) as Hs.
  destruct (TaskIter.BatchDelete (TaskIter.delete_fault e) keys before_clear)
    as [[n err] m2]. simpl in *.
  split.
  - intros k Hk. destruct err; simpl; by apply Hf.
  - destruct err; simpl; [discriminate|]. intros _ k Hk. by apply Hs.
Qed.

(** The round trip of the spec: rows for pids 1 and 2 are read, a row for
    pid 3 lands before the clear; afterwards 1 and 2 are gone and 3 is
    still there. *)
Lemma clear_removes_only_keys_read_witness :
  let r := TaskIter.collectAndPrintCPUData (Examples.clear_env None) ∅ ∅ Examples.cfg100 in
  TaskIter.table r !! 3 = Some (TaskIter.mkInfo 50 []) /\
  TaskIter.table r !! 1 = None /\ TaskIter.table r !! 2 = None.
Proof.
  pose proof (clear_removes_only_keys_read (Examples.clear_env None) ∅ ∅ Examples.cfg100
                _ _ _ eq_refl) as (Hkeys & Hframe & Hgone).
  cbv zeta. simpl in Hkeys.
  split; [|split].
  - rewrite Hframe; [vm_compute; reflexivity | by_computation].
  - apply Hgone; [vm_compute; reflexivity | by_computation].
  - apply Hgone; [vm_compute; reflexivity | by_computation].
Defined.


(** ** The earlier tick *)

Lemma range_keys_NoDup {V} (m : gmap Z V) (ord : list Z) :
  NoDup ord -> NoDup (GoMap.range m ord).*1.
Proof.
  unfold GoMap.range. induction 1 as [|k ord Hk Hnd IH]; simpl; [constructor|].
  destruct (m !! k) as [v|]; simpl; [|exact IH].
  constructor; [|exact IH].
  rewrite list_elem_of_fmap. intros ([k' v'] & -> & Hin).
  apply list_elem_of_omap in Hin as (k'' & Hin & Hv).
  destruct (m !! k''); simplify_eq/=. done.
Qed.

(** While the loop runs, the records appended for pids that had no stored
    sample when the tick began carry the zero delta. *)
Lemma usage_step_first_appearance clkTck (stored0 : gmap Z TaskIterInline.ProcessData.t)
    (l : list (Z * TaskIterInline.ProcessData.t)) :
  NoDup l.*1 ->
  forall acc processData,
    (forall k, k ∈ l.*1 -> processData !! k = stored0 !! k) ->
    Forall (fun u => stored0 !! TaskIterInline.ProcessUsage.PID u = None ->
                     TaskIterInline.ProcessUsage.CPUDelta u = F64.zero) acc ->
    Forall (fun u => stored0 !! TaskIterInline.ProcessUsage.PID u = None ->
                     TaskIterInline.ProcessUsage.CPUDelta u = F64.zero)
           (fold_left (TaskIterInline.usage_step clkTck) l (acc, processData)).1.
Proof.
  induction l as [|[pid cur] l IH]; intros Hnd acc pd Hagree Hacc; simpl; [done|].
  inversion Hnd as [|? ? Hnotin Hnd']; subst.
  apply IH; [done| |].
  - intros k Hk. rewrite lookup_insert_ne; [|intros ->; by apply Hnotin].
    apply Hagree. simpl. by right.
  - apply Forall_app. split; [done|]. constructor; [|constructor].
    simpl. rewrite (Hagree pid) by (simpl; by left).
    destruct (stored0 !! pid) eqn:E; simpl; intros H; [congruence | reflexivity].
Qed.

Lemma inline_printed_have_history e processData count clkTck rows u :
  NoDup (TaskIterInline.range_order e) ->
  TaskIterInline.Printed rows
    ∈ TaskIterInline.output (TaskIterInline.collectAndPrintCPUData e processData count clkTck) ->
  u ∈ rows ->
  is_Some (processData !! TaskIterInline.ProcessUsage.PID u).
Proof.
  intros Hnd. unfold TaskIterInline.collectAndPrintCPUData.
  destruct (TaskIterInline.open_err e); simpl; [by intros ?%elem_of_nil|].
  set (currentData := fold_left _ (TaskIterInline.rows e) ∅).
  pose proof (usage_step_first_appearance clkTck processData
                (GoMap.range currentData (TaskIterInline.range_order e))
                (range_keys_NoDup _ _ Hnd) [] processData (fun _ _ => eq_refl)
                (Forall_nil_2 _)) as Hz.
  destruct (fold_left (TaskIterInline.usage_step clkTck) _ _) as [usageData pd'].
  simpl in Hz.
  assert (G : TaskIterInline.Printed rows ∈
              (match TaskIterInline.clear_err e with
               | Some msg => [TaskIterInline.WarningFailedToClear msg]
               | None => []
               end ++
               [TaskIterInline.Printed
                  (filter (fun process =>
                             F64.gtb (TaskIterInline.ProcessUsage.CPUDelta process) F64.zero = true)
                     (take (Z.to_nat
                              (if (0 <? count) &&
                                  (count <? Z.of_nat (length (GoSort.Slice usageData TaskIterInline.by_delta_desc)))
                               then count
                               else Z.of_nat (length (GoSort.Slice usageData TaskIterInline.by_delta_desc))))
                           (GoSort.Slice usageData TaskIterInline.by_delta_desc)))]) ->
              u ∈ rows -> is_Some (processData !! TaskIterInline.ProcessUsage.PID u)).
  { intros Hin Hu.
    apply elem_of_app in Hin as [Hin|Hin].
    { destruct (TaskIterInline.clear_err e); [|by apply elem_of_nil in Hin].
      apply list_elem_of_singleton in Hin. discriminate. }
    apply list_elem_of_singleton in Hin. injection Hin as ->.
    apply list_elem_of_filter in Hu as [Hpos Hu].
    apply elem_of_take in Hu as (i & Hu & _).
    apply list_elem_of_lookup_2 in Hu.
    rewrite (Slice_Permutation TaskIterInline.by_delta_desc usageData) in Hu.
    rewrite Forall_forall in Hz. specialize (Hz u Hu).
    destruct (processData !! TaskIterInline.ProcessUsage.PID u) eqn:E; [eauto|].
    rewrite (Hz eq_refl) in Hpos. discriminate. }
  destruct (TaskIterInline.read_res e); simpl;
    try (by intros ?%elem_of_nil);
    destruct (TaskIterInline.iterate_err e); simpl;
    try (by intros ?%elem_of_nil); exact G.
Qed.

(** C7, counterexample: in the earlier main the first drain of pid 7
    (500 ticks, nothing stored) succeeds, stores a sample for pid 7 and
    prints no row: no record for pid 7 is among the rows written. *)
Lemma inline_first_appearance_not_printed :
  let r := TaskIterInline.collectAndPrintCPUData (Examples.inline_env None) ∅ 0 100 in
  TaskIterInline.ret r = None /\
  is_Some (TaskIterInline.stored r !! 7) /\
  TaskIterInline.output r = [TaskIterInline.Printed []] /\
  ~ (exists rows u,
       TaskIterInline.Printed rows ∈ TaskIterInline.output r /\
       u ∈ rows /\ TaskIterInline.ProcessUsage.PID u = 7).
Proof.
  cbv zeta.
  assert (E : TaskIterInline.output
                (TaskIterInline.collectAndPrintCPUData (Examples.inline_env None) ∅ 0 100)
              = [TaskIterInline.Printed []]) by (vm_compute; reflexivity).
  split; [vm_compute; reflexivity|]. split; [by_computation|]. split; [exact E|].
  rewrite E. intros (rows & u & Hin & Hu & _).
  apply list_elem_of_singleton in Hin. injection Hin as ->.
  by apply elem_of_nil in Hu.
Qed.

(** C7, as amended: a pid with no stored sample gets the zero delta
    whatever its cumulative time. In the refactored main its record is in
    the usage data handed to printResults, which writes every record when
    count is not positive. In the earlier main the print loop writes only
    rows of positive delta: every row it writes is for a pid that had a
    stored sample. *)
Theorem first_appearance_has_zero_delta ord currentData processData clkTck pid current
    e inlineData count inlineClk :
  GoMap.is_order currentData ord ->
  currentData !! pid = Some current ->
  processData !! pid = None ->
  NoDup (TaskIterInline.range_order e) ->
  let u := TaskIter.usage_of processData clkTck pid current in
  let usageData := TaskIter.calculateUsageData ord currentData processData clkTck in
  TaskIter.ProcessUsage.PID u = pid /\
  TaskIter.ProcessUsage.CPUDelta u = F64.zero /\
  u ∈ usageData /\
  (count <= 0 ->
   TaskIter.printResults usageData count
   = TaskIter.Printed (map TaskIter.print_row usageData) (length usageData)) /\
  (forall rows row,
     TaskIterInline.Printed rows
       ∈ TaskIterInline.output
           (TaskIterInline.collectAndPrintCPUData e inlineData count inlineClk) ->
     row ∈ rows ->
     is_Some (inlineData !! TaskIterInline.ProcessUsage.PID row)).
Proof.
  intros Hord Hcur Hnew Hnd u usageData.
  split; [subst u; unfold TaskIter.usage_of; by rewrite Hnew|].
  split; [subst u; rewrite usage_of_delta_cases; by rewrite Hnew|].
  split; [by apply usage_of_elem_of|].
  split; [apply printResults_unlimited|].
  intros rows row. by apply inline_printed_have_history.
Qed.

Lemma first_appearance_has_zero_delta_witness :
  let u := TaskIter.usage_of ∅ 100 7 (Examples.pd 7 500 0) in
  TaskIter.ProcessUsage.CPUDelta u = F64.zero /\
  u ∈ TaskIter.calculateUsageData [7] Examples.first_seen ∅ 100 /\
  TaskIterInline.output
    (TaskIterInline.collectAndPrintCPUData (Examples.inline_env None) ∅ 0 100)
  = [TaskIterInline.Printed []].
Proof.
  pose proof (first_appearance_has_zero_delta [7] Examples.first_seen ∅ 100 7
                (Examples.pd 7 500 0) (Examples.inline_env None) ∅ 0 100) as H.
  cbv zeta in *.
  destruct H as (_ & Hz & Hin & _ & _).
  - by_computation.
  - reflexivity.
  - reflexivity.
  - by_computation.
  - split; [exact Hz|]. split; [exact Hin|]. vm_compute. reflexivity.
Defined.

(** ** A clear that fails *)

(** C4, counterexample: the drain reads pids 1 and 2, the batch delete
    fails, and the tick ends there: the error goes back to the caller, the
    stored samples are as before and nothing is printed. So it is not the
    case that the tick returns nil and emits a report. *)
Lemma batch_delete_failure_aborts_tick :
  let e := Examples.clear_env (Some "operation not permitted"%string) in
  let r := TaskIter.collectAndPrintCPUData e ∅ Examples.one_stored Examples.cfg100 in
  (exists currentData keys m1,
     TaskIter.collectCurrentData e ∅ = (m1, inr (currentData, keys)) /\ keys = [1; 2]) /\
  TaskIter.ret r = Some (TaskIter.ErrBatchDelete "operation not permitted") /\
  TaskIter.stored r = Examples.one_stored /\
  TaskIter.output r = [] /\
  ~ (TaskIter.ret r = None /\
     exists rows total, TaskIter.Printed rows total ∈ TaskIter.output r).
Proof.
  cbv zeta.
  assert (E : TaskIter.ret
                (TaskIter.collectAndPrintCPUData
                   (Examples.clear_env (Some "operation not permitted"%string))
                   ∅ Examples.one_stored Examples.cfg100)
              = Some (TaskIter.ErrBatchDelete "operation not permitted"))
    by (vm_compute; reflexivity).
  split; [eexists _, _, _; split; [reflexivity | vm_compute; reflexivity]|].
  split; [exact E|].
  split; [vm_compute; reflexivity|].
  split; [vm_compute; reflexivity|].
  rewrite E. intros [H _]. discriminate H.
Qed.

Lemma inline_result_with_clear_err e processData count clkTck msg :
  TaskIterInline.open_err e = None ->
  (forall m, TaskIterInline.read_res e <> TaskIter.ReadError m) ->
  TaskIterInline.iterate_err e = None ->
  TaskIterInline.clear_err e = Some msg ->
  let cleared :=
    TaskIterInline.mkEnv (TaskIterInline.open_err e) (TaskIterInline.read_res e)
      (TaskIterInline.rows e) (TaskIterInline.iterate_err e)
      (TaskIterInline.range_order e) None in
  let r := TaskIterInline.collectAndPrintCPUData e processData count clkTck in
  let r0 := TaskIterInline.collectAndPrintCPUData cleared processData count clkTck in
  TaskIterInline.ret r = None /\
  TaskIterInline.stored r = TaskIterInline.stored r0 /\
  TaskIterInline.output r = TaskIterInline.WarningFailedToClear msg :: TaskIterInline.output r0 /\
  exists rows, TaskIterInline.output r0 = [TaskIterInline.Printed rows].
Proof.
  intros Ho Hr Hi Hc. unfold TaskIterInline.collectAndPrintCPUData. simpl.
  rewrite Ho, Hi, Hc.
  destruct (fold_left (TaskIterInline.usage_step clkTck) _ _) as [usageData pd'].
  destruct (TaskIterInline.read_res e) as [| | |m]; simpl; eauto.
  by destruct (Hr m).
Qed.

(** C4, as amended: in the refactored main, which clears by batch delete
    of the keys read, a failing delete ends the tick: collectAndPrintCPUData
    returns the error, the stored samples are untouched and nothing is
    printed, and the caller in monitor logs the error and goes on with
    the next tick. In the earlier main, which clears with Delete(nil),
    a failing clear adds a warning and changes nothing else: the tick
    returns nil, stores the same samples and prints the same report as
    when the clear succeeds. *)
Theorem clear_failure_by_variant cfg st e m1 currentData keys msg
    ie inlineData count clkTck imsg :
  TaskIter.collectCurrentData e (TaskIter.kernel_map st) = (m1, inr (currentData, keys)) ->
  (TaskIter.BatchDelete (TaskIter.delete_fault e) keys
     (TaskIter.kernel_writes (TaskIter.concurrent e) m1)).1.2 = Some msg ->
  TaskIterInline.open_err ie = None ->
  (forall m, TaskIterInline.read_res ie <> TaskIter.ReadError m) ->
  TaskIterInline.iterate_err ie = None ->
  TaskIterInline.clear_err ie = Some imsg ->
  let r := TaskIter.collectAndPrintCPUData e (TaskIter.kernel_map st)
             (TaskIter.processData st) cfg in
  let st' := TaskIter.tick cfg TaskIter.LogErrorCollecting st e in
  let cleared :=
    TaskIterInline.mkEnv (TaskIterInline.open_err ie) (TaskIterInline.read_res ie)
      (TaskIterInline.rows ie) (TaskIterInline.iterate_err ie)
      (TaskIterInline.range_order ie) None in
  let ir := TaskIterInline.collectAndPrintCPUData ie inlineData count clkTck in
  let ir0 := TaskIterInline.collectAndPrintCPUData cleared inlineData count clkTck in
  (TaskIter.ret r = Some (TaskIter.ErrBatchDelete msg) /\
   TaskIter.stored r = TaskIter.processData st /\
   TaskIter.output r = [] /\
   TaskIter.processData st' = TaskIter.processData st /\
   TaskIter.written st'
   = TaskIter.written st ++ [TaskIter.LogErrorCollecting (TaskIter.ErrBatchDelete msg)]) /\
  (TaskIterInline.ret ir = None /\
   TaskIterInline.stored ir = TaskIterInline.stored ir0 /\
   TaskIterInline.output ir
   = TaskIterInline.WarningFailedToClear imsg :: TaskIterInline.output ir0 /\
   exists rows, TaskIterInline.output ir0 = [TaskIterInline.Printed rows]).
Proof.
  intros Hc Hd Ho Hr Hi Hce r st' cleared ir ir0.
  split; [|by apply inline_result_with_clear_err].
  assert (E : r = TaskIter.mkResult (Some (TaskIter.ErrBatchDelete msg))
                (TaskIter.BatchDelete (TaskIter.delete_fault e) keys
                   (TaskIter.kernel_writes (TaskIter.concurrent e) m1)).2
                (TaskIter.processData st) []).
  { subst r. rewrite (collectAndPrintCPUData_after_collect _ _ _ _ _ _ _ Hc). simpl.
    destruct (TaskIter.BatchDelete _ _ _) as [[n err] m2]. simpl in Hd. by subst err. }
  subst st'. unfold TaskIter.tick. fold r. rewrite E. simpl. done.
Qed.

(** monitor runs every tick from the state the ticks before it left,
    whether or not they returned an error. *)
Lemma monitor_snoc cfg process_map first ticks e :
  TaskIter.monitor cfg process_map first (ticks ++ [e])
  = TaskIter.tick cfg TaskIter.LogErrorCollecting
      (TaskIter.monitor cfg process_map first ticks) e.
Proof. unfold TaskIter.monitor. by rewrite fold_left_app. Qed.

Lemma clear_failure_by_variant_witness :
  let e := Examples.clear_env (Some "operation not permitted"%string) in
  let st' := TaskIter.tick Examples.cfg100 TaskIter.LogErrorCollecting Examples.loop0 e in
  let ir := TaskIterInline.collectAndPrintCPUData
              (Examples.inline_env (Some "can't marshal key"%string))
              Examples.inline_stored 0 100 in
  TaskIter.processData st' = Examples.one_stored /\
  TaskIter.written st'
  = [TaskIter.LogErrorCollecting (TaskIter.ErrBatchDelete "operation not permitted")] /\
  TaskIterInline.ret ir = None /\
  exists row,
    TaskIterInline.output ir
    = [TaskIterInline.WarningFailedToClear "can't marshal key";
       TaskIterInline.Printed [row]].
Proof.
  pose proof (clear_failure_by_variant Examples.cfg100 Examples.loop0
                (Examples.clear_env (Some "operation not permitted"%string))
                _ _ _ "operation not permitted"%string
                (Examples.inline_env (Some "can't marshal key"%string))
                Examples.inline_stored 0 100 "can't marshal key"%string
                eq_refl eq_refl eq_refl
                (fun m H => eq_ind TaskIter.ReadEOF
                              (fun x => match x with TaskIter.ReadError _ => False | _ => True end)
                              I _ H)
                eq_refl eq_refl) as H.
  cbv zeta in *.
  destruct H as ((_ & _ & _ & Hpd & Hw) & (Hret & _ & Hout & _)).
  split; [exact Hpd|]. split; [exact Hw|]. split; [exact Hret|].
  eexists. rewrite Hout. vm_compute. reflexivity.
Defined.

(** ** The delta of a pid seen before *)

Lemma uint64_sub_wraps (new old : Z) :
  0 <= new < uint64_mod -> 0 <= old < uint64_mod -> new < old ->
  (new - old) `mod` uint64_mod = new - old + uint64_mod.
Proof.
  intros Hn Ho Hlt. symmetry.
  apply (Z.mod_unique_pos _ _ (-1)); lia.
Qed.

Lemma inline_usage_step_delta clkTck acc processData pid current :
  exists u,
    (TaskIterInline.usage_step clkTck (acc, processData) (pid, current)).1 = acc ++ [u] /\
    TaskIterInline.ProcessUsage.PID u = pid /\
    TaskIterInline.ProcessUsage.CPUDelta u
    = match processData !! pid with
      | Some prev =>
          F64.div (F64.of_Z ((TaskIterInline.ProcessData.CPUTime current
                              - TaskIterInline.ProcessData.LastTime prev) `mod` uint64_mod))
                  (F64.of_Z clkTck)
      | None => F64.zero
      end.
Proof.
  simpl. eexists. split; [reflexivity|]. by destruct (processData !! pid).
Qed.

(** C9: the delta is the uint64 difference of the two counters divided by
    clkTck, both converted to float64. When the new cumulative time is
    below the stored one the difference wraps to new - old + 2^64, which
    lies between 2^64 - old and 2^64; and for a positive clkTck the delta
    is never below zero, with or without a stored sample. The earlier main
    computes the same. *)
Theorem delta_is_unchecked_uint64_subtraction processData clkTck pid current
    inlineData inlineCurrent acc :
  0 < clkTck ->
  let u := TaskIter.usage_of processData clkTck pid current in
  F64.ltb (TaskIter.ProcessUsage.CPUDelta u) F64.zero = false /\
  (forall prev,
     processData !! pid = Some prev ->
     0 <= TaskIter.ProcessData.CPUTime current < uint64_mod ->
     0 <= TaskIter.ProcessData.LastTime prev < uint64_mod ->
     TaskIter.ProcessData.CPUTime current < TaskIter.ProcessData.LastTime prev ->
     let wrapped :=
       TaskIter.ProcessData.CPUTime current - TaskIter.ProcessData.LastTime prev + uint64_mod in
     uint64_mod - TaskIter.ProcessData.LastTime prev <= wrapped < uint64_mod /\
     0 < wrapped /\
     TaskIter.ProcessUsage.CPUDelta u = F64.div (F64.of_Z wrapped) (F64.of_Z clkTck)) /\
  (forall prev,
     inlineData !! pid = Some prev ->
     0 <= TaskIterInline.ProcessData.CPUTime inlineCurrent < uint64_mod ->
     0 <= TaskIterInline.ProcessData.LastTime prev < uint64_mod ->
     TaskIterInline.ProcessData.CPUTime inlineCurrent
       < TaskIterInline.ProcessData.LastTime prev ->
     exists iu,
       (TaskIterInline.usage_step clkTck (acc, inlineData) (pid, inlineCurrent)).1
       = acc ++ [iu] /\
       TaskIterInline.ProcessUsage.CPUDelta iu
       = F64.div (F64.of_Z (TaskIterInline.ProcessData.CPUTime inlineCurrent
                            - TaskIterInline.ProcessData.LastTime prev + uint64_mod))
                 (F64.of_Z clkTck) /\
       F64.ltb (TaskIterInline.ProcessUsage.CPUDelta iu) F64.zero = false).
Proof.
  intros Hc u. split; [by apply usage_of_delta_not_negative|]. split.
  - intros prev Hprev Hn Ho Hlt wrapped.
    split; [subst wrapped; lia|]. split; [subst wrapped; lia|].
    subst u wrapped. rewrite usage_of_delta_cases, Hprev.
    by rewrite uint64_sub_wraps.
  - intros prev Hprev Hn Ho Hlt.
    destruct (inline_usage_step_delta clkTck acc inlineData pid inlineCurrent)
      as (iu & Hstep & _ & Hd).
    rewrite Hprev, uint64_sub_wraps in Hd by done.
    exists iu. split; [exact Hstep|]. split; [exact Hd|].
    rewrite Hd. apply F64Facts.signbit_not_neg, F64Facts.div_shape;
      apply F64Facts.of_Z_signbit; lia.
Qed.

(** Pid 1 is stored with 100 ticks and comes back with 40: the delta is
    (2^64 - 60)/100 seconds, above 10^17. *)
Lemma delta_is_unchecked_uint64_subtraction_witness :
  let stored : gmap Z TaskIter.ProcessData.t := {[ 1 := Examples.pd 1 100 100 ]} in
  let u := TaskIter.usage_of stored 100 1 (Examples.pd 1 40 0) in
  TaskIter.ProcessUsage.CPUDelta u = F64.div (F64.of_Z (2 ^ 64 - 60)) (F64.of_Z 100) /\
  F64.gtb (TaskIter.ProcessUsage.CPUDelta u) (F64.of_Z (10 ^ 17)) = true /\
  F64.ltb (TaskIter.ProcessUsage.CPUDelta u) F64.zero = false.
Proof.
  pose proof (delta_is_unchecked_uint64_subtraction
                {[ 1 := Examples.pd 1 100 100 ]} 100 1 (Examples.pd 1 40 0)
                ∅ (TaskIterInline.ProcessData.mk 1 40 0) []) as H.
  cbv zeta in *.
  destruct H as (Hnn & Hwrap & _); [lia|].
  destruct (Hwrap (Examples.pd 1 100 100)) as (_ & _ & Hd).
  - reflexivity.
  - simpl; unfold uint64_mod; lia.
  - simpl; unfold uint64_mod; lia.
  - simpl; lia.
  - split; [exact Hd|]. split; [vm_compute; reflexivity | exact Hnn].
Defined.

(** ** package isolated *)

Section IsolatedFacts.
Import Isolated.

Lemma wf_initial : wf initial.
Proof.
  split; simpl.
  - intros cpu t H. by rewrite lookup_empty in H.
  - intros cpu t cpu' t' H. by rewrite lookup_empty in H.
  - intros pid cpu H. by rewrite lookup_empty in H.
  - intros l m k v H. by rewrite lookup_nil in H.
Qed.

Lemma wf_Init_one st cpu : wf st -> wf (Init_one st cpu).
Proof.
  intros [Ht Ha Hc Hk]. unfold Init_one, make_map. simpl.
  rewrite length_app. simpl.
  split; simpl.
  - intros cpu' t. rewrite lookup_insert. case_decide as E.
    + intros [= <-]. simpl. eexists _, _. split; [reflexivity|]. split; [reflexivity|].
      rewrite !length_app. simpl. split; [lia|].
      rewrite lookup_app_r by (rewrite length_app; simpl; lia).
      rewrite length_app. simpl.
      by replace (length (heap st) + 1 - (length (heap st) + 1))%nat with 0%nat by lia.
    + intros H. destruct (Ht _ _ H) as (c & p & Hcur & Hprev & Hlt & Hp).
      exists c, p. split; [done|]. split; [done|].
      rewrite !length_app. simpl. split; [lia|].
      apply lookup_lt_Some in Hp as Hplt.
      rewrite <- app_assoc. by rewrite lookup_app_l.
  - intros c1 t1 c2 t2. rewrite !lookup_insert.
    case_decide as E1; case_decide as E2; intros H1 H2; simplify_eq/=.
    + intros [=]. lia.
    + destruct (Ht _ _ H2) as (c & p & _ & Hprev & _ & Hp).
      apply lookup_lt_Some in Hp. rewrite Hprev. intros [=]. lia.
    + destruct (Ht _ _ H1) as (c & p & Hcur & _ & Hlt & _).
      rewrite Hcur. intros [=]. lia.
    + by eapply Ha.
  - intros pid cpu' H. rewrite lookup_insert. case_decide; [eauto|]. by eapply Hc.
  - intros l m k v Hl Hm.
    rewrite <- app_assoc in Hl. apply lookup_app_Some in Hl as [Hl|[_ Hl]]; [by eapply Hk|].
    destruct (l - length (heap st))%nat as [|[|n]]; simplify_eq/=;
      by rewrite lookup_empty in Hm.
Qed.

Lemma wf_Init isolated st : wf st -> wf (Init isolated st).
Proof.
  unfold Init. revert st.
  induction isolated as [|cpu l IH]; intros st H; simpl; [done|].
  by apply IH, wf_Init_one.
Qed.

Lemma wf_Track cpu proc st st' : wf st -> Track cpu proc st = Some st' -> wf st'.
Proof.
  intros [Ht Ha Hc Hk]. unfold Track.
  destruct (procs st !! cpu) as [t|] eqn:E; simpl; [|discriminate].
  destruct (Ht _ _ E) as (c & p & Hcur & Hprev & Hlt & Hp).
  rewrite Hcur. simpl. intros [= <-].
  split; simpl.
  - intros cpu' t' H. destruct (Ht _ _ H) as (c' & p' & Hcur' & Hprev' & Hlt' & Hp').
    exists c', p'. split; [done|]. split; [done|].
    rewrite length_alter. split; [done|].
    rewrite list_lookup_alter_ne; [done|].
    intros ->. apply (Ha _ _ _ _ E H). by rewrite Hcur, Hprev'.
  - done.
  - intros pid cpu' H. rewrite lookup_insert in H. case_decide; [|by eapply Hc].
    simplify_eq. eauto.
  - intros l m k v Hl Hm.
    rewrite list_lookup_alter in Hl. case_decide as El; [|by eapply Hk].
    subst l. destruct (heap st !! c) as [m0|] eqn:E0; simplify_eq/=.
    rewrite lookup_insert in Hm. case_decide; simplify_eq; [done|]. by eapply Hk.
Qed.

Lemma wf_RemoveTracking pid st : wf st -> wf (RemoveTracking pid st).
Proof.
  intros [Ht Ha Hc Hk]. unfold RemoveTracking.
  set (cpu := default 0 (cpus st !! pid)).
  split; simpl.
  - intros cpu' t' H. destruct (Ht _ _ H) as (c' & p' & Hcur' & Hprev' & Hlt' & Hp').
    exists c', p'. split; [done|]. split; [done|].
    destruct (procs st !! cpu) as [t|] eqn:E; simpl; [|done].
    destruct (currentProcs t) as [c|] eqn:Hcur; simpl; [|done].
    rewrite length_alter. split; [done|].
    rewrite list_lookup_alter_ne; [done|].
    intros ->. apply (Ha _ _ _ _ E H). by rewrite Hcur, Hprev'.
  - done.
  - intros pid' cpu' H. apply lookup_delete_Some in H as [_ H]. by eapply Hc.
  - intros l m k v Hl Hm.
    destruct (procs st !! cpu) as [t|] eqn:E; simpl in Hl; [|by eapply Hk].
    destruct (currentProcs t) as [c|] eqn:Hcur; simpl in Hl; [|by eapply Hk].
    rewrite list_lookup_alter in Hl. case_decide as El; [|by eapply Hk].
    subst l. destruct (heap st !! c) as [m0|] eqn:E0; simplify_eq/=.
    apply lookup_delete_Some in Hm as [_ Hm]. by eapply Hk.
Qed.

(** ActiveProcs changes neither [procs] nor [cpus], and no map that
    existed before the call. *)
Lemma ActiveProcs_state cpu st :
  procs (ActiveProcs cpu st).2 = procs st /\
  cpus (ActiveProcs cpu st).2 = cpus st /\
  exists garbage, heap (ActiveProcs cpu st).2 = heap st ++ garbage /\
                  Forall (fun m => m = ∅) garbage.
Proof.
  unfold ActiveProcs.
  destruct (negb _); simpl.
  - split; [done|]. split; [done|]. exists [∅]. split; [done|]. by repeat constructor.
  - split; [done|]. split; [done|]. exists []. split; [by rewrite app_nil_r|]. constructor.
Qed.

Lemma wf_ActiveProcs cpu st : wf st -> wf (ActiveProcs cpu st).2.
Proof.
  intros [Ht Ha Hc Hk].
  destruct (ActiveProcs_state cpu st) as (Hp & Hcp & garbage & Hh & Hg).
  split; rewrite ?Hp, ?Hcp, ?Hh; try done.
  - intros cpu' t' H. destruct (Ht _ _ H) as (c' & p' & Hcur' & Hprev' & Hlt' & Hp').
    exists c', p'. split; [done|]. split; [done|].
    rewrite length_app. split; [lia|].
    apply lookup_lt_Some in Hp' as Hlt. by rewrite lookup_app_l.
  - intros l m k v Hl Hm.
    apply lookup_app_Some in Hl as [Hl|[_ Hl]]; [by eapply Hk|].
    apply list_elem_of_lookup_2 in Hl. rewrite Forall_forall in Hg.
    rewrite (Hg _ Hl) in Hm. by rewrite lookup_empty in Hm.
Qed.

Lemma wf_step st c st' : wf st -> step st c = Some st' -> wf st'.
Proof.
  intros Hwf. destruct c; simpl; intros H; simplify_eq/=.
  - by apply wf_Init.
  - by eapply wf_Track.
  - by apply wf_RemoveTracking.
  - by apply wf_ActiveProcs.
Qed.

Lemma wf_run cs : forall st st', wf st -> run st cs = Some st' -> wf st'.
Proof.
  induction cs as [|c cs IH]; intros st st' Hwf; simpl.
  - by intros [= <-].
  - destruct (step st c) as [st1|] eqn:E; simpl; [|discriminate].
    apply IH. by eapply wf_step.
Qed.

Lemma reachable_wf st : reachable st -> wf st.
Proof. intros [cs H]. eapply wf_run; [apply wf_initial | exact H]. Qed.

End IsolatedFacts.


Lemma Values_elem_of (m : gmap Z Isolated.ActiveProc) (a : Isolated.ActiveProc) :
  a ∈ Isolated.Values m <-> exists k, m !! k = Some a.
Proof.
  unfold Isolated.Values. rewrite list_elem_of_fmap. split.
  - intros ([k v] & -> & H). exists k. by apply elem_of_map_to_list.
  - intros (k & H). exists (k, a). split; [done|]. by apply elem_of_map_to_list.
Qed.

(** When the current generation is empty the answer is the stored
    previous generation and the state is left as it was. *)
Lemma ActiveProcs_no_activity cpu st t :
  Isolated.procs st !! cpu = Some t ->
  Isolated.deref (Isolated.heap st) (Isolated.currentProcs t) = ∅ ->
  Isolated.ActiveProcs cpu st
  = (Isolated.Values (Isolated.deref (Isolated.heap st) (Isolated.previousProcs t)), st).
Proof.
  intros Ht He. unfold Isolated.ActiveProcs. rewrite Ht. simpl. rewrite He.
  by rewrite map_size_empty.
Qed.

(** When the current generation is not empty the answer is its values;
    the tracker stored for the cpu is the one stored before. *)
Lemma ActiveProcs_activity cpu st t :
  Isolated.wf st ->
  Isolated.procs st !! cpu = Some t ->
  Isolated.deref (Isolated.heap st) (Isolated.currentProcs t) <> ∅ ->
  (Isolated.ActiveProcs cpu st).1
  = Isolated.Values (Isolated.deref (Isolated.heap st) (Isolated.currentProcs t)) /\
  Isolated.procs (Isolated.ActiveProcs cpu st).2 !! cpu = Some t /\
  Isolated.deref (Isolated.heap (Isolated.ActiveProcs cpu st).2) (Isolated.currentProcs t)
  = Isolated.deref (Isolated.heap st) (Isolated.currentProcs t) /\
  Isolated.deref (Isolated.heap (Isolated.ActiveProcs cpu st).2) (Isolated.previousProcs t)
  = ∅.
Proof.
  intros Hwf Ht Hne.
  destruct (Isolated.wf_tracker st Hwf _ _ Ht) as (c & p & Hc & Hp & Hlt & Hpe).
  apply lookup_lt_Some in Hpe as Hplt.
  unfold Isolated.ActiveProcs. rewrite Ht. simpl.
  apply map_size_non_empty_iff in Hne.
  destruct (size _ =? 0)%nat eqn:E; [apply Nat.eqb_eq in E; done|]. simpl.
  rewrite Hc, Hp. simpl.
  rewrite !lookup_app_l by done. by rewrite Hpe.
Qed.

(** C1, at the failing input. After Init({0}) and Track(0, pid 5) the call
    ActiveProcs(0) answers [pid 5], and the tracker stored for cpu 0 is
    what it was before the call: its current generation still holds pid 5
    and its previous generation is still empty. The swap was made on the
    local copy of the struct. It shows at the next tick: after
    Track(0, pid 6) the call ActiveProcs(0) answers pids 5 and 6, not the
    one record tracked since the last call. *)
Theorem ActiveProcs_swap_is_not_stored :
  let p5 := Isolated.mkActiveProc 5 0 [] in
  let p6 := Isolated.mkActiveProc 6 0 [] in
  exists st2 t st4,
    Isolated.Track 0 p5 (Isolated.Init [0] Isolated.initial) = Some st2 /\
    (Isolated.ActiveProcs 0 st2).1 = [p5] /\
    Isolated.procs (Isolated.ActiveProcs 0 st2).2 !! 0 = Some t /\
    Isolated.procs st2 !! 0 = Some t /\
    Isolated.deref (Isolated.heap (Isolated.ActiveProcs 0 st2).2) (Isolated.currentProcs t)
    = {[ 5 := p5 ]} /\
    Isolated.deref (Isolated.heap (Isolated.ActiveProcs 0 st2).2) (Isolated.previousProcs t)
    = ∅ /\
    Isolated.Track 0 p6 (Isolated.ActiveProcs 0 st2).2 = Some st4 /\
    (Isolated.ActiveProcs 0 st4).1 ≡ₚ [p5; p6].
Proof.
  cbv zeta. eexists _, _, _. split; [reflexivity|].
  split; [vm_compute; reflexivity|].
  split; [vm_compute; reflexivity|].
  split; [vm_compute; reflexivity|].
  split; [vm_compute; reflexivity|].
  split; [vm_compute; reflexivity|].
  split; [reflexivity|].
  by_computation.
Qed.

(** C2: RemoveTracking(pid) clears the pid-to-cpu association, and in
    every state that calls can lead to, neither generation map of the cpu
    that [cpus] gave for the pid holds the pid afterwards, so no later
    ActiveProcs on that cpu reports it until it is tracked again; the
    other entries of those maps stay. After Init({0}), Track(0, pid 5),
    ActiveProcs(0), RemoveTracking(5), the next ActiveProcs(0) is empty. *)
Theorem RemoveTracking_evicts st pid cpu :
  Isolated.reachable st ->
  Isolated.cpus st !! pid = Some cpu ->
  let st' := Isolated.RemoveTracking pid st in
  Isolated.cpus st' !! pid = None /\
  (exists t,
     Isolated.procs st !! cpu = Some t /\
     Isolated.procs st' !! cpu = Some t /\
     Isolated.deref (Isolated.heap st') (Isolated.currentProcs t) !! pid = None /\
     Isolated.deref (Isolated.heap st') (Isolated.previousProcs t) !! pid = None /\
     (forall pid', pid' <> pid ->
        Isolated.deref (Isolated.heap st') (Isolated.currentProcs t) !! pid'
        = Isolated.deref (Isolated.heap st) (Isolated.currentProcs t) !! pid' /\
        Isolated.deref (Isolated.heap st') (Isolated.previousProcs t) !! pid'
        = Isolated.deref (Isolated.heap st) (Isolated.previousProcs t) !! pid')) /\
  (forall a, a ∈ (Isolated.ActiveProcs cpu st').1 -> Isolated.Pid a <> pid) /\
  (exists st2,
     Isolated.Track 0 (Isolated.mkActiveProc 5 0 []) (Isolated.Init [0] Isolated.initial)
     = Some st2 /\
     (Isolated.ActiveProcs 0 st2).1 = [Isolated.mkActiveProc 5 0 []] /\
     (Isolated.ActiveProcs 0
        (Isolated.RemoveTracking 5 (Isolated.ActiveProcs 0 st2).2)).1 = []).
Proof.
  intros Hr Hcpu st'.
  pose proof (reachable_wf st Hr) as Hwf.
  pose proof (wf_RemoveTracking pid st Hwf) as Hwf'. fold st' in Hwf'.
  destruct (Isolated.wf_cpus st Hwf _ _ Hcpu) as [t Ht].
  destruct (Isolated.wf_tracker st Hwf _ _ Ht) as (c & p & Hc & Hp & Hlt & Hpe).
  assert (Hcp : c <> p).
  { intros ->. apply (Isolated.wf_apart st Hwf _ _ _ _ Ht Ht). by rewrite Hc, Hp. }
  assert (Hheap : Isolated.heap st' = alter (delete pid) c (Isolated.heap st)).
  { subst st'. unfold Isolated.RemoveTracking. rewrite Hcpu. simpl. rewrite Ht. simpl.
    by rewrite Hc. }
  assert (Hcur : Isolated.deref (Isolated.heap st') (Isolated.currentProcs t)
                 = delete pid (Isolated.deref (Isolated.heap st) (Isolated.currentProcs t))).
  { rewrite Hheap, Hc. simpl. rewrite list_lookup_alter_eq.
    destruct (Isolated.heap st !! c); simpl; [done|]. by rewrite delete_empty. }
  assert (Hprev : Isolated.deref (Isolated.heap st') (Isolated.previousProcs t) = ∅).
  { rewrite Hheap, Hp. simpl. rewrite list_lookup_alter_ne by done. by rewrite Hpe. }
  assert (Hprev0 : Isolated.deref (Isolated.heap st) (Isolated.previousProcs t) = ∅).
  { rewrite Hp. simpl. by rewrite Hpe. }
  assert (Ht' : Isolated.procs st' !! cpu = Some t) by done.
  assert (Hgone : Isolated.cpus st' !! pid = None) by (subst st'; simpl; apply lookup_delete_eq).
  clearbody st'.
  split; [done|].
  split.
  { exists t. split; [done|]. split; [done|].
    split; [rewrite Hcur; apply lookup_delete_eq|].
    split; [rewrite Hprev; apply lookup_empty|].
    intros pid' Hne. split; [rewrite Hcur; by apply lookup_delete_ne|].
    by rewrite Hprev, Hprev0. }
  split.
  { intros a Ha Hpid.
    unfold Isolated.ActiveProcs in Ha. rewrite Ht' in Ha. simpl in Ha.
    assert (Hin : exists r k, (r = Isolated.currentProcs t \/ r = Isolated.previousProcs t) /\
                  Isolated.deref (Isolated.heap st') r !! k = Some a).
    { destruct (negb _); simpl in Ha.
      - rewrite Hc in Ha. simpl in Ha.
        rewrite lookup_app_l in Ha by (rewrite Hheap, length_alter; done).
        apply Values_elem_of in Ha as [k Hk].
        exists (Some c), k. split; [left; done|]. done.
      - apply Values_elem_of in Ha as [k Hk]. eauto. }
    destruct Hin as (r & k & Hr' & Hk).
    assert (k = pid) as ->.
    { destruct r as [l|]; simpl in Hk; [|by rewrite lookup_empty in Hk].
      destruct (Isolated.heap st' !! l) as [m|] eqn:El; simpl in Hk;
        [|by rewrite lookup_empty in Hk].
      rewrite <- Hpid. symmetry. by eapply (Isolated.wf_keys st' Hwf'). }
    destruct Hr' as [-> | ->].
    - rewrite Hcur, lookup_delete_eq in Hk. done.
    - rewrite Hprev, lookup_empty in Hk. done. }
  eexists. split; [reflexivity|]. split; vm_compute; reflexivity.
Qed.

Lemma RemoveTracking_evicts_witness :
  exists st3,
    Isolated.run Isolated.initial
      [Isolated.CallInit [0];
       Isolated.CallTrack 0 (Isolated.mkActiveProc 5 0 []);
       Isolated.CallActiveProcs 0] = Some st3 /\
    Isolated.cpus st3 !! 5 = Some 0 /\
    Isolated.cpus (Isolated.RemoveTracking 5 st3) !! 5 = None /\
    forall a, a ∈ (Isolated.ActiveProcs 0 (Isolated.RemoveTracking 5 st3)).1 ->
              Isolated.Pid a <> 5.
Proof.
  eexists. split; [reflexivity|].
  match goal with
  | |- Isolated.cpus ?s !! 5 = Some 0 /\ _ =>
      pose proof (RemoveTracking_evicts s 5 0
                    (ex_intro _ [Isolated.CallInit [0];
                                 Isolated.CallTrack 0 (Isolated.mkActiveProc 5 0 []);
                                 Isolated.CallActiveProcs 0] eq_refl)) as H
  end.
  split; [vm_compute; reflexivity|].
  cbv zeta in H. destruct H as (Hc & _ & Ha & _); [vm_compute; reflexivity|].
  split; [exact Hc | exact Ha].
Defined.

(** ** package ebpf *)

Lemma fill_front_fits {A} (xs : list A) (x : A) (n : nat) :
  (length xs <= n)%nat ->
  take (length xs) (Ebpf.fill_front xs (replicate n x)) = xs /\
  length (Ebpf.fill_front xs (replicate n x)) = n.
Proof.
  intros Hle. unfold Ebpf.fill_front. rewrite length_replicate.
  rewrite (take_ge xs n) by done. split.
  - by rewrite take_app_length.
  - rewrite length_app, length_drop, length_replicate. lia.
Qed.

(** A drain that the kernel serves in one batch returns the keys of that
    batch. *)
Lemma GetActiveProcPids_single_batch (maxEntries : nat)
    (rows : list (Z * Ebpf.keplerActiveProc)) :
  (length rows <= maxEntries)%nat ->
  Ebpf.GetActiveProcPids maxEntries [Ebpf.mkResponse rows Ebpf.NoMore] = Ok rows.*1.
Proof.
  intros Hle. unfold Ebpf.GetActiveProcPids. simpl.
  destruct (fill_front_fits rows.*1 0 maxEntries) as [Ht Hl];
    [by rewrite length_fmap|].
  unfold Ebpf.slice_to. rewrite Hl.
  rewrite length_fmap in Ht.
  destruct (Nat.leb_spec (length rows) maxEntries); [|lia].
  by rewrite Ht.
Qed.

(** With two batches the first slot of the result is the first key of the
    second batch: the first key of the first batch is no longer there. *)
Lemma second_batch_overwrites_first (maxEntries : nat)
    (row1 row2 : Z * Ebpf.keplerActiveProc) (rows1 rows2 : list (Z * Ebpf.keplerActiveProc)) :
  (length (row1 :: rows1) + length (row2 :: rows2) <= maxEntries)%nat ->
  exists rest,
    Ebpf.GetActiveProcPids maxEntries
      [Ebpf.mkResponse (row1 :: rows1) Ebpf.More;
       Ebpf.mkResponse (row2 :: rows2) Ebpf.NoMore]
    = Ok (row2.1 :: rest) /\
    length (row2.1 :: rest) = (length (row1 :: rows1) + length (row2 :: rows2))%nat.
Proof.
  intros Hle. unfold Ebpf.GetActiveProcPids.
  cbn [Ebpf.lookupLoop Ebpf.BatchLookupAndDelete Ebpf.stat Ebpf.delivered].
  set (keys1 := Ebpf.fill_front _ (replicate maxEntries 0)).
  assert (Hl1 : length keys1 = maxEntries).
  { subst keys1. unfold Ebpf.fill_front.
    rewrite length_app, length_take, length_drop, !length_replicate, length_fmap.
    simpl in *. lia. }
  set (keys2 := Ebpf.fill_front _ keys1).
  assert (Hl2 : length keys2 = maxEntries).
  { subst keys2. unfold Ebpf.fill_front.
    rewrite length_app, length_take, length_drop, Hl1, length_fmap.
    simpl in *. lia. }
  assert (Hhd : exists tl, keys2 = row2.1 :: tl).
  { subst keys2. unfold Ebpf.fill_front. rewrite Hl1.
    destruct maxEntries as [|n]; [simpl in Hle; lia|]. simpl. eauto. }
  destruct Hhd as [tl Htl].
  unfold Ebpf.slice_to. rewrite Hl2.
  destruct (Nat.leb_spec (0 + length (row1 :: rows1) + length (row2 :: rows2)) maxEntries);
    [|lia].
  exists (take (length rows1 + length (row2 :: rows2)) tl).
  rewrite Htl. simpl. split; [reflexivity|].
  rewrite length_take. rewrite Htl in Hl2. simpl in *. lia.
Qed.

(** C3, at the failing input. The kernel stops the first call after one
    row (pid 1) and ends the table with the second call (pids 2 and 3), on
    a table of two entries: both drains add the counts up to 3 and panic
    slicing a buffer of capacity 2. With room to spare (capacity 4,
    batches [1,2] and [3]) the drain returns [3,2,0]: the second batch
    was written over the first, pid 1 is lost and a zero key is
    reported. *)
Theorem drain_batches_share_the_buffer_front :
  let row pid := (pid, Ebpf.mkKeplerActiveProc pid 0 (replicate 16 0)) in
  let short := [Ebpf.mkResponse [row 1] Ebpf.More;
                Ebpf.mkResponse [row 2; row 3] Ebpf.NoMore] in
  let roomy := [Ebpf.mkResponse [row 1; row 2] Ebpf.More;
                Ebpf.mkResponse [row 3] Ebpf.NoMore] in
  Ebpf.GetActiveProcPids 2 short = Panic /\
  Ebpf.GetActiveProcs 2 short = Panic /\
  Ebpf.GetActiveProcPids 4 roomy = Ok [3; 2; 0] /\
  Ebpf.GetActiveProcs 4 roomy
  = Ok [Ebpf.ActiveProc.mk 3 []; Ebpf.ActiveProc.mk 2 []; Ebpf.ActiveProc.mk 0 []].
Proof. cbv zeta. repeat split; vm_compute; reflexivity. Qed.

(** ** hybrid/main.go *)

(** A tick that the guard rejects leaves no trace. *)
Lemma loop_skips oldTs newTs maxEntries script unreadable rs :
  Hybrid.too_soon oldTs newTs = true ->
  Hybrid.loop oldTs (Hybrid.Tick newTs maxEntries script unreadable :: rs)
  = Hybrid.loop oldTs rs.
Proof. intros H. simpl. by rewrite H. Qed.

(** A tick that the guard lets through runs the drain and logs its
    report, and the next tick is again measured from the same [oldTs]. *)
Lemma loop_processes oldTs newTs maxEntries script unreadable rs logs :
  Hybrid.too_soon oldTs newTs = false ->
  Hybrid.tick_body newTs maxEntries script unreadable = Some logs ->
  Hybrid.loop oldTs (Hybrid.Tick newTs maxEntries script unreadable :: rs)
  = logs ++ Hybrid.loop oldTs rs.
Proof. intros H1 H2. simpl. by rewrite H1, H2. Qed.

(** C8, at the failing input. The loop interval is 50 ms and oldTs is read
    1 microsecond after the ticker was made (time 0 here), so the ticks
    are stamped 49.999 ms, 99.999 ms, 149.999 ms and 199.999 ms. The first
    two are skipped and the third is processed. The fourth comes 0.05 s
    after the third (the guard would reject it if measured from there) and
    is processed all the same: the drain runs and the report is logged. *)
Theorem tick_is_measured_from_loop_start :
  let us := 1000 in
  let t1 := 49999 * us in
  let t2 := 99999 * us in
  let t3 := 149999 * us in
  let t4 := 199999 * us in
  let script := [Ebpf.mkResponse [(7, Ebpf.mkKeplerActiveProc 7 0 (replicate 16 0))]
                                 Ebpf.NoMore] in
  Hybrid.too_soon 0 t1 = true /\
  Hybrid.too_soon 0 t2 = true /\
  Hybrid.too_soon 0 t3 = false /\
  Hybrid.too_soon t3 t4 = true /\
  Hybrid.too_soon 0 t4 = false /\
  Hybrid.run 0 [Hybrid.Tick t1 Ebpf.active_procs_max_entries script [];
                Hybrid.Tick t2 Ebpf.active_procs_max_entries script [];
                Hybrid.Tick t3 Ebpf.active_procs_max_entries script [];
                Hybrid.Tick t4 Ebpf.active_procs_max_entries script [];
                Hybrid.Done]
  = [Hybrid.InfoStartingLoop;
     Hybrid.InfoActiveProcs t3 1;
     Hybrid.InfoActiveProcs t4 1;
     Hybrid.InfoLoopFinished].
Proof. cbv zeta. repeat split; vm_compute; reflexivity. Qed.

(* ===================================================================== *)
(** * Further properties *)
(* ===================================================================== *)

(** ** strconv and strings *)

Section GoStringsFacts.
Import GoStrings.

Lemma is_digit_bounds c : is_digit c = true <-> 48 <= c <= 57.
Proof. unfold is_digit. rewrite andb_true_iff, !Z.leb_le. tauto. Qed.

Lemma decimal_from_mono s n :
  forallb is_digit s = true -> 0 <= n -> n <= decimal_from s n.
Proof.
  revert n. induction s as [|c s IH]; intros n Hd Hn; simpl in *; [lia|].
  apply andb_true_iff in Hd as [Hc Hs]. apply is_digit_bounds in Hc.
  specialize (IH (10 * n + (c - 48)) Hs ltac:(lia)). unfold decimal_from in *. lia.
Qed.

Lemma cutoff10_value : cutoff10 = 1844674407370955162.
Proof. reflexivity. Qed.

(** On digits whose value fits, the loop of ParseUint returns the value. *)
Lemma parse_digits_value maxVal s n :
  forallb is_digit s = true -> 0 <= n ->
  decimal_from s n <= maxVal -> maxVal < uint64_mod ->
  parse_digits maxVal s n = (decimal_from s n, None).
Proof.
  revert n. induction s as [|c s IH]; intros n Hd Hn Hv Hm; simpl in *; [done|].
  apply andb_true_iff in Hd as [Hc Hs].
  change ((48 <=? c) && (c <=? 57)) with (is_digit c). rewrite Hc.
  apply is_digit_bounds in Hc.
  pose proof (decimal_from_mono s (10 * n + (c - 48)) Hs ltac:(lia)) as Hmono.
  unfold decimal_from in *. unfold uint64_mod in *.
  rewrite cutoff10_value.
  destruct (Z.leb_spec 1844674407370955162 n); [lia|].
  rewrite (Z.mod_small (n * 10)) by lia.
  rewrite (Z.mod_small (n * 10 + (c - 48))) by lia.
  destruct (Z.ltb_spec (n * 10 + (c - 48)) (n * 10)); [lia|].
  destruct (Z.ltb_spec maxVal (n * 10 + (c - 48))); [lia|]. simpl.
  replace (n * 10 + (c - 48)) with (10 * n + (c - 48)) by lia.
  apply IH; [done | lia | done | done].
Qed.

(** On digits whose value does not fit, it reports a range error. *)
Lemma parse_digits_range maxVal s n :
  forallb is_digit s = true -> 0 <= n <= maxVal ->
  maxVal < decimal_from s n -> maxVal < uint64_mod ->
  parse_digits maxVal s n = (maxVal, Some ErrRange).
Proof.
  revert n. induction s as [|c s IH]; intros n Hd Hn Hv Hm; simpl in *.
  - unfold decimal_from in Hv. simpl in Hv. lia.
  - apply andb_true_iff in Hd as [Hc Hs].
  change ((48 <=? c) && (c <=? 57)) with (is_digit c). rewrite Hc.
    apply is_digit_bounds in Hc.
    unfold decimal_from in *. simpl in Hv. unfold uint64_mod in *.
    rewrite cutoff10_value.
    destruct (Z.leb_spec 1844674407370955162 n); [done|].
    rewrite (Z.mod_small (n * 10)) by lia.
    destruct (Z.lt_ge_cases (n * 10 + (c - 48)) (2 ^ 64)) as [Hsmall|Hbig].
    + rewrite (Z.mod_small (n * 10 + (c - 48))) by lia.
      destruct (Z.ltb_spec (n * 10 + (c - 48)) (n * 10)); [done|].
      destruct (Z.ltb_spec maxVal (n * 10 + (c - 48))); [done|]. simpl.
      apply IH; [done | lia | | done].
      by replace (n * 10 + (c - 48)) with (10 * n + (c - 48)) by lia.
    + assert (E : (n * 10 + (c - 48)) `mod` 2 ^ 64 = n * 10 + (c - 48) - 2 ^ 64).
      { symmetry. apply (Z.mod_unique_pos _ _ 1); lia. }
      rewrite E.
      destruct (Z.ltb_spec (n * 10 + (c - 48) - 2 ^ 64) (n * 10)); [done|lia].
Qed.

Lemma parse_digits_app maxVal s1 s2 n :
  forallb is_digit s1 = true -> 0 <= n ->
  decimal_from s1 n <= maxVal -> maxVal < uint64_mod ->
  parse_digits maxVal (s1 ++ s2) n = parse_digits maxVal s2 (decimal_from s1 n).
Proof.
  revert n. induction s1 as [|c s IH]; intros n Hd Hn Hv Hm; simpl in *; [done|].
  apply andb_true_iff in Hd as [Hc Hs].
  change ((48 <=? c) && (c <=? 57)) with (is_digit c). rewrite Hc.
  apply is_digit_bounds in Hc.
  pose proof (decimal_from_mono s (10 * n + (c - 48)) Hs ltac:(lia)) as Hmono.
  unfold decimal_from in *. unfold uint64_mod in *.
  rewrite cutoff10_value.
  destruct (Z.leb_spec 1844674407370955162 n); [lia|].
  rewrite (Z.mod_small (n * 10)) by lia.
  rewrite (Z.mod_small (n * 10 + (c - 48))) by lia.
  destruct (Z.ltb_spec (n * 10 + (c - 48)) (n * 10)); [lia|].
  destruct (Z.ltb_spec maxVal (n * 10 + (c - 48))); [lia|]. simpl.
  replace (n * 10 + (c - 48)) with (10 * n + (c - 48)) by lia.
  apply IH; [done | lia | done | done].
Qed.

Lemma numeral_inv s : numeral s = true -> s <> [] /\ forallb is_digit s = true.
Proof. destruct s; [discriminate|]. intros H. split; [done|exact H]. Qed.

Lemma decimal_nonneg s : forallb is_digit s = true -> 0 <= decimal s.
Proof. intros H. apply (decimal_from_mono s 0 H). lia. Qed.

Lemma ParseUint_numeral s bitSize :
  numeral s = true -> 0 < bitSize <= 64 -> decimal s < 2 ^ bitSize ->
  ParseUint s bitSize = (decimal s, None).
Proof.
  intros Hn Hb Hv. destruct (numeral_inv s Hn) as [Hne Hd].
  unfold ParseUint. destruct s as [|c s']; [done|].
  apply parse_digits_value; [done | lia | unfold decimal in Hv; lia |].
  unfold uint64_mod.
  assert (2 ^ bitSize <= 2 ^ 64) by (apply Z.pow_le_mono_r; lia). lia.
Qed.

Lemma ParseUint_too_big s bitSize :
  numeral s = true -> 0 < bitSize <= 64 -> 2 ^ bitSize <= decimal s ->
  ParseUint s bitSize = (2 ^ bitSize - 1, Some ErrRange).
Proof.
  intros Hn Hb Hv. destruct (numeral_inv s Hn) as [Hne Hd].
  unfold ParseUint. destruct s as [|c s']; [done|].
  assert (0 < 2 ^ bitSize) by (apply Z.pow_pos_nonneg; lia).
  assert (2 ^ bitSize <= 2 ^ 64) by (apply Z.pow_le_mono_r; lia).
  apply parse_digits_range; [done | lia | unfold decimal in Hv; lia | unfold uint64_mod; lia].
Qed.

(** A name that is empty or begins with a byte that is no digit is a
    syntax error. *)
Lemma ParseUint_not_a_number s bitSize :
  match s with [] => True | c :: _ => is_digit c = false end ->
  ParseUint s bitSize = (0, Some ErrSyntax).
Proof. destruct s as [|c s']; [done|]. intros H. simpl. change ((48 <=? c) && (c <=? 57)) with (is_digit c). by rewrite H. Qed.

Lemma Atoi_numeral s :
  numeral s = true -> decimal s < 2 ^ 63 -> Atoi s = (decimal s, None).
Proof.
  intros Hn Hv. destruct (numeral_inv s Hn) as [Hne Hd].
  pose proof (decimal_nonneg s Hd) as H0.
  unfold Atoi. destruct s as [|c s'] eqn:Es; [done|]. rewrite <- Es in *.
  assert (Hc : is_digit c = true) by (rewrite Es in Hd; simpl in Hd; by apply andb_true_iff in Hd as [? _]).
  apply is_digit_bounds in Hc.
  destruct (Z.eqb_spec c 43); [lia|]. destruct (Z.eqb_spec c 45); [lia|]. simpl.
  rewrite (ParseUint_numeral s 64 Hn) by lia.
  destruct (Z.leb_spec (2 ^ 63) (decimal s)); [lia|]. reflexivity.
Qed.

(** An empty string is no number for Atoi. *)
Lemma Atoi_empty : Atoi [] = (0, Some ErrSyntax).
Proof. reflexivity. Qed.

Lemma split_from_app sep s1 s2 cur :
  split_from sep (s1 ++ sep :: s2) cur = split_from sep s1 cur ++ split_from sep s2 [].
Proof.
  revert cur. induction s1 as [|c s IH]; intros cur; simpl.
  - by rewrite Z.eqb_refl.
  - destruct (c =? sep); simpl; by rewrite IH.
Qed.

Lemma split_from_none sep s cur :
  Forall (fun c => c <> sep) s -> split_from sep s cur = [cur ++ s].
Proof.
  intros H. revert cur. induction H as [|c s Hc Hs IH]; intros cur; simpl.
  - by rewrite app_nil_r.
  - destruct (Z.eqb_spec c sep); [done|]. rewrite IH. by rewrite <- app_assoc.
Qed.

Lemma splitn_from_one sep s cur : splitn_from sep s 1 cur = [cur ++ s].
Proof.
  revert cur. induction s as [|c s IH]; intros cur; simpl.
  - by rewrite app_nil_r.
  - rewrite andb_false_r. rewrite IH. by rewrite <- app_assoc.
Qed.

Lemma splitn_from_none sep s n cur :
  Forall (fun c => c <> sep) s -> splitn_from sep s n cur = [cur ++ s].
Proof.
  intros H. revert cur. induction H as [|c s Hc Hs IH]; intros cur; simpl.
  - by rewrite app_nil_r.
  - destruct (Z.eqb_spec c sep); [done|]. simpl. rewrite IH. by rewrite <- app_assoc.
Qed.

Lemma splitn_from_first sep s1 s2 cur :
  Forall (fun c => c <> sep) s1 ->
  splitn_from sep (s1 ++ sep :: s2) 2 cur = [cur ++ s1; s2].
Proof.
  intros H. revert cur. induction H as [|c s Hc Hs IH]; intros cur; simpl.
  - rewrite Z.eqb_refl. simpl. by rewrite app_nil_r, splitn_from_one.
  - destruct (Z.eqb_spec c sep); [done|]. simpl. rewrite IH. by rewrite <- app_assoc.
Qed.

Lemma digits_without c s :
  is_digit c = false -> forallb is_digit s = true -> Forall (fun b => b <> c) s.
Proof.
  intros Hc Hs. apply Forall_forall. intros b Hb ->.
  rewrite forallb_forall in Hs. rewrite (Hs c) in Hc; [done|]. by apply list_elem_of_In.
Qed.

End GoStringsFacts.

Section GoStringsFacts2.
Import GoStrings.

Lemma IndexByte_none s c : c ∉ s -> IndexByte s c = -1.
Proof.
  induction s as [|b s IH]; intros H; simpl; [done|].
  apply not_elem_of_cons in H as [Hb Hs].
  destruct (Z.eqb_spec b c); [congruence|]. by rewrite (IH Hs).
Qed.

Lemma IndexByte_first pre c rest :
  c ∉ pre -> IndexByte (pre ++ c :: rest) c = Z.of_nat (length pre).
Proof.
  induction pre as [|b s IH]; intros H; simpl.
  - by rewrite Z.eqb_refl.
  - apply not_elem_of_cons in H as [Hb Hs].
    destruct (Z.eqb_spec b c); [congruence|]. rewrite (IH Hs).
    destruct (Z.eqb_spec (Z.of_nat (length s)) (-1)); lia.
Qed.

Lemma LastIndexByte_none s c : c ∉ s -> LastIndexByte s c = -1.
Proof.
  induction s as [|b s IH]; intros H; simpl; [done|].
  apply not_elem_of_cons in H as [Hb Hs]. rewrite (IH Hs). simpl.
  destruct (Z.eqb_spec b c); [congruence|done].
Qed.

Lemma LastIndexByte_last pre c tail :
  c ∉ tail -> LastIndexByte (pre ++ c :: tail) c = Z.of_nat (length pre).
Proof.
  intros H. induction pre as [|b s IH]; simpl.
  - rewrite (LastIndexByte_none _ _ H). simpl. by rewrite Z.eqb_refl.
  - rewrite IH. destruct (Z.eqb_spec (Z.of_nat (length s)) (-1)); lia.
Qed.

Lemma fields_from_word w s cur :
  forallb (fun c => negb (asciiSpace c)) w = true ->
  fields_from (w ++ s) cur = fields_from s (cur ++ w).
Proof.
  revert cur. induction w as [|c w IH]; intros cur H; simpl in *.
  - by rewrite app_nil_r.
  - apply andb_true_iff in H as [Hc Hw]. apply negb_true_iff in Hc. rewrite Hc.
    rewrite IH by done. by rewrite <- app_assoc.
Qed.

Lemma word_inv w :
  word w = true -> w <> [] /\ forallb (fun c => negb (asciiSpace c)) w = true.
Proof. destruct w; [discriminate|]. intros H. split; [done|exact H]. Qed.

Lemma fields_from_join ws cur :
  cur <> [] -> Forall (fun w => word w = true) ws ->
  fields_from (join ws) cur = cur :: ws.
Proof.
  intros Hcur H. revert cur Hcur. induction H as [|w ws Hw Hws IH]; intros cur Hcur.
  - simpl. by destruct cur.
  - destruct (word_inv w Hw) as [Hne Hns].
    unfold join. simpl. fold (join ws).
    destruct cur as [|c0 cur0]; [done|].
    rewrite (fields_from_word w (join ws) [] Hns). simpl. by rewrite (IH w Hne).
Qed.

Lemma Fields_join ws :
  Forall (fun w => word w = true) ws -> Fields (join ws) = ws.
Proof.
  intros H. unfold Fields. destruct H as [|w ws Hw Hws]; [done|].
  destruct (word_inv w Hw) as [Hne Hns].
  unfold join. simpl. fold (join ws).
  rewrite (fields_from_word w (join ws) [] Hns). simpl. by apply fields_from_join.
Qed.

Lemma Fields_line name ws :
  word name = true -> Forall (fun w => word w = true) ws ->
  Fields (name ++ join ws) = name :: ws.
Proof.
  intros Hn H. destruct (word_inv name Hn) as [Hne Hns]. unfold Fields.
  rewrite (fields_from_word name (join ws) [] Hns). simpl. by apply fields_from_join.
Qed.

Lemma numeral_word s : numeral s = true -> word s = true.
Proof.
  destruct s as [|c s]; [done|]. unfold numeral, word.
  generalize (c :: s). intros l. induction l as [|b l IH]; [done|]. simpl.
  intros H. apply andb_true_iff in H as [Hb Hl]. rewrite (IH Hl), andb_true_r.
  apply is_digit_bounds in Hb. unfold asciiSpace.
  repeat match goal with |- context [?x =? ?y] => destruct (Z.eqb_spec x y); [lia|] end.
  done.
Qed.

Lemma slice_from_app pre s :
  slice_from (pre ++ s) (Z.of_nat (length pre)) = s.
Proof. unfold slice_from. rewrite Nat2Z.id. by rewrite drop_app_length. Qed.

Lemma slice_middle pre mid post :
  slice (pre ++ mid ++ post) (Z.of_nat (length pre))
        (Z.of_nat (length pre) + Z.of_nat (length mid)) = mid.
Proof.
  unfold slice. rewrite Nat2Z.id, drop_app_length.
  replace (Z.to_nat _) with (length mid) by lia. by rewrite take_app_length.
Qed.

End GoStringsFacts2.

(** ** package proc *)

Section ProcFacts.
Import GoStrings Proc.

(** The stat line is cut at the first opening and the last closing
    parenthesis, and the fields are counted after the latter. *)
Lemma readPidProcStatFromStr_cut pid pre comm tail :
  40 ∉ pre -> 41 ∉ tail ->
  readPidProcStatFromStr pid (pre ++ [40] ++ comm ++ [41] ++ tail) =
    let fields := Fields tail in
    if (length fields <? 14)%nat then inl (ErrNotEnoughFields pid)
    else
      match ParseUint (nth 11 fields []) 64 with
      | (_, Some e) => inl (ErrParseUtime e)
      | (utime, None) =>
          match ParseUint (nth 12 fields []) 64 with
          | (_, Some e) => inl (ErrParseStime e)
          | (stime, None) => inr (utime, stime, comm)
          end
      end.
Proof.
  intros Hpre Htail.
  change (pre ++ [40] ++ comm ++ [41] ++ tail) with (pre ++ 40 :: comm ++ 41 :: tail).
  set (stats := pre ++ 40 :: comm ++ 41 :: tail).
  assert (Estart : IndexByte stats 40 = Z.of_nat (length pre))
    by apply (IndexByte_first pre 40 _ Hpre).
  assert (Eend : LastIndexByte stats 41 = Z.of_nat (length pre) + 1 + Z.of_nat (length comm)).
  { unfold stats. replace (pre ++ 40 :: comm ++ 41 :: tail)
      with ((pre ++ 40 :: comm) ++ 41 :: tail) by (by rewrite <- app_assoc).
    rewrite (LastIndexByte_last _ 41 tail Htail). rewrite length_app. simpl. lia. }
  assert (Etail : slice_from stats (Z.of_nat (length pre) + 1 + Z.of_nat (length comm) + 1) = tail).
  { unfold stats. replace (pre ++ 40 :: comm ++ 41 :: tail)
      with ((pre ++ 40 :: comm ++ [41]) ++ tail)
      by (rewrite <- app_assoc; simpl; by rewrite <- app_assoc).
    replace (Z.of_nat (length pre) + 1 + Z.of_nat (length comm) + 1)
      with (Z.of_nat (length (pre ++ 40 :: comm ++ [41])))
      by (rewrite length_app; simpl; rewrite length_app; simpl; lia).
    apply slice_from_app. }
  assert (Ecomm : slice stats (Z.of_nat (length pre) + 1)
            (Z.of_nat (length pre) + 1 + Z.of_nat (length comm)) = comm).
  { unfold stats. replace (pre ++ 40 :: comm ++ 41 :: tail)
      with ((pre ++ [40]) ++ comm ++ (41 :: tail)) by (by rewrite <- app_assoc).
    replace (Z.of_nat (length pre) + 1) with (Z.of_nat (length (pre ++ [40])))
      by (rewrite length_app; simpl; lia).
    apply slice_middle. }
  unfold readPidProcStatFromStr. rewrite Estart, Eend, Etail, Ecomm.
  destruct (Z.eqb_spec (Z.of_nat (length pre)) (-1)); [lia|].
  destruct (Z.eqb_spec (Z.of_nat (length pre) + 1 + Z.of_nat (length comm)) (-1)); [lia|].
  destruct (Z.ltb_spec (Z.of_nat (length pre) + 1 + Z.of_nat (length comm)) (Z.of_nat (length pre))); [lia|].
  reflexivity.
Qed.

Lemma parts_loop_acc parts cpus :
  parts_loop parts cpus =
    match parts_loop parts [] with
    | Cpus l => Cpus (cpus ++ l)
    | r => r
    end.
Proof.
  revert cpus. induction parts as [|part parts IH]; intros cpus; simpl.
  - by rewrite app_nil_r.
  - destruct (SplitN part 45 2) as [|a [|b [|c r]]]; simpl; try apply IH.
    + destruct (Atoi part) as [cpu [e|]]; [done|].
      rewrite (IH (cpus ++ [cpu])), (IH [cpu]).
      destruct (parts_loop parts []); try done. by rewrite <- app_assoc.
    + destruct (Atoi a) as [cpuBegin [e|]]; [done|].
      destruct (Atoi b) as [cpuEnd [e|]]; [done|].
      destruct (cpuEnd <=? cpuBegin); [done|].
      destruct (cpuEnd =? max_int); [done|].
      rewrite (IH (cpus ++ _)), (IH (seqZ _ _)).
      destruct (parts_loop parts []); try done. by rewrite <- app_assoc.
Qed.

Lemma parts_loop_app ps1 ps2 cpus :
  parts_loop (ps1 ++ ps2) cpus =
    match parts_loop ps1 cpus with
    | Cpus l => parts_loop ps2 l
    | r => r
    end.
Proof.
  revert cpus. induction ps1 as [|part parts IH]; intros cpus; simpl; [done|].
  destruct (SplitN part 45 2) as [|a [|b [|c r]]]; simpl; try apply IH.
  - destruct (Atoi part) as [cpu [e|]]; [done|]. apply IH.
  - destruct (Atoi a) as [cpuBegin [e|]]; [done|].
    destruct (Atoi b) as [cpuEnd [e|]]; [done|].
    destruct (cpuEnd <=? cpuBegin); [done|].
    destruct (cpuEnd =? max_int); [done|]. apply IH.
Qed.

Lemma parts_loop_empty_part parts cpus l :
  [] ∈ parts -> parts_loop parts cpus <> Cpus l.
Proof.
  revert cpus. induction parts as [|part parts IH]; intros cpus Hin.
  - by apply elem_of_nil in Hin.
  - apply elem_of_cons in Hin as [<-|Hin]; [done|]. simpl.
    destruct (SplitN part 45 2) as [|a [|b [|c r]]]; simpl; try by apply IH.
    + destruct (Atoi part) as [cpu [e|]]; [done|]. by apply IH.
    + destruct (Atoi a) as [cpuBegin [e|]]; [done|].
      destruct (Atoi b) as [cpuEnd [e|]]; [done|].
      destruct (cpuEnd <=? cpuBegin); [done|].
      destruct (cpuEnd =? max_int); [done|]. by apply IH.
Qed.

Lemma Split_app s1 s2 : Split (s1 ++ 44 :: s2) 44 = Split s1 44 ++ Split s2 44.
Proof. apply split_from_app. Qed.

Lemma Split_nonempty s sep : Split s sep <> [].
Proof.
  unfold Split. generalize (@nil Z). induction s as [|c s IH]; intros cur; simpl; [done|].
  destruct (c =? sep); [done|apply IH].
Qed.

Lemma numeral_Forall_ne c s :
  is_digit c = false -> numeral s = true -> Forall (fun b => b <> c) s.
Proof. intros Hc Hs. apply digits_without; [done|]. by apply numeral_inv. Qed.

Lemma SplitN_range a b :
  numeral a = true -> SplitN (a ++ [45] ++ b) 45 2 = [a; b].
Proof.
  intros Ha. unfold SplitN. simpl.
  apply (splitn_from_first 45 a b []). by apply numeral_Forall_ne.
Qed.

Lemma SplitN_numeral a : numeral a = true -> SplitN a 45 2 = [a].
Proof.
  intros Ha. unfold SplitN. simpl.
  apply (splitn_from_none 45 a 2%nat []). by apply numeral_Forall_ne.
Qed.

Lemma Split_range a b :
  numeral a = true -> numeral b = true ->
  Split (a ++ [45] ++ b) 44 = [a ++ [45] ++ b].
Proof.
  intros Ha Hb. unfold Split. apply (split_from_none 44 _ []).
  apply Forall_app. split; [by apply numeral_Forall_ne|].
  apply Forall_app. split; [by repeat constructor|by apply numeral_Forall_ne].
Qed.

Lemma Split_numeral a : numeral a = true -> Split a 44 = [a].
Proof.
  intros Ha. unfold Split. apply (split_from_none 44 _ []). by apply numeral_Forall_ne.
Qed.

Lemma getIsolatedCPUsFromStr_parts s :
  s <> [] -> getIsolatedCPUsFromStr s = parts_loop (Split s 44) [].
Proof. by destruct s. Qed.

Lemma app_cons_not_nil {A} (l1 : list A) x l2 : l1 ++ x :: l2 <> [].
Proof. by destruct l1. Qed.

End ProcFacts.

Section ProcTheorems.
Import GoStrings Proc.

(** X1 (readPidProcStatFromStr): the command name is everything between
    the first opening and the last closing parenthesis of the line, so it
    may itself hold parentheses and spaces; utime and stime are the
    twelfth and thirteenth words after that last parenthesis. The rest of
    the line is ASCII, as the kernel writes it. *)
Theorem readPidProcStatFromStr_comm_may_hold_parentheses
    (pid : Z) (pre comm : gostring) (fields : list gostring) :
  40 ∉ pre -> 41 ∉ join fields -> is_ascii (join fields) ->
  Forall (fun w => word w = true) fields -> (14 <= length fields)%nat ->
  numeral (nth 11 fields []) = true -> decimal (nth 11 fields []) < 2 ^ 64 ->
  numeral (nth 12 fields []) = true -> decimal (nth 12 fields []) < 2 ^ 64 ->
  readPidProcStatFromStr pid (pre ++ [40] ++ comm ++ [41] ++ join fields) =
    inr (decimal (nth 11 fields []), decimal (nth 12 fields []), comm).
Proof.
  intros Hpre Htail _ Hw Hlen Hu Hu' Hs Hs'.
  rewrite (readPidProcStatFromStr_cut pid pre comm (join fields) Hpre Htail).
  cbv zeta. rewrite (Fields_join fields Hw).
  destruct (Nat.ltb_spec (length fields) 14); [lia|].
  rewrite (ParseUint_numeral _ 64 Hu) by lia.
  rewrite (ParseUint_numeral _ 64 Hs) by lia. reflexivity.
Qed.

Lemma readPidProcStatFromStr_comm_may_hold_parentheses_witness :
  readPidProcStatFromStr 4621
    (bytes "4621 " ++ [40] ++ bytes "my (weird) proc" ++ [41] ++ join ProcExamples.stat_fields) =
    inr (11, 12, bytes "my (weird) proc").
Proof.
  apply (readPidProcStatFromStr_comm_may_hold_parentheses 4621 (bytes "4621 ")
           (bytes "my (weird) proc") ProcExamples.stat_fields).
  - by_computation.
  - by_computation.
  - unfold is_ascii. by_computation.
  - by_computation.
  - vm_compute. lia.
  - reflexivity.
  - vm_compute. reflexivity.
  - reflexivity.
  - vm_compute. reflexivity.
Defined.

(** X2 (readPidProcStatFromStr): a line without an opening or without a
    closing parenthesis is refused, and so is one with fewer than
    fourteen words after the last closing parenthesis (of ASCII bytes,
    where [Fields] is what strings.Fields does). *)
Theorem readPidProcStatFromStr_refuses (pid : Z) (stats : gostring) :
  (40 ∉ stats \/ 41 ∉ stats ->
   readPidProcStatFromStr pid stats = inl (ErrInvalidStatFormat pid)) /\
  (forall pre comm tail,
     stats = pre ++ [40] ++ comm ++ [41] ++ tail -> 40 ∉ pre -> 41 ∉ tail ->
     is_ascii tail -> (length (Fields tail) < 14)%nat ->
     readPidProcStatFromStr pid stats = inl (ErrNotEnoughFields pid)).
Proof.
  split.
  - intros [H|H]; unfold readPidProcStatFromStr.
    + by rewrite (IndexByte_none _ _ H).
    + rewrite (LastIndexByte_none _ _ H). simpl. by rewrite orb_true_r.
  - intros pre comm tail -> Hpre Htail _ Hlen.
    rewrite (readPidProcStatFromStr_cut pid pre comm tail Hpre Htail). cbv zeta.
    by destruct (Nat.ltb_spec (length (Fields tail)) 14); [|lia].
Qed.

Lemma readPidProcStatFromStr_refuses_witness :
  readPidProcStatFromStr 7 (bytes "7 sh) S 1") = inl (ErrInvalidStatFormat 7) /\
  readPidProcStatFromStr 7 (bytes "7 (sh) S 1 2 3") = inl (ErrNotEnoughFields 7).
Proof.
  destruct (readPidProcStatFromStr_refuses 7 (bytes "7 sh) S 1")) as [H1 _].
  destruct (readPidProcStatFromStr_refuses 7 (bytes "7 (sh) S 1 2 3")) as [_ H2].
  split.
  - apply H1. left. by_computation.
  - apply (H2 (bytes "7 ") (bytes "sh") (bytes " S 1 2 3")).
    + reflexivity.
    + by_computation.
    + by_computation.
    + unfold is_ascii. by_computation.
    + vm_compute. lia.
Defined.

(** X3 (getIsolatedCPUsFromStr): a range [a-b] of two numerals with
    a < b yields the cpus a, a+1, ..., b in this order, and a single
    numeral yields that cpu. *)
Theorem getIsolatedCPUsFromStr_range (a b : gostring) :
  numeral a = true -> numeral b = true ->
  decimal a < decimal b -> decimal b < 2 ^ 63 - 1 ->
  getIsolatedCPUsFromStr (a ++ [45] ++ b) =
    Cpus (seqZ (decimal a) (decimal b - decimal a + 1)) /\
  getIsolatedCPUsFromStr a = Cpus [decimal a].
Proof.
  intros Ha Hb Hlt Hmax. split.
  - rewrite getIsolatedCPUsFromStr_parts by apply app_cons_not_nil.
    rewrite (Split_range a b Ha Hb). cbn [parts_loop].
    rewrite (SplitN_range a b Ha). cbn [nth].
    rewrite (Atoi_numeral a Ha) by lia. rewrite (Atoi_numeral b Hb) by lia.
    destruct (Z.leb_spec (decimal b) (decimal a)); [lia|].
    unfold max_int. destruct (Z.eqb_spec (decimal b) (2 ^ 63 - 1)); [lia|].
    reflexivity.
  - destruct (numeral_inv a Ha) as [Hne _].
    rewrite getIsolatedCPUsFromStr_parts by done.
    rewrite (Split_numeral a Ha). cbn [parts_loop].
    rewrite (SplitN_numeral a Ha).
    rewrite (Atoi_numeral a Ha) by lia. reflexivity.
Qed.

Lemma getIsolatedCPUsFromStr_range_witness :
  getIsolatedCPUsFromStr (bytes "2-5") = Cpus [2; 3; 4; 5] /\
  getIsolatedCPUsFromStr (bytes "2") = Cpus [2].
Proof.
  apply (getIsolatedCPUsFromStr_range (bytes "2") (bytes "5")).
  - reflexivity.
  - reflexivity.
  - vm_compute. reflexivity.
  - vm_compute. reflexivity.
Defined.

(** X4 (getIsolatedCPUsFromStr): a range whose end is not greater than
    its begin is an error; so a range of one cpu, [a-a], is refused. *)
Theorem getIsolatedCPUsFromStr_range_must_ascend (a b : gostring) :
  numeral a = true -> numeral b = true ->
  decimal b <= decimal a -> decimal a < 2 ^ 63 ->
  getIsolatedCPUsFromStr (a ++ [45] ++ b) = Failed (ErrInvalidRange (a ++ [45] ++ b)).
Proof.
  intros Ha Hb Hle Hmax.
  rewrite getIsolatedCPUsFromStr_parts by apply app_cons_not_nil.
  rewrite (Split_range a b Ha Hb). cbn [parts_loop].
  rewrite (SplitN_range a b Ha). cbn [nth].
  rewrite (Atoi_numeral a Ha) by lia. rewrite (Atoi_numeral b Hb) by lia.
  destruct (Z.leb_spec (decimal b) (decimal a)); [|lia]. reflexivity.
Qed.

Lemma getIsolatedCPUsFromStr_range_must_ascend_witness :
  getIsolatedCPUsFromStr (bytes "3-3") = Failed (ErrInvalidRange (bytes "3-3")).
Proof.
  apply (getIsolatedCPUsFromStr_range_must_ascend (bytes "3") (bytes "3")).
  - reflexivity.
  - reflexivity.
  - vm_compute. discriminate.
  - vm_compute. reflexivity.
Defined.

(** X5 (getIsolatedCPUsFromStr): the list is read part by part: the
    result for [s1,s2] is the result for s1 followed by the result for
    s2, and the first part that fails decides the failure. *)
Theorem getIsolatedCPUsFromStr_comma (s1 s2 : gostring) :
  s1 <> [] -> s2 <> [] ->
  getIsolatedCPUsFromStr (s1 ++ [44] ++ s2) =
    match getIsolatedCPUsFromStr s1 with
    | Cpus l1 =>
        match getIsolatedCPUsFromStr s2 with
        | Cpus l2 => Cpus (l1 ++ l2)
        | r => r
        end
    | r => r
    end.
Proof.
  intros H1 H2.
  rewrite getIsolatedCPUsFromStr_parts by apply app_cons_not_nil.
  rewrite !getIsolatedCPUsFromStr_parts by done.
  change (s1 ++ [44] ++ s2) with (s1 ++ 44 :: s2).
  rewrite Split_app, parts_loop_app.
  destruct (parts_loop (Split s1 44) []) as [l1| |]; [|done|done].
  apply parts_loop_acc.
Qed.

Lemma getIsolatedCPUsFromStr_comma_witness :
  getIsolatedCPUsFromStr (bytes "2-3,12-15") = Cpus [2; 3; 12; 13; 14; 15].
Proof.
  change (bytes "2-3,12-15") with (bytes "2-3" ++ [44] ++ bytes "12-15").
  rewrite (getIsolatedCPUsFromStr_comma (bytes "2-3") (bytes "12-15")).
  - reflexivity.
  - discriminate.
  - discriminate.
Defined.

(** X6 (getIsolatedCPUsFromStr): an empty part is never accepted: a
    list that begins or ends with a comma, or has two commas in a row,
    does not yield cpus. *)
Theorem getIsolatedCPUsFromStr_empty_part (s1 s2 : gostring) (l : list Z) :
  s1 = [] \/ s2 = [] \/ (exists r, s2 = 44 :: r) ->
  getIsolatedCPUsFromStr (s1 ++ [44] ++ s2) <> Cpus l.
Proof.
  intros H.
  rewrite getIsolatedCPUsFromStr_parts by apply app_cons_not_nil.
  change (s1 ++ [44] ++ s2) with (s1 ++ 44 :: s2). rewrite Split_app.
  apply parts_loop_empty_part. apply elem_of_app.
  destruct H as [->|[->|[r ->]]].
  - left. by_computation.
  - right. by_computation.
  - right. unfold Split. simpl. apply elem_of_cons. by left.
Qed.

Lemma getIsolatedCPUsFromStr_empty_part_witness :
  getIsolatedCPUsFromStr (bytes "1" ++ [44] ++ []) <> Cpus [1].
Proof.
  apply (getIsolatedCPUsFromStr_empty_part (bytes "1") [] [1]).
  right. left. reflexivity.
Defined.

End ProcTheorems.

Section ProcFacts2.
Import GoStrings Proc.

Lemma land_mask kind i :
  0 <= i < 63 -> (Z.land kind (mask i) =? 0) = negb (Z.testbit kind i).
Proof.
  intros Hi. unfold mask. destruct (Z.ltb_spec i 63); [|lia].
  assert (E : Z.land kind (2 ^ i) = if Z.testbit kind i then 2 ^ i else 0).
  { apply Z.bits_inj'. intros n Hn. rewrite Z.land_spec, Z.pow2_bits_eqb by lia.
    destruct (Z.eqb_spec i n) as [->|Hne].
    - destruct (Z.testbit kind n); simpl; [|by rewrite Z.bits_0].
      rewrite Z.pow2_bits_eqb by lia. by rewrite Z.eqb_refl.
    - rewrite andb_false_r. destruct (Z.testbit kind i); [|by rewrite Z.bits_0].
      rewrite Z.pow2_bits_eqb by lia. by destruct (Z.eqb_spec i n). }
  rewrite E. destruct (Z.testbit kind i); simpl; [|done].
  assert (0 < 2 ^ i) by (apply Z.pow_pos_nonneg; lia).
  destruct (Z.eqb_spec (2 ^ i) 0); [lia|done].
Qed.

Lemma sum_fields_selected kind vals i total :
  Forall (fun v => numeral v = true /\ decimal v < 2 ^ 64) vals ->
  0 <= i -> i + Z.of_nat (length vals) <= 63 ->
  sum_fields kind vals i (total `mod` uint64_mod) =
    inl ((total + selected_sum kind (map decimal vals) i) `mod` uint64_mod).
Proof.
  intros H. revert i total. induction H as [|v vals [Hn Hv] Hvals IH]; intros i total Hi Hlen.
  - simpl. by rewrite Z.add_0_r.
  - simpl length in Hlen. simpl. rewrite land_mask by lia.
    destruct (Z.testbit kind i); simpl.
    + rewrite (ParseUint_numeral v 64 Hn) by lia.
      rewrite Zplus_mod_idemp_l. rewrite IH by lia. f_equal. f_equal. lia.
    + rewrite IH by lia. done.
Qed.

Lemma splitn_from_length sep s n cur :
  (1 <= n)%nat ->
  length (splitn_from sep s n cur) = Nat.min (count_occ Z.eq_dec s sep + 1) n.
Proof.
  revert n cur. induction s as [|c s IH]; intros n cur Hn; cbn [splitn_from count_occ length].
  - lia.
  - destruct (Z.eqb_spec c sep) as [->|Hne].
    + destruct (Z.eq_dec sep sep); [|done].
      destruct (Nat.ltb_spec 1 n); cbn [andb length].
      * rewrite IH by lia. lia.
      * rewrite IH by lia. lia.
    + destruct (Z.eq_dec c sep); [done|]. cbn [andb]. by rewrite IH.
Qed.

Lemma cpu_lines_shape numCpu kind lines i cpuTicks ticks :
  (2 <= numCpu)%nat -> (i <= numCpu - 1)%nat ->
  length cpuTicks = (numCpu + 1)%nat ->
  cpuTicks !! (numCpu - 1)%nat = Some 0 -> cpuTicks !! numCpu = Some 0 ->
  cpu_lines numCpu kind lines i cpuTicks = (ticks, None) ->
  length ticks = (numCpu + 1)%nat /\
  ticks !! (numCpu - 1)%nat = Some 0 /\ ticks !! numCpu = Some 0.
Proof.
  intros Hn. revert i cpuTicks.
  induction lines as [|line lines IH]; intros i cpuTicks Hi Hlen H1 H2 Hr; simpl in Hr.
  - by inversion Hr; subst.
  - destruct ((0 <? i)%nat && (Z.of_nat i =? Z.of_nat numCpu - 1)) eqn:Hbrk;
      [by inversion Hr; subst|].
    assert (Hlt : (i < numCpu - 1)%nat).
    { apply andb_false_iff in Hbrk as [Hb|Hb].
      - apply Nat.ltb_ge in Hb. lia.
      - apply Z.eqb_neq in Hb. lia. }
    destruct (length (Fields line) <? 8)%nat; [done|].
    destruct (sum_fields kind (drop 1 (Fields line)) 0 0) as [total|err]; [|done].
    apply (IH (S i) (<[i:=total]> cpuTicks)).
    + lia.
    + by rewrite length_insert.
    + rewrite list_lookup_insert_ne by lia. done.
    + rewrite list_lookup_insert_ne by lia. done.
    + exact Hr.
Qed.

Lemma cpu_lines_length numCpu kind lines i cpuTicks ticks :
  cpu_lines numCpu kind lines i cpuTicks = (ticks, None) ->
  length ticks = length cpuTicks.
Proof.
  revert i cpuTicks.
  induction lines as [|line lines IH]; intros i cpuTicks Hr; simpl in Hr.
  - by inversion Hr; subst.
  - destruct ((0 <? i)%nat && (Z.of_nat i =? Z.of_nat numCpu - 1)); [by inversion Hr; subst|].
    destruct (length (Fields line) <? 8)%nat; [done|].
    destruct (sum_fields kind (drop 1 (Fields line)) 0 0) as [total|err]; [|done].
    rewrite (IH _ _ Hr). by rewrite length_insert.
Qed.

Lemma skipped_ParseUint name :
  skipped name -> ParseUint name 32 = (0, Some ErrSyntax) /\ pid_of_name name = None.
Proof.
  intros [->|(p & c & r & -> & Hp & Hv & Hc)]; [done|]. split.
  - unfold ParseUint. destruct (p ++ c :: r) eqn:E; [by destruct p|]. rewrite <- E.
    pose proof (decimal_nonneg p Hp).
    rewrite parse_digits_app; [|done|lia|unfold decimal in Hv; lia|by vm_compute].
    simpl. change ((48 <=? c) && (c <=? 57)) with (is_digit c). by rewrite Hc.
  - unfold pid_of_name, numeral. destruct (p ++ c :: r) eqn:E; [done|]. rewrite <- E.
    rewrite forallb_app. simpl. by rewrite Hc, andb_false_r.
Qed.

Lemma pids_loop_omap names pids count :
  Forall (fun name => (numeral name = true /\ decimal name < 2 ^ 32) \/ skipped name) names ->
  (count + length names <= length pids)%nat ->
  pids_loop names pids count = inr (take count pids ++ omap pid_of_name names).
Proof.
  intros H. revert pids count.
  induction H as [|name names Hname Hnames IH]; intros pids count Hlen; simpl.
  - by rewrite app_nil_r.
  - simpl in Hlen. destruct Hname as [[Hn Hv]|Hs].
    + rewrite (ParseUint_numeral name 32 Hn) by lia.
      unfold pid_of_name at 1. rewrite Hn. rewrite IH by (rewrite length_insert; lia).
      f_equal. replace (count + 1)%nat with (S count) by lia.
      rewrite (take_S_r _ _ (decimal name)) by (apply list_lookup_insert_eq; lia).
      rewrite take_insert_ge by lia. by rewrite <- app_assoc.
    + destruct (skipped_ParseUint name Hs) as [-> ->]. apply IH. lia.
Qed.

Lemma pids_loop_abort good big rest pids count :
  Forall (fun name => (numeral name = true /\ decimal name < 2 ^ 32) \/ skipped name) good ->
  numeral big = true -> 2 ^ 32 <= decimal big ->
  pids_loop (good ++ big :: rest) pids count = inl (ErrParsePid ErrRange).
Proof.
  intros H Hn Hv. revert pids count.
  induction H as [|name names Hname Hnames IH]; intros pids count; simpl.
  - by rewrite (ParseUint_too_big big 32 Hn) by lia.
  - destruct Hname as [[Hn' Hv']|Hs].
    + rewrite (ParseUint_numeral name 32 Hn') by lia. apply IH.
    + destruct (skipped_ParseUint name Hs) as [-> _]. apply IH.
Qed.

End ProcFacts2.

Section ProcTheorems2.
Import GoStrings Proc.

(** X7 (readCpuProcStatFromStr): for one line, the tick count is the sum
    (in uint64) of the values whose position is a bit of the kind: bit 0
    selects user, bit 1 nice, bit 2 system, and so on. *)
Theorem readCpuProcStatFromStr_sums_selected_fields
    (kind : Z) (name : gostring) (vals : list gostring) :
  word name = true -> is_ascii name ->
  Forall (fun v => numeral v = true /\ decimal v < 2 ^ 64) vals ->
  (7 <= length vals <= 63)%nat ->
  readCpuProcStatFromStr 0 kind (name ++ join vals) =
    ([selected_sum kind (map decimal vals) 0 `mod` uint64_mod], None).
Proof.
  intros Hname _ Hvals Hlen. unfold readCpuProcStatFromStr.
  change (SplitN (name ++ join vals) 10 (Z.of_nat 0 + 1))
    with (splitn_from 10 (name ++ join vals) 1 []).
  rewrite splitn_from_one. simpl app. cbn [length Nat.ltb Nat.leb Nat.add replicate].
  cbn [cpu_lines]. simpl andb. cbv iota.
  rewrite Fields_line; [|done|].
  2:{ eapply Forall_impl; [exact Hvals|]. intros v [Hv _]. by apply numeral_word. }
  simpl length. destruct (Nat.ltb_spec (S (length vals)) 8); [lia|].
  simpl drop. rewrite drop_0.
  change 0 with (0 `mod` uint64_mod) at 2.
  rewrite sum_fields_selected by (try done; lia).
  reflexivity.
Qed.

Lemma readCpuProcStatFromStr_sums_selected_fields_witness :
  readCpuProcStatFromStr 0 UserSystem (bytes "cpu" ++ join ProcExamples.cpu_fields) =
    ([400], None).
Proof.
  apply (readCpuProcStatFromStr_sums_selected_fields UserSystem (bytes "cpu")
           ProcExamples.cpu_fields).
  - reflexivity.
  - unfold is_ascii. by_computation.
  - by_computation.
  - vm_compute. lia.
Defined.

(** X8 (readCpuProcStatFromStr): a successful call (on ASCII data)
    returns numCpu + 1 entries, and from two cpus on the last two of them
    are zero: the loop over the lines stops at index numCpu - 1, before
    it writes that entry. *)
Theorem readCpuProcStatFromStr_last_entries_zero
    (numCpu : nat) (kind : Z) (data : gostring) (ticks : list Z) :
  is_ascii data ->
  readCpuProcStatFromStr numCpu kind data = (ticks, None) ->
  length ticks = (numCpu + 1)%nat /\
  ((2 <= numCpu)%nat ->
   ticks !! (numCpu - 1)%nat = Some 0 /\ ticks !! numCpu = Some 0).
Proof.
  intros _. unfold readCpuProcStatFromStr.
  destruct (length (SplitN data 10 (Z.of_nat numCpu + 1)) <? numCpu + 1)%nat; [done|].
  intros Hr. split.
  - rewrite (cpu_lines_length _ _ _ _ _ _ Hr). by rewrite length_replicate.
  - intros Hn.
    eapply (cpu_lines_shape numCpu kind _ 0%nat _ ticks Hn) in Hr as (_ & H1 & H2); try done.
    + lia.
    + by rewrite length_replicate.
    + apply lookup_replicate_2. lia.
    + apply lookup_replicate_2. lia.
Qed.

Lemma readCpuProcStatFromStr_last_entries_zero_witness :
  readCpuProcStatFromStr 3 UserSystem ProcExamples.stat_data = ([400; 400; 0; 0], None) /\
  length [400; 400; 0; 0] = 4%nat /\
  ((2 <= 3)%nat -> [400; 400; 0; 0] !! 2%nat = Some 0 /\ [400; 400; 0; 0] !! 3%nat = Some 0).
Proof.
  split; [vm_compute; reflexivity|].
  apply (readCpuProcStatFromStr_last_entries_zero 3 UserSystem ProcExamples.stat_data).
  - unfold is_ascii. by_computation.
  - vm_compute. reflexivity.
Defined.

(** X9 (readCpuProcStatFromStr): data with fewer than numCpu line feeds
    has too few lines: the call fails and reports how many it found. *)
Theorem readCpuProcStatFromStr_not_enough_lines
    (numCpu : nat) (kind : Z) (data : gostring) :
  (line_feeds data < numCpu)%nat ->
  readCpuProcStatFromStr numCpu kind data =
    ([], Some (ErrNotEnoughLines (line_feeds data + 1))).
Proof.
  intros Hc. unfold line_feeds in *. unfold readCpuProcStatFromStr, SplitN.
  destruct (Z.eqb_spec (Z.of_nat numCpu + 1) 0); [lia|].
  destruct (Z.ltb_spec (Z.of_nat numCpu + 1) 0); [lia|].
  rewrite splitn_from_length by lia.
  replace (Z.to_nat (Z.of_nat numCpu + 1)) with (numCpu + 1)%nat by lia.
  rewrite Nat.min_l by lia.
  destruct (Nat.ltb_spec (count_occ Z.eq_dec data 10 + 1) (numCpu + 1)); [done|lia].
Qed.

Lemma readCpuProcStatFromStr_not_enough_lines_witness :
  readCpuProcStatFromStr 1 UserSystem (bytes "cpu" ++ join ProcExamples.cpu_fields) =
    ([], Some (ErrNotEnoughLines 1)).
Proof.
  apply (readCpuProcStatFromStr_not_enough_lines 1 UserSystem
           (bytes "cpu" ++ join ProcExamples.cpu_fields)).
  vm_compute. lia.
Defined.

(** X10 (getProcPidsFromDir): when every numeric name is below 2^32, the
    result is the values of the numeric names, in the order of the
    directory; names that are no numbers are passed over. *)
Theorem getProcPidsFromDir_numeric_names (names : list gostring) :
  Forall (fun name => (numeral name = true /\ decimal name < 2 ^ 32) \/ skipped name) names ->
  getProcPidsFromDir (inr names) = inr (omap pid_of_name names).
Proof.
  intros H. unfold getProcPidsFromDir.
  rewrite (pids_loop_omap names _ 0 H) by (rewrite length_replicate; lia).
  reflexivity.
Qed.

Lemma getProcPidsFromDir_numeric_names_witness :
  getProcPidsFromDir (inr ProcExamples.dir_names) = inr [34; 88; 987987].
Proof.
  apply (getProcPidsFromDir_numeric_names ProcExamples.dir_names).
  unfold ProcExamples.dir_names. simpl map.
  repeat apply Forall_cons_2; try apply Forall_nil_2.
  - left. split; [reflexivity | vm_compute; reflexivity].
  - right. right. exists [], 99, (bytes "puinfo"). by vm_compute.
  - left. split; [reflexivity | vm_compute; reflexivity].
  - right. right. exists (bytes "1"), 97, (bytes "bc"). by vm_compute.
  - left. split; [reflexivity | vm_compute; reflexivity].
  - right. right. exists [], 115, (bytes "elf"). by vm_compute.
Defined.

(** X11 (getProcPidsFromDir): one numeric name of 2^32 or more makes the
    whole call fail: the pids read before it are not returned. *)
Theorem getProcPidsFromDir_name_out_of_range (good rest : list gostring) (big : gostring) :
  Forall (fun name => (numeral name = true /\ decimal name < 2 ^ 32) \/ skipped name) good ->
  numeral big = true -> 2 ^ 32 <= decimal big ->
  getProcPidsFromDir (inr (good ++ big :: rest)) = inl (ErrParsePid ErrRange).
Proof.
  intros H Hn Hv. unfold getProcPidsFromDir. by apply pids_loop_abort.
Qed.

Lemma getProcPidsFromDir_name_out_of_range_witness :
  getProcPidsFromDir (inr ([bytes "34"] ++ bytes "4294967296" :: [bytes "88"])) =
    inl (ErrParsePid ErrRange).
Proof.
  apply (getProcPidsFromDir_name_out_of_range [bytes "34"] [bytes "88"] (bytes "4294967296")).
  - apply Forall_cons_2; [|apply Forall_nil_2].
    left. split; [reflexivity | vm_compute; reflexivity].
  - reflexivity.
  - vm_compute. discriminate.
Defined.

End ProcTheorems2.

(** ** The drain of package ebpf, for any number of batches *)

Section EbpfFacts.
Import Ebpf Drain.

Lemma fill_front_length {A} (xs buf : list A) :
  length (fill_front xs buf) = length buf.
Proof. unfold fill_front. rewrite length_app, length_take, length_drop. lia. Qed.

Lemma fill_front_lookup_ge {A} (xs buf : list A) (i : nat) :
  (length xs <= i)%nat -> fill_front xs buf !! i = buf !! i.
Proof.
  intros Hi. unfold fill_front.
  destruct (Nat.le_gt_cases (length xs) (length buf)) as [Hle|Hgt].
  - rewrite take_ge by done. rewrite lookup_app_r by done.
    rewrite lookup_drop. f_equal. lia.
  - rewrite drop_ge by lia. rewrite app_nil_r.
    rewrite lookup_take_ge by lia. symmetry. apply lookup_ge_None. lia.
Qed.

Lemma fill_front_take {A} (xs buf : list A) :
  (length xs <= length buf)%nat -> take (length xs) (fill_front xs buf) = xs.
Proof.
  intros Hle. unfold fill_front. rewrite (take_ge xs) by done.
  by rewrite take_app_length.
Qed.

Lemma after_batches_length {A} (f : response -> list A) rs buf :
  length (after_batches f rs buf) = length buf.
Proof.
  revert buf. induction rs as [|r rs IH]; intros buf; simpl; [done|].
  rewrite IH. apply fill_front_length.
Qed.

Lemma after_batches_lookup_ge {A} (f : response -> list A) rs buf i :
  Forall (fun r => (length (f r) <= i)%nat) rs ->
  after_batches f rs buf !! i = buf !! i.
Proof.
  intros H. revert buf. induction H as [|r rs Hr Hrs IH]; intros buf; simpl; [done|].
  rewrite IH. by apply fill_front_lookup_ge.
Qed.

Lemma delivered_total_app rs1 rs2 :
  delivered_total (rs1 ++ rs2) = (delivered_total rs1 + delivered_total rs2)%nat.
Proof.
  unfold delivered_total. induction rs1 as [|r rs IH]; simpl; [done|].
  rewrite IH. lia.
Qed.

Lemma lookupLoop_More mores script total keys values :
  Forall (fun r => stat r = More) mores ->
  lookupLoop (mores ++ script) total keys values =
  lookupLoop script (total + delivered_total mores)
    (after_batches (fun r => (delivered r).*1) mores keys)
    (after_batches (fun r => (delivered r).*2) mores values).
Proof.
  intros H. revert total keys values.
  induction H as [|r rs Hr Hrs IH]; intros total keys values.
  - simpl. unfold delivered_total. simpl. by rewrite Nat.add_0_r.
  - simpl. unfold BatchLookupAndDelete. rewrite Hr. rewrite IH.
    unfold delivered_total. simpl. unfold batch_length at 2. f_equal. lia.
Qed.

Lemma lookupLoop_last last script total keys values :
  stat last = NoMore ->
  lookupLoop (last :: script) total keys values =
  Ok ((total + batch_length last)%nat,
      fill_front (delivered last).*1 keys, fill_front (delivered last).*2 values).
Proof. intros H. simpl. unfold BatchLookupAndDelete. by rewrite H. Qed.

Lemma lookupLoop_failed r msg script total keys values :
  stat r = Failed msg ->
  lookupLoop (r :: script) total keys values = Err (ErrOther msg).
Proof. intros H. simpl. unfold BatchLookupAndDelete. by rewrite H. Qed.

Lemma GoString_cut pre rest :
  0 ∉ pre -> GoString (pre ++ 0 :: rest) = map (fun c => c `mod` 256) pre.
Proof.
  induction pre as [|c pre IH]; intros H; simpl; [done|].
  apply not_elem_of_cons in H as [Hc Hpre].
  destruct (Z.eqb_spec c 0); [congruence|]. by rewrite IH.
Qed.

Lemma GoString_whole b :
  0 ∉ b -> GoString b = map (fun c => c `mod` 256) b.
Proof.
  induction b as [|c pre IH]; intros H; simpl; [done|].
  apply not_elem_of_cons in H as [Hc Hpre].
  destruct (Z.eqb_spec c 0); [congruence|]. by rewrite IH.
Qed.

Lemma GoString_no_NUL b :
  Forall (fun c => -128 <= c <= 127) b -> 0 ∉ GoString b.
Proof.
  induction 1 as [|c b Hc Hb IH]; simpl; [apply not_elem_of_nil|].
  destruct (Z.eqb_spec c 0); [apply not_elem_of_nil|].
  apply not_elem_of_cons. split; [|done].
  intros E. symmetry in E. apply Z.mod_divide in E; [|lia].
  destruct E as [k Hk]. lia.
Qed.

End EbpfFacts.

Section EbpfTheorems.
Import Ebpf Drain.

(** X12 (GetActiveProcPids, GetActiveProcs): when the kernel serves the
    whole table in one batch that fits the buffers, the drain returns the
    rows of that batch in the kernel's order: their keys, or their pid
    and the command name up to its first NUL. *)
Theorem drain_single_batch (maxEntries : nat) (rows : list (Z * keplerActiveProc)) :
  (length rows <= maxEntries)%nat ->
  GetActiveProcPids maxEntries [mkResponse rows NoMore] = Ok rows.*1 /\
  GetActiveProcs maxEntries [mkResponse rows NoMore] = Ok (map to_ActiveProc rows.*2).
Proof.
  intros Hle. unfold GetActiveProcPids, GetActiveProcs.
  rewrite lookupLoop_last by done. unfold batch_length. simpl.
  unfold slice_to. rewrite !fill_front_length, !length_replicate.
  destruct (Nat.leb_spec (length rows) maxEntries); [|lia].
  split.
  - f_equal. rewrite <- (length_fmap fst rows).
    apply fill_front_take. by rewrite length_replicate, length_fmap.
  - f_equal. rewrite <- (length_fmap snd rows) at 1.
    rewrite fill_front_take by (by rewrite length_replicate, length_fmap). done.
Qed.

Lemma drain_single_batch_witness :
  GetActiveProcPids 4 [mkResponse [DrainExamples.row 7; DrainExamples.row 9] NoMore] = Ok [7; 9] /\
  GetActiveProcs 4 [mkResponse [DrainExamples.row 7; DrainExamples.row 9] NoMore]
  = Ok [ActiveProc.mk 7 [115; 104]; ActiveProc.mk 9 [115; 104]].
Proof.
  apply (drain_single_batch 4 [DrainExamples.row 7; DrainExamples.row 9]).
  simpl. lia.
Defined.

(** X13 (GetActiveProcPids, GetActiveProcs): a batch call that fails
    with another error than ENOENT ends the drain with that error,
    whatever the calls before it delivered: those rows, which the kernel
    has already deleted from the table, are not returned. *)
Theorem drain_failure_drops_earlier_batches
    (maxEntries : nat) (mores rest : list response) (r : response) (msg : string) :
  Forall (fun r => stat r = More) mores -> stat r = Failed msg ->
  GetActiveProcPids maxEntries (mores ++ r :: rest) = Err (ErrOther msg) /\
  GetActiveProcs maxEntries (mores ++ r :: rest) = Err (ErrOther msg).
Proof.
  intros Hm Hr. unfold GetActiveProcPids, GetActiveProcs.
  rewrite (lookupLoop_More mores _ _ _ _ Hm).
  by rewrite (lookupLoop_failed r msg) by done.
Qed.

Lemma drain_failure_drops_earlier_batches_witness :
  GetActiveProcPids 4 (DrainExamples.two_batches ++ DrainExamples.failed_batch :: [])
  = Err (ErrOther "EFAULT") /\
  GetActiveProcs 4 (DrainExamples.two_batches ++ DrainExamples.failed_batch :: [])
  = Err (ErrOther "EFAULT").
Proof.
  apply (drain_failure_drops_earlier_batches 4 DrainExamples.two_batches []
           DrainExamples.failed_batch "EFAULT").
  - repeat constructor.
  - reflexivity.
Defined.

(** X14 (GetActiveProcPids, GetActiveProcs): when the kernel serves the
    table in several batches, the drain panics exactly when the counts
    add up to more than the capacity of the buffers. Otherwise it returns
    as many entries as the counts add up to, of which the first are the
    keys of the last batch and those past the longest batch are zero:
    every batch was written at the front of the buffer. *)
Theorem drain_counts_every_batch_keeps_the_last
    (maxEntries : nat) (mores : list response) (last : response) :
  Forall (fun r => stat r = More) mores -> stat last = NoMore ->
  let script := mores ++ [last] in
  ((maxEntries < delivered_total script)%nat ->
   GetActiveProcPids maxEntries script = Panic /\
   GetActiveProcs maxEntries script = Panic) /\
  ((delivered_total script <= maxEntries)%nat ->
   exists pids procs,
     GetActiveProcPids maxEntries script = Ok pids /\
     GetActiveProcs maxEntries script = Ok procs /\
     length pids = delivered_total script /\
     length procs = delivered_total script /\
     take (batch_length last) pids = (delivered last).*1 /\
     forall i, (longest_batch script <= i < delivered_total script)%nat ->
               pids !! i = Some 0).
Proof.
  intros Hm Hl script.
  assert (Etotal : delivered_total script
                   = (delivered_total mores + batch_length last)%nat).
  { unfold script. rewrite delivered_total_app. unfold delivered_total. simpl. lia. }
  unfold GetActiveProcPids, GetActiveProcs, script.
  rewrite (lookupLoop_More mores _ _ _ _ Hm).
  rewrite (lookupLoop_last last) by done. simpl Nat.add. fold script. rewrite <- Etotal.
  unfold slice_to.
  rewrite !fill_front_length, !after_batches_length, !length_replicate.
  split.
  - intros Hgt. destruct (Nat.leb_spec (delivered_total script) maxEntries); [lia|done].
  - intros Hle. destruct (Nat.leb_spec (delivered_total script) maxEntries); [|lia].
    eexists _, _. split; [reflexivity|]. split; [reflexivity|].
    assert (Hbl : (batch_length last <= maxEntries)%nat) by lia.
    split; [|split; [|split]].
    + rewrite length_take, fill_front_length, after_batches_length, length_replicate. lia.
    + rewrite length_map, length_take, fill_front_length, after_batches_length,
        length_replicate. lia.
    + rewrite take_take. rewrite Nat.min_l by lia.
      unfold batch_length. rewrite <- (length_fmap fst (delivered last)).
      apply fill_front_take.
      rewrite after_batches_length, length_replicate, length_fmap. exact Hbl.
    + intros i [Hlo Hhi].
      assert (Hlong : Forall (fun r => (batch_length r <= i)%nat) script).
      { apply Forall_forall. intros r Hr.
        assert (batch_length r <= longest_batch script)%nat; [|lia].
        unfold longest_batch. apply max_list_elem_of_le.
        apply list_elem_of_fmap. by exists r. }
      unfold script in Hlong. apply Forall_app in Hlong as [Hlm Hll].
      apply Forall_inv in Hll.
      rewrite lookup_take_lt by lia.
      rewrite fill_front_lookup_ge by (rewrite length_fmap; exact Hll).
      rewrite after_batches_lookup_ge.
      * apply lookup_replicate_2. lia.
      * eapply Forall_impl; [exact Hlm|]. intros r Hr. simpl. by rewrite length_fmap.
Qed.

Lemma drain_counts_every_batch_keeps_the_last_witness :
  GetActiveProcPids 2 (DrainExamples.two_batches ++ [DrainExamples.last_batch]) = Panic /\
  exists pids,
    GetActiveProcPids 4 (DrainExamples.two_batches ++ [DrainExamples.last_batch]) = Ok pids /\
    length pids = 3%nat /\ take 1 pids = [3] /\ pids !! 2%nat = Some 0.
Proof.
  pose proof (drain_counts_every_batch_keeps_the_last 2 DrainExamples.two_batches
                DrainExamples.last_batch) as H2.
  pose proof (drain_counts_every_batch_keeps_the_last 4 DrainExamples.two_batches
                DrainExamples.last_batch) as H4.
  cbv zeta in H2, H4.
  destruct H2 as [H2 _]; [repeat constructor | reflexivity |].
  destruct H4 as [_ H4]; [repeat constructor | reflexivity |].
  split.
  - apply H2. vm_compute. lia.
  - destruct H4 as (pids & procs & Hp & _ & Hlen & _ & Htake & Hzero); [vm_compute; lia|].
    exists pids. split; [exact Hp|]. split; [exact Hlen|]. split; [exact Htake|].
    apply Hzero. vm_compute. lia.
Defined.

(** X15 (GetActiveProcs, trimNullBytes): the command name is the bytes
    of the int8 array before its first NUL, each taken as a byte; what
    follows the NUL is left out, and the name holds no NUL. *)
Theorem comm_is_cut_at_first_NUL (pre rest : list Z) :
  0 ∉ pre -> Forall (fun c => -128 <= c <= 127) pre ->
  GoString (pre ++ 0 :: rest) = map (fun c => c `mod` 256) pre /\
  TaskIter.trimNullBytes (pre ++ 0 :: rest) = map (fun c => c `mod` 256) pre /\
  GoString pre = map (fun c => c `mod` 256) pre /\
  0 ∉ GoString (pre ++ 0 :: rest).
Proof.
  intros H0 Hr. unfold TaskIter.trimNullBytes.
  rewrite (GoString_cut pre rest H0), (GoString_whole pre H0).
  repeat split.
  rewrite <- (GoString_whole pre H0). by apply GoString_no_NUL.
Qed.

Lemma comm_is_cut_at_first_NUL_witness :
  GoString ([115; 104; -61] ++ 0 :: [120; 0; 0]) = [115; 104; 195] /\
  TaskIter.trimNullBytes ([115; 104; -61] ++ 0 :: [120; 0; 0]) = [115; 104; 195] /\
  GoString [115; 104; -61] = [115; 104; 195] /\
  0 ∉ GoString ([115; 104; -61] ++ 0 :: [120; 0; 0]).
Proof.
  apply (comm_is_cut_at_first_NUL [115; 104; -61] [120; 0; 0]).
  - by_computation.
  - by_computation.
Defined.

End EbpfTheorems.

(** ** package isolated, in every state that calls lead to *)

Section IsolatedFacts2.
Import Isolated IsolatedInv.

Lemma deref_alter_ne h f l r :
  r <> Some l -> deref (alter f l h) r = deref h r.
Proof.
  intros Hne. destruct r as [l'|]; [|done]. simpl.
  rewrite list_lookup_alter_ne; [done|congruence].
Qed.

Lemma deref_alter_eq h f l :
  (l < length h)%nat -> deref (alter f l h) (Some l) = f (deref h (Some l)).
Proof.
  intros Hl. simpl. rewrite list_lookup_alter.
  destruct (lookup_lt_is_Some_2 h l Hl) as [m Hm]. rewrite Hm. by rewrite decide_True by done.
Qed.

Lemma deref_app_l h g c :
  (c < length h)%nat -> deref (h ++ g) (Some c) = deref h (Some c).
Proof. intros Hc. simpl. by rewrite lookup_app_l. Qed.

Lemma Values_empty : Values ∅ = [].
Proof. unfold Values. by rewrite map_to_list_empty. Qed.

(** In a state that calls lead to, the answer of ActiveProcs is the
    current generation of the cpu. *)
Lemma ActiveProcs_answer cpu st :
  wf st ->
  (ActiveProcs cpu st).1 =
    match procs st !! cpu with
    | Some t => Values (deref (heap st) (currentProcs t))
    | None => []
    end.
Proof.
  intros Hwf. unfold ActiveProcs.
  destruct (procs st !! cpu) as [t|] eqn:Ht; simpl.
  - destruct (wf_tracker st Hwf cpu t Ht) as (c & p & Hc & Hp & Hlt & Hempty).
    rewrite Hc, Hp.
    destruct (Nat.eqb_spec (size (deref (heap st) (Some c))) 0) as [Hz|Hnz]; simpl.
    + apply map_size_empty_iff in Hz. simpl in Hz. rewrite Hz, Hempty. done.
    + by rewrite lookup_app_l.
  - rewrite map_size_empty. simpl. apply Values_empty.
Qed.

Lemma elem_of_answer cpu st a :
  wf st ->
  a ∈ (ActiveProcs cpu st).1 <->
  exists t, procs st !! cpu = Some t /\
            deref (heap st) (currentProcs t) !! Pid a = Some a.
Proof.
  intros Hwf. rewrite (ActiveProcs_answer cpu st Hwf).
  destruct (procs st !! cpu) as [t|] eqn:Ht.
  - rewrite Values_elem_of. split.
    + intros [k Hk]. exists t. split; [done|].
      destruct (wf_tracker st Hwf cpu t Ht) as (c & p & Hc & Hp & Hlt & Hempty).
      rewrite Hc in *. simpl in *.
      destruct (heap st !! c) as [m|] eqn:Hm; simpl in *; [|by rewrite lookup_empty in Hk].
      by rewrite (wf_keys st Hwf c m k a Hm Hk).
    + intros (t' & Ht' & Hin). inversion Ht'; subst. eauto.
  - split; [by intros ?%elem_of_nil|]. by intros (t & ? & _).
Qed.

Lemma Init_one_procs st cpu cpu' :
  is_Some (procs (Init_one st cpu) !! cpu') <-> cpu' = cpu \/ is_Some (procs st !! cpu').
Proof.
  unfold Init_one. simpl. destruct (decide (cpu' = cpu)) as [->|Hne].
  - rewrite lookup_insert_eq. split; [by left|by eauto].
  - rewrite lookup_insert_ne by done. split; [by right|]. by intros [?|?].
Qed.

Lemma Init_procs isolated st cpu :
  is_Some (procs (Init isolated st) !! cpu) <-> cpu ∈ isolated \/ is_Some (procs st !! cpu).
Proof.
  unfold Init. revert st. induction isolated as [|c l IH]; intros st; simpl.
  - split; [by right|]. intros [H|H]; [by apply elem_of_nil in H|done].
  - rewrite IH, Init_one_procs, elem_of_cons. tauto.
Qed.

Lemma Track_is_Some cpu proc st :
  wf st -> (Track cpu proc st = None <-> procs st !! cpu = None).
Proof.
  intros Hwf. unfold Track. destruct (procs st !! cpu) as [t|] eqn:Ht; simpl.
  - destruct (wf_tracker st Hwf cpu t Ht) as (c & p & Hc & _). rewrite Hc. simpl.
    split; discriminate.
  - done.
Qed.

Lemma current_apart_initial : current_apart initial.
Proof. intros cpu cpu' t t' H. simpl in H. by rewrite lookup_empty in H. Qed.

Lemma current_apart_Init_one st cpu :
  wf st -> current_apart st -> current_apart (Init_one st cpu).
Proof.
  intros Hwf Hap c1 c2 t1 t2. unfold Init_one. simpl.
  destruct (decide (c1 = cpu)) as [->|H1]; destruct (decide (c2 = cpu)) as [->|H2];
    try done.
  - rewrite lookup_insert_eq, lookup_insert_ne by done.
    intros [= <-] Ht2 E. simpl in E.
    destruct (wf_tracker st Hwf c2 t2 Ht2) as (c & p & Hc & _ & Hlt & _).
    rewrite Hc in E. inversion E. lia.
  - rewrite lookup_insert_ne, lookup_insert_eq by done.
    intros Ht1 [= <-] E. simpl in E.
    destruct (wf_tracker st Hwf c1 t1 Ht1) as (c & p & Hc & _ & Hlt & _).
    rewrite Hc in E. inversion E. lia.
  - rewrite !lookup_insert_ne by done. apply Hap.
Qed.

Lemma current_apart_Init isolated st :
  wf st -> current_apart st -> current_apart (Init isolated st).
Proof.
  unfold Init. revert st. induction isolated as [|c l IH]; intros st Hwf Hap; simpl; [done|].
  apply IH; [by apply wf_Init_one|by apply current_apart_Init_one].
Qed.

Lemma Track_procs cpu proc st st' :
  Track cpu proc st = Some st' -> procs st' = procs st.
Proof.
  unfold Track. destruct (map_assign _ _ _ _) as [h|]; simpl; [|done].
  by intros [= <-].
Qed.

Lemma current_apart_step st c st' :
  wf st -> current_apart st -> step st c = Some st' -> current_apart st'.
Proof.
  intros Hwf Hap. destruct c as [isolated|cpu proc|pid|cpu]; simpl.
  - intros [= <-]. by apply current_apart_Init.
  - intros H. unfold current_apart. rewrite (Track_procs _ _ _ _ H). apply Hap.
  - intros [= <-]. exact Hap.
  - intros [= <-]. unfold current_apart.
    destruct (ActiveProcs_state cpu st) as (-> & _). apply Hap.
Qed.

Lemma current_apart_run cs :
  forall st st', wf st -> current_apart st -> run st cs = Some st' -> current_apart st'.
Proof.
  induction cs as [|c cs IH]; intros st st' Hwf Hap H; simpl in H.
  - by inversion H; subst.
  - destruct (step st c) as [st1|] eqn:Hs; simpl in H; [|done].
    apply (IH st1 st'); [by eapply wf_step|by eapply current_apart_step|done].
Qed.

Lemma reachable_current_apart st : reachable st -> current_apart st.
Proof.
  intros [cs H]. eapply current_apart_run; [apply wf_initial|apply current_apart_initial|exact H].
Qed.

Lemma reachable_step st c st' : reachable st -> step st c = Some st' -> reachable st'.
Proof.
  intros [cs H] Hs. exists (cs ++ [c]).
  revert H. generalize initial. induction cs as [|c0 cs IH]; intros s H; simpl in *.
  - inversion H; subst. by rewrite Hs.
  - destruct (step s c0) as [s1|]; simpl in *; [|done]. by apply IH.
Qed.

(** What Track does to the maps. *)
Lemma Track_heap cpu proc st st' t :
  wf st -> procs st !! cpu = Some t -> Track cpu proc st = Some st' ->
  forall r,
    deref (heap st') r =
      if decide (r = currentProcs t) then <[Pid proc := proc]> (deref (heap st) r)
      else deref (heap st) r.
Proof.
  intros Hwf Ht. unfold Track. rewrite Ht. simpl.
  destruct (wf_tracker st Hwf cpu t Ht) as (c & p & Hc & _ & Hlt & _).
  rewrite Hc. simpl. intros [= <-] r. simpl.
  destruct (decide (r = Some c)) as [->|Hne].
  - by apply deref_alter_eq.
  - by apply deref_alter_ne.
Qed.

(** What RemoveTracking does to the maps. *)
Lemma RemoveTracking_heap pid st t :
  wf st -> procs st !! default 0 (cpus st !! pid) = Some t ->
  forall r,
    deref (heap (RemoveTracking pid st)) r =
      if decide (r = currentProcs t) then delete pid (deref (heap st) r)
      else deref (heap st) r.
Proof.
  intros Hwf Ht r. unfold RemoveTracking. simpl. rewrite Ht. simpl.
  destruct (wf_tracker st Hwf _ t Ht) as (c & p & Hc & _ & Hlt & _).
  rewrite Hc. simpl.
  destruct (decide (r = Some c)) as [->|Hne].
  - by apply deref_alter_eq.
  - by apply deref_alter_ne.
Qed.

Lemma RemoveTracking_no_tracker pid st :
  procs st !! default 0 (cpus st !! pid) = None ->
  heap (RemoveTracking pid st) = heap st.
Proof. intros Ht. unfold RemoveTracking. simpl. by rewrite Ht. Qed.

End IsolatedFacts2.

Section IsolatedFacts3.
Import Isolated IsolatedInv.

Lemma step_procs st c st' cpu :
  step st c = Some st' ->
  is_Some (procs st' !! cpu) <->
  is_Some (procs st !! cpu) \/ exists isolated, c = CallInit isolated /\ cpu ∈ isolated.
Proof.
  destruct c as [isolated|cpu2 proc|pid|cpu2]; simpl.
  - intros [= <-]. rewrite Init_procs. split.
    + intros [H|H]; [right; eauto|by left].
    + intros [H|(l & [= <-] & H)]; [by right|by left].
  - intros H. rewrite (Track_procs _ _ _ _ H). split; [by left|].
    by intros [H'|(l & ? & _)].
  - intros [= <-]. simpl. split; [by left|]. by intros [H'|(l & ? & _)].
  - intros [= <-]. destruct (ActiveProcs_state cpu2 st) as (-> & _).
    split; [by left|]. by intros [H'|(l & ? & _)].
Qed.

Lemma run_procs cs st st' cpu :
  run st cs = Some st' ->
  is_Some (procs st' !! cpu) <->
  is_Some (procs st !! cpu) \/ exists isolated, CallInit isolated ∈ cs /\ cpu ∈ isolated.
Proof.
  revert st. induction cs as [|c cs IH]; intros st H; simpl in H.
  - inversion H; subst. split; [by left|].
    intros [H'|(l & Hin & _)]; [done|by apply elem_of_nil in Hin].
  - destruct (step st c) as [st1|] eqn:Hs; simpl in H; [|done].
    rewrite (IH st1 H), (step_procs st c st1 cpu Hs). split.
    + intros [[H'|(l & -> & Hl)]|(l & Hin & Hl)].
      * by left.
      * right. exists l. split; [apply elem_of_cons; by left|done].
      * right. exists l. split; [apply elem_of_cons; by right|done].
    + intros [H'|(l & Hin & Hl)]; [by left; left|].
      apply elem_of_cons in Hin as [<-|Hin]; [left; right; eauto|right; eauto].
Qed.

Lemma ActiveProcs_after_ActiveProcs st cpu cpu' :
  wf st -> (ActiveProcs cpu' (ActiveProcs cpu st).2).1 = (ActiveProcs cpu' st).1.
Proof.
  intros Hwf.
  rewrite (ActiveProcs_answer cpu' _ (wf_ActiveProcs cpu st Hwf)).
  rewrite (ActiveProcs_answer cpu' st Hwf).
  destruct (ActiveProcs_state cpu st) as (-> & _ & garbage & -> & _).
  destruct (procs st !! cpu') as [t|] eqn:Ht; [|done].
  destruct (wf_tracker st Hwf cpu' t Ht) as (c & p & Hc & _ & Hlt & _).
  rewrite Hc. by rewrite deref_app_l.
Qed.

Lemma step_keeps_reports st c st' cpu a :
  wf st -> keeps c = true -> step st c = Some st' ->
  a ∈ (ActiveProcs cpu st).1 ->
  exists a', a' ∈ (ActiveProcs cpu st').1 /\ Pid a' = Pid a.
Proof.
  intros Hwf Hk Hs Ha.
  assert (Hwf' : wf st') by (by eapply wf_step).
  destruct c as [isolated|cpu2 proc|pid|cpu2]; simpl in Hk, Hs; try done.
  - apply (elem_of_answer cpu st a Hwf) in Ha as (t & Ht & Hin).
    destruct (procs st !! cpu2) as [t2|] eqn:Ht2;
      [|by apply (Track_is_Some cpu2 proc st Hwf) in Ht2; rewrite Ht2 in Hs].
    pose proof (Track_heap cpu2 proc st st' t2 Hwf Ht2 Hs (currentProcs t)) as Hh.
    pose proof (Track_procs _ _ _ _ Hs) as Hp.
    destruct (decide (currentProcs t = currentProcs t2)) as [E|Hne].
    + destruct (decide (Pid proc = Pid a)) as [Epid|Hpid].
      * exists proc. split; [|done]. apply (elem_of_answer cpu st' proc Hwf').
        exists t. rewrite Hp. split; [done|]. rewrite Hh. by rewrite lookup_insert_eq.
      * exists a. split; [|done]. apply (elem_of_answer cpu st' a Hwf').
        exists t. rewrite Hp. split; [done|]. rewrite Hh.
        by rewrite lookup_insert_ne.
    + exists a. split; [|done]. apply (elem_of_answer cpu st' a Hwf').
      exists t. rewrite Hp. split; [done|]. by rewrite Hh.
  - inversion Hs; subst. exists a. split; [|done].
    by rewrite ActiveProcs_after_ActiveProcs.
Qed.

End IsolatedFacts3.

Section IsolatedTheorems.
Import Isolated IsolatedInv.

(** X16 (Init, Track): after any calls, Track(cpu, proc) panics exactly
    when no Init among them was given the cpu: the tracker of such a cpu
    is the zero value, whose current generation is the nil map. *)
Theorem Track_panics_exactly_without_Init
    (cs : list call) (st : State) (cpu : Z) (proc : ActiveProc) :
  run initial cs = Some st ->
  (Track cpu proc st = None <->
   forall isolated, CallInit isolated ∈ cs -> cpu ∉ isolated).
Proof.
  intros Hrun.
  assert (Hwf : wf st) by (apply reachable_wf; by exists cs).
  rewrite (Track_is_Some cpu proc st Hwf).
  pose proof (run_procs cs initial st cpu Hrun) as Hp.
  rewrite eq_None_not_Some, Hp. split.
  - intros Hn isolated Hin Hcpu. apply Hn. right. eauto.
  - intros Hn [H|(l & Hin & Hl)].
    + simpl in H. rewrite lookup_empty in H. by destruct H.
    + by apply (Hn l Hin).
Qed.

Lemma Track_panics_exactly_without_Init_witness :
  Track 1 IsolatedExamples.p5 (Init [0; 3] initial) = None /\
  Track 3 IsolatedExamples.p5' (Init [0; 3] initial) <> None.
Proof.
  pose proof (Track_panics_exactly_without_Init [CallInit [0; 3]] (Init [0; 3] initial) 1
                IsolatedExamples.p5 eq_refl) as H1.
  pose proof (Track_panics_exactly_without_Init [CallInit [0; 3]] (Init [0; 3] initial) 3
                IsolatedExamples.p5' eq_refl) as H3.
  split.
  - apply H1. intros isolated Hin.
    apply list_elem_of_singleton in Hin. inversion Hin; subst. by_computation.
  - intros Hn. apply (proj1 H3 Hn [0; 3]); [by apply list_elem_of_singleton | by_computation].
Defined.

(** X17 (ActiveProcs): in every state that calls lead to, a call of
    ActiveProcs changes no answer of a later ActiveProcs, for the same or
    another cpu: it reads the tracker and stores nothing. *)
Theorem ActiveProcs_changes_no_answer (st : State) (cpu cpu' : Z) :
  reachable st ->
  (ActiveProcs cpu' (ActiveProcs cpu st).2).1 = (ActiveProcs cpu' st).1.
Proof. intros Hr. apply ActiveProcs_after_ActiveProcs. by apply reachable_wf. Qed.

Lemma ActiveProcs_changes_no_answer_witness :
  exists st,
    run initial IsolatedExamples.migrated = Some st /\
    (ActiveProcs 0 (ActiveProcs 0 st).2).1 = (ActiveProcs 0 st).1 /\
    (ActiveProcs 0 st).1 = [IsolatedExamples.p5].
Proof.
  eexists. split; [reflexivity|]. split; [|vm_compute; reflexivity].
  match goal with
  | |- (ActiveProcs 0 (ActiveProcs 0 ?s).2).1 = _ =>
      apply (ActiveProcs_changes_no_answer s 0 0); by exists IsolatedExamples.migrated
  end.
Defined.

(** X18 (Track, ActiveProcs): as long as neither RemoveTracking nor Init
    is called, a pid that ActiveProcs reports for a cpu is reported for
    that cpu after any further calls of Track and ActiveProcs: the
    tracker of a cpu only grows. *)
Theorem reported_pid_stays_reported
    (st st' : State) (cs : list call) (cpu : Z) (a : ActiveProc) :
  reachable st -> forallb keeps cs = true -> run st cs = Some st' ->
  a ∈ (ActiveProcs cpu st).1 ->
  exists a', a' ∈ (ActiveProcs cpu st').1 /\ Pid a' = Pid a.
Proof.
  intros Hr. apply reachable_wf in Hr. revert st a Hr.
  induction cs as [|c cs IH]; intros st a Hwf Hk Hrun Ha; simpl in Hk, Hrun.
  - inversion Hrun; subst. eauto.
  - apply andb_true_iff in Hk as [Hc Hcs].
    destruct (step st c) as [st1|] eqn:Hs; simpl in Hrun; [|done].
    destruct (step_keeps_reports st c st1 cpu a Hwf Hc Hs Ha) as (a1 & Ha1 & Hp1).
    destruct (IH st1 a1 (wf_step st c st1 Hwf Hs) Hcs Hrun Ha1) as (a' & Ha' & Hp').
    exists a'. split; [done|congruence].
Qed.

Lemma reported_pid_stays_reported_witness :
  exists a', a' ∈ (ActiveProcs 0 IsolatedExamples.later).1 /\ Pid a' = 5.
Proof.
  apply (reported_pid_stays_reported IsolatedExamples.tracked5 IsolatedExamples.later
           IsolatedExamples.two_ticks 0 IsolatedExamples.p5).
  - by exists [CallInit [0]; CallTrack 0 IsolatedExamples.p5].
  - reflexivity.
  - reflexivity.
  - by_computation.
Defined.

(** X19 (Track): tracking a process on one cpu changes no answer of
    ActiveProcs for another cpu. *)
Theorem Track_leaves_other_cpus
    (st st' : State) (cpu cpu' : Z) (proc : ActiveProc) :
  reachable st -> cpu' <> cpu -> Track cpu proc st = Some st' ->
  (ActiveProcs cpu' st').1 = (ActiveProcs cpu' st).1.
Proof.
  intros Hr Hne Ht.
  pose proof (reachable_wf st Hr) as Hwf.
  pose proof (reachable_current_apart st Hr) as Hap.
  pose proof (wf_Track cpu proc st st' Hwf Ht) as Hwf'.
  rewrite (ActiveProcs_answer cpu' st' Hwf'), (ActiveProcs_answer cpu' st Hwf).
  rewrite (Track_procs _ _ _ _ Ht).
  destruct (procs st !! cpu') as [t'|] eqn:Ht'; [|done].
  destruct (procs st !! cpu) as [t|] eqn:Htr;
    [|by apply (Track_is_Some cpu proc st Hwf) in Htr; rewrite Htr in Ht].
  rewrite (Track_heap cpu proc st st' t Hwf Htr Ht).
  destruct (decide (currentProcs t' = currentProcs t)) as [E|_]; [|done].
  by destruct (Hne (Hap cpu' cpu t' t Ht' Htr E)).
Qed.

Lemma Track_leaves_other_cpus_witness :
  exists st',
    Track 3 IsolatedExamples.p5' (Init [0; 3] initial) = Some st' /\
    (ActiveProcs 0 st').1 = (ActiveProcs 0 (Init [0; 3] initial)).1.
Proof.
  eexists. split; [reflexivity|].
  match goal with
  | |- (ActiveProcs 0 ?s').1 = _ =>
      apply (Track_leaves_other_cpus (Init [0; 3] initial) s' 3 0 IsolatedExamples.p5')
  end.
  - by exists [CallInit [0; 3]].
  - discriminate.
  - reflexivity.
Defined.

(** X20 (RemoveTracking): RemoveTracking(pid) acts on one cpu only, the
    one that [cpus] holds for the pid, or cpu 0 when the pid is not a key
    of [cpus]: that cpu reports the pid no more, and the answers for all
    other cpus stay as they are, also where they hold an older record of
    the pid. *)
Theorem RemoveTracking_acts_on_one_cpu (st : State) (pid : Z) :
  reachable st ->
  let cpu := default 0 (cpus st !! pid) in
  let st' := RemoveTracking pid st in
  (forall a, a ∈ (ActiveProcs cpu st').1 -> Pid a <> pid) /\
  (forall cpu', cpu' <> cpu -> (ActiveProcs cpu' st').1 = (ActiveProcs cpu' st).1).
Proof.
  intros Hr cpu st'.
  pose proof (reachable_wf st Hr) as Hwf.
  pose proof (reachable_current_apart st Hr) as Hap.
  pose proof (wf_RemoveTracking pid st Hwf) as Hwf'. fold st' in Hwf'.
  assert (Hp : procs st' = procs st) by done.
  split.
  - intros a Ha Epid.
    apply (elem_of_answer cpu st' a Hwf') in Ha as (t & Ht & Hin).
    rewrite Hp in Ht. unfold st' in Hin.
    rewrite (RemoveTracking_heap pid st t Hwf Ht) in Hin.
    rewrite decide_True in Hin by done.
    rewrite Epid in Hin. by rewrite lookup_delete_eq in Hin.
  - intros cpu' Hne.
    rewrite (ActiveProcs_answer cpu' st' Hwf'), (ActiveProcs_answer cpu' st Hwf), Hp.
    destruct (procs st !! cpu') as [t'|] eqn:Ht'; [|done].
    destruct (procs st !! cpu) as [t|] eqn:Htr.
    + unfold st'. rewrite (RemoveTracking_heap pid st t Hwf Htr).
      destruct (decide (currentProcs t' = currentProcs t)) as [E|_]; [|done].
      by destruct (Hne (Hap cpu' cpu t' t Ht' Htr E)).
    + unfold st'. by rewrite (RemoveTracking_no_tracker pid st Htr).
Qed.

Lemma RemoveTracking_acts_on_one_cpu_witness :
  exists st,
    run initial IsolatedExamples.migrated = Some st /\
    (ActiveProcs 3 (RemoveTracking 5 st)).1 = [] /\
    (ActiveProcs 0 (RemoveTracking 5 st)).1 = [IsolatedExamples.p5] /\
    (ActiveProcs 0 (RemoveTracking 5 (RemoveTracking 5 st))).1 = [].
Proof.
  eexists. split; [reflexivity|].
  match goal with
  | |- (ActiveProcs 3 (RemoveTracking 5 ?s)).1 = [] /\ _ =>
      pose proof (RemoveTracking_acts_on_one_cpu s 5) as H
  end.
  cbv zeta in H. destruct H as [_ H0]; [by exists IsolatedExamples.migrated|].
  split; [vm_compute; reflexivity|]. split; [|vm_compute; reflexivity].
  rewrite (H0 0) by (vm_compute; discriminate).
  vm_compute. reflexivity.
Defined.

End IsolatedTheorems.

(** ** The tick of the task iterator *)

Section TaskIterFacts2.
Import TaskIter TaskIterSpec.

Lemma sum_cpu_time_size m t : (size m <= size (sum_cpu_time m t))%nat.
Proof.
  unfold sum_cpu_time. destruct (m !! tgid t) as [info|] eqn:E.
  - rewrite map_size_insert_Some by eauto. lia.
  - destruct (size m <? max_entries)%nat; [|lia].
    rewrite map_size_insert_None by done. lia.
Qed.

Lemma fold_sum_cpu_time_size tasks m :
  (size m <= size (fold_left sum_cpu_time tasks m))%nat.
Proof.
  revert m. induction tasks as [|t tasks IH]; intros m; simpl; [lia|].
  pose proof (sum_cpu_time_size m t). pose proof (IH (sum_cpu_time m t)). lia.
Qed.

Lemma sum_cpu_time_bounded m t :
  (size m <= max_entries)%nat -> (size (sum_cpu_time m t) <= max_entries)%nat.
Proof.
  intros Hm. unfold sum_cpu_time. destruct (m !! tgid t) as [info|] eqn:E.
  - rewrite map_size_insert_Some by eauto. lia.
  - destruct (Nat.ltb_spec (size m) max_entries); [|lia].
    rewrite map_size_insert_None by done. lia.
Qed.

Lemma sum_cpu_time_other m t pid :
  tgid t <> pid -> sum_cpu_time m t !! pid = m !! pid.
Proof.
  intros Hne. unfold sum_cpu_time. destruct (m !! tgid t) as [info|].
  - by rewrite lookup_insert_ne.
  - destruct (size m <? max_entries)%nat; [|done]. by rewrite lookup_insert_ne.
Qed.

Lemma sum_cpu_time_full m t pid :
  size m = max_entries -> m !! pid = None -> sum_cpu_time m t !! pid = None /\
  size (sum_cpu_time m t) = max_entries.
Proof.
  intros Hfull Hpid. unfold sum_cpu_time. destruct (m !! tgid t) as [info|] eqn:E.
  - rewrite map_size_insert_Some by eauto. split; [|done].
    rewrite lookup_insert_ne; [done|]. intros E'. rewrite E' in E. congruence.
  - destruct (Nat.ltb_spec (size m) max_entries); [lia|]. done.
Qed.

Lemma fold_sum_cpu_time_Some tasks m pid info :
  m !! pid = Some info -> 0 <= CpuTime info < uint64_mod ->
  fold_left sum_cpu_time tasks m !! pid
  = Some (mkInfo ((CpuTime info + ticks_of (threads_of pid tasks)) `mod` uint64_mod)
                 (Comm info)).
Proof.
  revert m info. induction tasks as [|t tasks IH]; intros m info Hm Hr; simpl.
  - unfold threads_of. simpl. rewrite Z.add_0_r, Z.mod_small by done.
    rewrite Hm. by destruct info.
  - unfold threads_of. destruct (decide (tgid t = pid)) as [E|Hne].
    + rewrite filter_cons_True by done. fold (threads_of pid tasks). simpl.
      assert (Hs : sum_cpu_time m t !! pid
                   = Some (mkInfo ((CpuTime info + (utime t + stime t) `mod` uint64_mod)
                                   `mod` uint64_mod) (Comm info))).
      { unfold sum_cpu_time. rewrite E, Hm. by rewrite lookup_insert_eq. }
      rewrite (IH _ _ Hs); simpl.
      * f_equal. f_equal. rewrite Zplus_mod_idemp_r, Zplus_mod_idemp_l. f_equal. lia.
      * apply Z.mod_pos_bound. by vm_compute.
    + rewrite filter_cons_False by done. fold (threads_of pid tasks).
      apply IH; [|done]. by rewrite sum_cpu_time_other.
Qed.

Lemma fold_sum_cpu_time_None tasks m pid :
  m !! pid = None -> (size (fold_left sum_cpu_time tasks m) < max_entries)%nat ->
  fold_left sum_cpu_time tasks m !! pid
  = match threads_of pid tasks with
    | [] => None
    | t :: _ =>
        Some (mkInfo (ticks_of (threads_of pid tasks) `mod` uint64_mod) (comm t))
    end.
Proof.
  revert m. induction tasks as [|t tasks IH]; intros m Hm Hsize; simpl in *; [done|].
  unfold threads_of. destruct (decide (tgid t = pid)) as [E|Hne].
  - rewrite filter_cons_True by done. fold (threads_of pid tasks).
    pose proof (fold_sum_cpu_time_size tasks (sum_cpu_time m t)).
    pose proof (sum_cpu_time_size m t).
    assert (Hs : sum_cpu_time m t !! pid
                 = Some (mkInfo ((utime t + stime t) `mod` uint64_mod) (comm t))).
    { unfold sum_cpu_time. rewrite E, Hm.
      destruct (Nat.ltb_spec (size m) max_entries); [|lia]. by rewrite lookup_insert_eq. }
    rewrite (fold_sum_cpu_time_Some tasks _ pid _ Hs); simpl.
    + f_equal. f_equal. by rewrite Zplus_mod_idemp_l.
    + apply Z.mod_pos_bound. by vm_compute.
  - rewrite filter_cons_False by done. fold (threads_of pid tasks).
    apply IH; [|done]. by rewrite sum_cpu_time_other.
Qed.

Lemma fold_sum_cpu_time_full tasks m pid :
  size m = max_entries -> m !! pid = None ->
  fold_left sum_cpu_time tasks m !! pid = None.
Proof.
  revert m. induction tasks as [|t tasks IH]; intros m Hfull Hpid; simpl; [done|].
  destruct (sum_cpu_time_full m t pid Hfull Hpid) as [H1 H2]. by apply IH.
Qed.

Lemma fold_sum_cpu_time_bounded tasks m :
  (size m <= max_entries)%nat ->
  (size (fold_left sum_cpu_time tasks m) <= max_entries)%nat.
Proof.
  revert m. induction tasks as [|t tasks IH]; intros m Hm; simpl; [done|].
  apply IH. by apply sum_cpu_time_bounded.
Qed.

(** A loop that stores [f k v] under every key [k] it visits. *)
Lemma fold_insert_lookup {V W} (f : Z -> V -> W) (src : gmap Z V)
    (l : list (Z * V)) (acc : gmap Z W) (pid : Z) :
  (forall k v, (k, v) ∈ l -> src !! k = Some v) ->
  fold_left (fun acc '(k, v) => <[k := f k v]> acc) l acc !! pid
  = if decide (pid ∈ l.*1) then f pid <$> src !! pid else acc !! pid.
Proof.
  revert acc. induction l as [|[k v] l IH]; intros acc Hl.
  - destruct (decide (pid ∈ ([] : list (Z * V)).*1)) as [H|H]; [by apply elem_of_nil in H|done].
  - cbn [fold_left]. rewrite IH by (intros k' v' H; apply Hl; by right).
    rewrite fmap_cons. cbn [fst].
    destruct (decide (pid ∈ l.*1)) as [Hin|Hnin];
      destruct (decide (pid ∈ k :: l.*1)) as [Hin'|Hnin']; try done.
    + destruct Hnin'. by right.
    + apply elem_of_cons in Hin' as [->|?]; [|done].
      rewrite lookup_insert_eq. rewrite (Hl k v) by (by left). done.
    + rewrite lookup_insert_ne; [done|]. intros <-. destruct Hnin'. by left.
Qed.

Lemma range_fst_elem_of {V} (m : gmap Z V) (ord : list Z) (k : Z) :
  GoMap.is_order m ord -> (k ∈ (GoMap.range m ord).*1 <-> is_Some (m !! k)).
Proof.
  intros Hord. split.
  - intros Hin. apply list_elem_of_fmap in Hin as ([k' v] & -> & Hin).
    apply range_lookup in Hin. simpl. eauto.
  - intros [v Hv]. apply list_elem_of_fmap. exists (k, v). split; [done|].
    by apply range_elem_of.
Qed.

Lemma updateStoredData_lookup ord processData currentData pid :
  GoMap.is_order currentData ord ->
  updateStoredData ord processData currentData !! pid
  = match currentData !! pid with
    | Some current => Some (sample pid current)
    | None => processData !! pid
    end.
Proof.
  intros Hord. unfold updateStoredData.
  rewrite (fold_insert_lookup sample currentData)
    by (intros k v H; by apply range_lookup in H).
  destruct (decide (pid ∈ (GoMap.range currentData ord).*1)) as [Hin|Hnin].
  - apply (range_fst_elem_of _ _ _ Hord) in Hin as [v Hv]. by rewrite Hv.
  - destruct (currentData !! pid) as [v|] eqn:Hv; [|done].
    destruct Hnin. apply (range_fst_elem_of _ _ _ Hord). eauto.
Qed.

Lemma fold_collect_row exe l cd keys :
  (fold_left (collect_row exe) l (cd, keys)).1
  = fold_left (fun acc '(k, v) => <[k := collected exe k v]> acc) l cd.
Proof.
  revert cd keys. induction l as [|[k v] l IH]; intros cd keys; simpl; [done|].
  by rewrite IH.
Qed.

Lemma div_zero_positive clkTck :
  0 < clkTck < 2 ^ 64 -> F64.div (F64.of_Z 0) (F64.of_Z clkTck) = F64.zero.
Proof.
  intros Hc.
  pose proof (F64Facts.of_Z_is_finite clkTck ltac:(lia) ltac:(lia)) as Hf.
  pose proof (F64Facts.of_Z_signbit clkTck ltac:(lia)) as Hs.
  change (F64.of_Z 0) with (S754_zero false).
  destruct (F64.of_Z clkTck) as [s|s| |s m e]; try discriminate.
  simpl in Hs. subst s. reflexivity.
Qed.

Lemma truncateString_length s n :
  3 <= n -> Z.of_nat (length (truncateString s n)) <= n.
Proof.
  intros Hn. unfold truncateString.
  destruct (Z.leb_spec (Z.of_nat (length s)) n); [done|].
  rewrite length_app, length_take. simpl. lia.
Qed.

End TaskIterFacts2.

Section TaskIterTheorems.
Import TaskIter TaskIterSpec.

(** X21 (sum_cpu_time): as long as the table does not fill up, after
    the iteration over the tasks the entry of a process holds the user
    and system times of all its threads added up (in uint64), on top of
    what the entry held before; a new entry carries the command name of
    the first thread visited. A process without a task and without an
    entry has none. *)
Theorem sum_cpu_time_adds_up_threads
    (tasks : list task_struct) (m : gmap Z cpuTimeProcessInfo) (pid : Z) :
  (size (fold_left sum_cpu_time tasks m) < max_entries)%nat ->
  (forall info, m !! pid = Some info -> 0 <= CpuTime info < uint64_mod) ->
  fold_left sum_cpu_time tasks m !! pid
  = match m !! pid with
    | Some info =>
        Some (mkInfo ((CpuTime info + ticks_of (threads_of pid tasks)) `mod` uint64_mod)
                     (Comm info))
    | None =>
        match threads_of pid tasks with
        | [] => None
        | t :: _ =>
            Some (mkInfo (ticks_of (threads_of pid tasks) `mod` uint64_mod) (comm t))
        end
    end.
Proof.
  intros Hsize Hrange. destruct (m !! pid) as [info|] eqn:Hm.
  - apply fold_sum_cpu_time_Some; [done|]. by apply Hrange.
  - by apply fold_sum_cpu_time_None.
Qed.

Lemma sum_cpu_time_adds_up_threads_witness :
  fold_left sum_cpu_time TickExamples.three_tasks ∅ !! 1 = Some (mkInfo 36 [97]).
Proof.
  rewrite (sum_cpu_time_adds_up_threads TickExamples.three_tasks ∅ 1).
  - vm_compute. reflexivity.
  - vm_compute. lia.
  - intros info H. by rewrite lookup_empty in H.
Defined.

(** X22 (sum_cpu_time): the table never holds more than max_entries
    processes, and once it is full a process that has no entry gets none:
    its tasks are passed over without a trace. *)
Theorem full_table_drops_new_processes
    (tasks : list task_struct) (m : gmap Z cpuTimeProcessInfo) :
  (size m <= max_entries)%nat ->
  (size (fold_left sum_cpu_time tasks m) <= max_entries)%nat /\
  (size m = max_entries ->
   forall pid, m !! pid = None -> fold_left sum_cpu_time tasks m !! pid = None).
Proof.
  intros Hm. split.
  - by apply fold_sum_cpu_time_bounded.
  - intros Hfull pid Hpid. by apply fold_sum_cpu_time_full.
Qed.

Lemma full_table_drops_new_processes_witness :
  fold_left sum_cpu_time [TickExamples.thread 5000 10 5 [97]] TickExamples.full_table !! 5000
  = None.
Proof.
  destruct (full_table_drops_new_processes [TickExamples.thread 5000 10 5 [97]]
              TickExamples.full_table) as [_ H].
  - vm_compute. lia.
  - apply H; vm_compute; reflexivity.
Defined.

(** X23 (updateStoredData): whatever order the range loop takes, after
    the update the stored sample of a collected pid is its collected
    record with LastTime set to its CPUTime, and the sample of every
    other pid is what it was: no sample is ever removed. *)
Theorem updateStoredData_keeps_every_sample
    (ord : list Z) (processData currentData : gmap Z ProcessData.t) (pid : Z) :
  GoMap.is_order currentData ord ->
  updateStoredData ord processData currentData !! pid
  = match currentData !! pid with
    | Some current => Some (sample pid current)
    | None => processData !! pid
    end.
Proof. apply updateStoredData_lookup. Qed.

Lemma updateStoredData_keeps_every_sample_witness :
  updateStoredData [12; 11; 10] Examples.one_stored Examples.ex_current !! 11
  = (sample 11 <$> Examples.ex_current !! 11) /\
  updateStoredData [12; 11; 10] Examples.one_stored Examples.ex_current !! 1
  = Examples.one_stored !! 1.
Proof.
  split.
  - rewrite (updateStoredData_keeps_every_sample [12; 11; 10] Examples.one_stored
               Examples.ex_current 11); [|unfold GoMap.is_order; by_computation].
    vm_compute. reflexivity.
  - rewrite (updateStoredData_keeps_every_sample [12; 11; 10] Examples.one_stored
               Examples.ex_current 1); [|unfold GoMap.is_order; by_computation].
    vm_compute. reflexivity.
Defined.

(** X24 (calculateUsageData after updateStoredData): the delta of a pid
    is taken against the tick in which it was last collected. Against
    the tick before, it is the uint64 difference of the two cumulative
    times over clkTck, and zero when the time has not moved; a pid that
    the tick before did not collect is measured against the older sample,
    if there is one. *)
Theorem delta_is_since_the_last_sample
    (ord1 : list Z) (stored current1 : gmap Z ProcessData.t)
    (clkTck pid : Z) (current : ProcessData.t) :
  GoMap.is_order current1 ord1 -> 0 < clkTck < 2 ^ 63 ->
  let stored' := updateStoredData ord1 stored current1 in
  (forall previous,
     current1 !! pid = Some previous ->
     ProcessUsage.CPUDelta (usage_of stored' clkTck pid current)
     = F64.div (F64.of_Z ((ProcessData.CPUTime current - ProcessData.CPUTime previous)
                          `mod` uint64_mod))
               (F64.of_Z clkTck) /\
     (ProcessData.CPUTime current = ProcessData.CPUTime previous ->
      ProcessUsage.CPUDelta (usage_of stored' clkTck pid current) = F64.zero)) /\
  (current1 !! pid = None ->
   usage_of stored' clkTck pid current = usage_of stored clkTck pid current).
Proof.
  intros Hord Hclk stored'. split.
  - intros previous Hp.
    assert (E : ProcessUsage.CPUDelta (usage_of stored' clkTck pid current)
                = F64.div (F64.of_Z ((ProcessData.CPUTime current
                                      - ProcessData.CPUTime previous) `mod` uint64_mod))
                          (F64.of_Z clkTck)).
    { rewrite usage_of_delta_cases. unfold stored'.
      rewrite (updateStoredData_lookup _ _ _ _ Hord), Hp. reflexivity. }
    split; [exact E|].
    intros Heq. rewrite E, Heq, Z.sub_diag. change (0 `mod` uint64_mod) with 0.
    apply div_zero_positive. lia.
  - intros Hn. unfold usage_of, stored'.
    rewrite (updateStoredData_lookup _ _ _ _ Hord), Hn. reflexivity.
Qed.

Lemma delta_is_since_the_last_sample_witness :
  let stored' := updateStoredData [1] ∅ TickExamples.tick1 in
  ProcessUsage.CPUDelta (usage_of stored' 100 1 (Examples.pd 1 500 0)) = F64.zero.
Proof.
  pose proof (delta_is_since_the_last_sample [1] ∅ TickExamples.tick1 100 1
                (Examples.pd 1 500 0)) as H.
  cbv zeta in *. destruct H as [H _].
  - unfold GoMap.is_order. by_computation.
  - lia.
  - destruct (H (Examples.pd 1 500 0)) as [_ Hz]; [vm_compute; reflexivity|].
    apply Hz. reflexivity.
Defined.

(** X25 (printResults, truncateString): the report has at most count
    rows when count is positive and a row for every record otherwise;
    the rows are the first records in their order, with the command name
    cut to 20 and the executable to 30 bytes; the length in the closing
    line is that of the whole usage data. *)
Theorem printResults_rows (usageData : list ProcessUsage.t) (count : Z) :
  exists rows,
    printResults usageData count = Printed rows (length usageData) /\
    (0 < count -> Z.of_nat (length rows) = Z.min (Z.of_nat (length usageData)) count) /\
    (count <= 0 -> length rows = length usageData) /\
    map ProcessUsage.PID rows = take (length rows) (map ProcessUsage.PID usageData) /\
    Forall (fun row => (length (ProcessUsage.Comm row) <= 20)%nat /\
                       (length (ProcessUsage.Executable row) <= 30)%nat) rows.
Proof.
  unfold printResults. eexists. split; [reflexivity|].
  set (limit := if 0 <? count then _ else _).
  rewrite length_map, length_take.
  split; [|split; [|split]].
  - intros Hc. unfold limit. destruct (Z.ltb_spec 0 count); lia.
  - intros Hc. unfold limit. destruct (Z.ltb_spec 0 count); lia.
  - rewrite map_map. unfold print_row. simpl. rewrite firstn_map. f_equal.
    destruct (Nat.le_gt_cases (Z.to_nat limit) (length usageData)).
    + by rewrite Nat.min_l.
    + rewrite Nat.min_r by lia. by rewrite !take_ge by lia.
  - apply Forall_forall. intros row Hrow.
    apply list_elem_of_fmap in Hrow as (u & -> & _). simpl.
    pose proof (truncateString_length (ProcessUsage.Comm u) 20 ltac:(lia)).
    pose proof (truncateString_length (ProcessUsage.Executable u) 30 ltac:(lia)).
    lia.
Qed.

(** X26 (collectCurrentData): when the iteration over the table visits
    every entry once, what is collected mirrors the table as the BPF
    program left it: a record for each pid of the table, with its
    cumulative time, no LastTime, the command name up to its first NUL
    and the executable of the pid; and the keys returned for the delete
    are the pids of the table. *)
Theorem collectCurrentData_mirrors_table
    (e : env) (process_map m1 : gmap Z cpuTimeProcessInfo)
    (currentData : gmap Z ProcessData.t) (keys : list Z) :
  collectCurrentData e process_map = (m1, inr (currentData, keys)) ->
  GoMap.is_order m1 (iterate_order e) ->
  m1 = fold_left sum_cpu_time (tasks e) process_map /\
  (forall pid, currentData !! pid = collected (exe e) pid <$> m1 !! pid) /\
  keys ≡ₚ (map_to_list m1).*1.
Proof.
  intros Hc Hord.
  destruct (collectCurrentData_keys e process_map m1 currentData keys Hc) as [Hm1 Hkeys].
  split; [exact Hm1|].
  unfold collectCurrentData in Hc.
  destruct (open_err e); [done|].
  assert (Hbody :
    (let process_map := fold_left sum_cpu_time (tasks e) process_map in
     let '(currentData, keys) :=
       fold_left (collect_row (exe e))
                 (GoMap.range process_map (iterate_order e)) (∅, []) in
     match iterate_err e with
     | Some msg => (process_map, inl (ErrIteratingMap msg))
     | None => (process_map, inr (currentData, keys))
     end) = (m1, inr (currentData, keys)))
    by (by destruct (read_res e)).
  clear Hc. cbv zeta in Hbody. rewrite <- Hm1 in Hbody.
  destruct (fold_left (collect_row (exe e)) (GoMap.range m1 (iterate_order e)) (∅, []))
    as [cd ks] eqn:Hfold.
  destruct (iterate_err e); [done|]. inversion Hbody; subst cd ks.
  split.
  - intros pid.
    pose proof (fold_collect_row (exe e) (GoMap.range m1 (iterate_order e)) ∅ []) as Hcd.
    rewrite Hfold in Hcd. simpl in Hcd. rewrite Hcd.
    rewrite (fold_insert_lookup (collected (exe e)) m1)
      by (intros k v H; by apply range_lookup in H).
    destruct (decide (pid ∈ (GoMap.range m1 (iterate_order e)).*1)) as [Hin|Hnin]; [done|].
    rewrite lookup_empty.
    destruct (m1 !! pid) as [v|] eqn:Hv; [|done].
    destruct Hnin. apply (range_fst_elem_of _ _ _ Hord). eauto.
  - rewrite Hkeys. by rewrite (range_Permutation m1 (iterate_order e) Hord).
Qed.

Lemma collectCurrentData_mirrors_table_witness :
  exists currentData keys,
    collectCurrentData TickExamples.env12 TickExamples.table12
    = (TickExamples.table12, inr (currentData, keys)) /\
    currentData !! 1 = Some (ProcessData.mk 1 100 0 [115; 104] []) /\
    keys ≡ₚ (map_to_list TickExamples.table12).*1.
Proof.
  eexists _, _. split; [reflexivity|].
  match goal with
  | |- ?cd !! 1 = _ /\ ?ks ≡ₚ _ =>
      destruct (collectCurrentData_mirrors_table TickExamples.env12 TickExamples.table12
                  TickExamples.table12 cd ks) as (_ & Hcd & Hks)
  end.
  - reflexivity.
  - unfold GoMap.is_order. by_computation.
  - split; [|exact Hks]. rewrite Hcd. reflexivity.
Defined.

End TaskIterTheorems.

(** ** The run loop of the isolated variant *)

Section RunFacts.
Import Isolated HybridIsolated.

Lemma Values_length (m : gmap Z ActiveProc) : length (Values m) = size m.
Proof. unfold Values. by rewrite length_fmap, length_map_to_list. Qed.

Lemma Track_answer_grows cpu proc st st' cpu' :
  wf st -> Track cpu proc st = Some st' ->
  (length (ActiveProcs cpu' st).1 <= length (ActiveProcs cpu' st').1)%nat.
Proof.
  intros Hwf Ht.
  pose proof (wf_Track cpu proc st st' Hwf Ht) as Hwf'.
  rewrite (ActiveProcs_answer cpu' st' Hwf'), (ActiveProcs_answer cpu' st Hwf).
  rewrite (Track_procs _ _ _ _ Ht).
  destruct (procs st !! cpu') as [t'|] eqn:Ht'; [|done].
  destruct (procs st !! cpu) as [t|] eqn:Htr;
    [|by apply (Track_is_Some cpu proc st Hwf) in Htr; rewrite Htr in Ht].
  rewrite (Track_heap cpu proc st st' t Hwf Htr Ht).
  rewrite !Values_length.
  destruct (decide (currentProcs t' = currentProcs t)); [|done].
  rewrite map_size_insert. destruct (_ !! Pid proc); simpl; lia.
Qed.

Lemma ready_Init cfg : ready cfg (Init (isolatedCPUs cfg) initial).
Proof.
  split.
  - apply wf_Init, wf_initial.
  - intros cpu Hin. apply Init_procs. by left.
Qed.

Lemma each_proc_ok cfg unreadable activeProcs st procsRead logs :
  ready cfg st -> Forall not_crashed logs ->
  exists st' procsRead' logs',
    each_proc cfg unreadable activeProcs st procsRead logs = Some (st', procsRead', logs') /\
    ready cfg st' /\ Forall not_crashed logs' /\
    (forall cpu, (length (ActiveProcs cpu st).1 <= length (ActiveProcs cpu st').1)%nat) /\
    (onlyIsolated cfg = true -> procsRead' = procsRead /\ logs' = logs).
Proof.
  revert st procsRead logs.
  induction activeProcs as [|a rest IH]; intros st procsRead logs Hready Hlogs; simpl.
  - exists st, procsRead, logs. split; [done|]. split; [done|]. split; [done|].
    split; [intros cpu; lia|done].
  - destruct (onlyIsolated cfg) eqn:Honly.
    + destruct (bool_decide (Cpu a ∈ isolatedCPUs cfg)) eqn:Hin; simpl.
      * apply bool_decide_eq_true in Hin.
        destruct Hready as [Hwf Hprocs].
        destruct (Track (Cpu a) a st) as [st1|] eqn:Ht.
        -- assert (Hready1 : ready cfg st1).
           { split; [by eapply wf_Track|]. intros cpu Hcpu.
             rewrite (Track_procs _ _ _ _ Ht). by apply Hprocs. }
           destruct (IH st1 procsRead logs Hready1 Hlogs)
             as (st' & n' & logs' & E & Hr & Hl & Hg & Ho).
           exists st', n', logs'. split; [done|]. split; [done|]. split; [done|].
           split; [|done].
           intros cpu. pose proof (Track_answer_grows _ _ _ _ cpu Hwf Ht).
           pose proof (Hg cpu). lia.
        -- apply (Track_is_Some (Cpu a) a st Hwf) in Ht.
           destruct (Hprocs (Cpu a) Hin) as [t Ht']. congruence.
      * apply (IH st procsRead logs Hready Hlogs).
    + destruct (IH st (procsRead + 1)%nat
                  (if bool_decide (Pid a ∈ unreadable)
                   then logs ++ [ErrorCannotReadStat a] else logs) Hready)
        as (st' & n' & logs' & E & Hr & Hl & Hg & Ho).
      { destruct (bool_decide (Pid a ∈ unreadable)); [|done].
        apply Forall_app. split; [done|]. by repeat constructor. }
      exists st', n', logs'. split; [done|]. split; [done|]. split; [done|].
      split; [done|]. intros H. by rewrite H in Honly.
Qed.

Lemma each_isolated_total cpus st procsRead :
  wf st ->
  exists st',
    each_isolated cpus st procsRead = (st', (procsRead + tracked_total cpus st)%nat) /\
    wf st' /\ procs st' = procs st /\
    (forall cpu, (ActiveProcs cpu st').1 = (ActiveProcs cpu st).1).
Proof.
  revert st procsRead. induction cpus as [|c rest IH]; intros st procsRead Hwf; simpl.
  - exists st. unfold tracked_total. simpl. rewrite Nat.add_0_r. done.
  - destruct (ActiveProcs c st) as [answer st1] eqn:Ha.
    assert (Hst1 : st1 = (ActiveProcs c st).2) by (by rewrite Ha).
    assert (Hans : answer = (ActiveProcs c st).1) by (by rewrite Ha).
    assert (Hwf1 : wf st1) by (subst st1; by apply wf_ActiveProcs).
    assert (Hsame : forall cpu, (ActiveProcs cpu st1).1 = (ActiveProcs cpu st).1)
      by (intros cpu; subst st1; by apply ActiveProcs_after_ActiveProcs).
    destruct (IH st1 (procsRead + length answer)%nat Hwf1) as (st' & E & Hwf' & Hp & Hs).
    exists st'. split; [|split; [done|split]].
    + rewrite E. f_equal. unfold tracked_total. simpl. rewrite <- Hans.
      assert (Et : map (fun cpu => length (ActiveProcs cpu st1).1) rest
                   = map (fun cpu => length (ActiveProcs cpu st).1) rest)
        by (apply map_ext; intros cpu; by rewrite Hsame).
      rewrite Et. lia.
    + rewrite Hp. subst st1. by destruct (ActiveProcs_state c st) as (-> & _).
    + intros cpu. by rewrite Hs, Hsame.
Qed.

Lemma tracked_total_mono cpus st st' :
  (forall cpu, (length (ActiveProcs cpu st).1 <= length (ActiveProcs cpu st').1)%nat) ->
  (tracked_total cpus st <= tracked_total cpus st')%nat.
Proof.
  intros H. unfold tracked_total. induction cpus as [|c rest IH]; simpl; [lia|].
  pose proof (H c). lia.
Qed.

Lemma tracked_total_ext cpus st st' :
  (forall cpu, (ActiveProcs cpu st').1 = (ActiveProcs cpu st).1) ->
  tracked_total cpus st' = tracked_total cpus st.
Proof.
  intros H. unfold tracked_total. f_equal. apply map_ext. intros cpu. by rewrite H.
Qed.

Lemma after_drain_ok cfg newTs unreadable activeProcs logs st :
  ready cfg st -> Forall not_crashed logs ->
  exists st' logs',
    after_drain cfg newTs unreadable activeProcs logs st = Some (st', logs') /\
    ready cfg st' /\ Forall not_crashed logs' /\
    (onlyIsolated cfg = true ->
     logs' = logs ++ [InfoActiveProcs newTs (tracked_total (isolatedCPUs cfg) st')] /\
     (tracked_total (isolatedCPUs cfg) st <= tracked_total (isolatedCPUs cfg) st')%nat).
Proof.
  intros Hready Hlogs. unfold after_drain.
  destruct (each_proc_ok cfg unreadable activeProcs st 0 logs Hready Hlogs)
    as (st1 & n1 & logs1 & -> & Hr1 & Hl1 & Hg & Ho).
  destruct (onlyIsolated cfg) eqn:Honly.
  - destruct (each_isolated_total (isolatedCPUs cfg) st1 n1 (proj1 Hr1))
      as (st2 & -> & Hwf2 & Hp2 & Hs2).
    exists st2, (logs1 ++ [InfoActiveProcs newTs (n1 + tracked_total (isolatedCPUs cfg) st1)]).
    split; [done|]. split; [|split].
    + split; [done|]. intros cpu Hcpu. rewrite Hp2. by apply Hr1.
    + apply Forall_app. split; [done|]. by repeat constructor.
    + intros _. destruct (Ho eq_refl) as [-> ->]. simpl.
      rewrite (tracked_total_ext _ st1 st2 Hs2). split; [done|].
      by apply tracked_total_mono.
  - exists st1, (logs1 ++ [InfoActiveProcs newTs n1]).
    split; [done|]. split; [done|]. split; [|done].
    apply Forall_app. split; [done|]. by repeat constructor.
Qed.

Lemma tick_body_ok cfg newTs drain unreadable st :
  ready cfg st -> drain <> Panic ->
  exists st' logs,
    tick_body cfg newTs drain unreadable st = Some (st', logs) /\
    ready cfg st' /\ Forall not_crashed logs /\
    (onlyIsolated cfg = true ->
     reported logs = [tracked_total (isolatedCPUs cfg) st'] /\
     (tracked_total (isolatedCPUs cfg) st <= tracked_total (isolatedCPUs cfg) st')%nat).
Proof.
  intros Hready Hd. unfold tick_body. destruct drain as [activeProcs|e|]; [| |done].
  - destruct (after_drain_ok cfg newTs unreadable activeProcs [] st Hready)
      as (st' & logs' & -> & Hr & Hl & Ho); [done|].
    exists st', logs'. split; [done|]. split; [done|]. split; [done|].
    intros H. destruct (Ho H) as [-> Hle]. done.
  - destruct (after_drain_ok cfg newTs unreadable [] [ErrorReadingActiveProcs e] st Hready)
      as (st' & logs' & -> & Hr & Hl & Ho); [by repeat constructor|].
    exists st', logs'. split; [done|]. split; [done|]. split; [done|].
    intros H. destruct (Ho H) as [-> Hle]. done.
Qed.

Lemma reported_app l1 l2 : reported (l1 ++ l2) = reported l1 ++ reported l2.
Proof. unfold reported. by rewrite omap_app. Qed.

Lemma loop_not_crashed cfg oldTs rs st :
  ready cfg st -> drains_return rs -> Forall not_crashed (loop cfg oldTs rs st).
Proof.
  intros Hready Hrs. revert st Hready.
  induction Hrs as [|r rs Hr Hrs IH]; intros st Hready; simpl; [done|].
  destruct r as [newTs drain unreadable|]; [|by repeat constructor].
  destruct (Hybrid.too_soon oldTs newTs); [by apply IH|].
  destruct (tick_body_ok cfg newTs drain unreadable st Hready)
    as (st' & logs & -> & Hr' & Hl & _); [by destruct drain|].
  apply Forall_app. split; [done|]. by apply IH.
Qed.

Lemma loop_reported_sorted cfg oldTs rs st :
  onlyIsolated cfg = true -> ready cfg st ->
  Forall (fun n => (tracked_total (isolatedCPUs cfg) st <= n)%nat)
         (reported (loop cfg oldTs rs st)) /\
  StronglySorted le (reported (loop cfg oldTs rs st)).
Proof.
  intros Honly. revert st.
  induction rs as [|r rs IH]; intros st Hready; simpl.
  - split; constructor.
  - destruct r as [newTs drain unreadable|]; [|split; constructor].
    destruct (Hybrid.too_soon oldTs newTs); [by apply IH|].
    assert (Hcase : drain = Panic \/ drain <> Panic)
      by (destruct drain; [by right|by right|by left]).
    destruct Hcase as [->|Hd]; [split; constructor|].
    destruct (tick_body_ok cfg newTs drain unreadable st Hready Hd)
      as (st' & logs & -> & Hr' & Hl & Ho).
    destruct (Ho Honly) as [Hrep Hle].
    destruct (IH st' Hr') as [Hall Hsorted].
    rewrite reported_app, Hrep. simpl. split.
    + constructor; [done|]. eapply Forall_impl; [exact Hall|]. simpl. intros n Hn. lia.
    + constructor; [done|]. exact Hall.
Qed.

End RunFacts.

Section RunTheorems.
Import Isolated HybridIsolated.

(** X27 (run of the isolated variant, Init, Track): run panics in no
    call of Track: Init has made the maps of every isolated cpu before
    the loop starts, and the loop tracks a process only on a cpu that
    slices.Contains finds among the isolated ones. So when no drain
    panics, the loop does not crash, in either mode. *)
Theorem run_does_not_panic_in_Track (cfg : config) (now : Z) (rs : list received) :
  drains_return rs -> Crashed ∉ run cfg now rs.
Proof.
  intros Hrs. unfold run.
  pose proof (loop_not_crashed cfg now rs _ (ready_Init cfg) Hrs) as Hl.
  intros Hin. apply elem_of_cons in Hin as [?|Hin]; [done|].
  apply elem_of_cons in Hin as [?|Hin]; [done|].
  rewrite Forall_forall in Hl. by apply (Hl Crashed Hin).
Qed.

Lemma run_does_not_panic_in_Track_witness :
  Crashed ∉ run RunExamples.only_isolated 0 RunExamples.three_ticks.
Proof.
  apply (run_does_not_panic_in_Track RunExamples.only_isolated 0 RunExamples.three_ticks).
  unfold drains_return, RunExamples.three_ticks. by repeat constructor.
Defined.

(** X28 (run of the isolated variant, Track, ActiveProcs): with
    only-isolated set, the number that a tick logs as ActiveProcs is never
    below the number of an earlier tick: the loop only ever adds to the
    tracker, so a process counts in every later tick, whether or not it
    ran again. *)
Theorem reported_counts_never_decrease (cfg : config) (now : Z) (rs : list received) :
  onlyIsolated cfg = true -> StronglySorted le (reported (run cfg now rs)).
Proof.
  intros Honly. unfold run. change (reported (?a :: ?b :: ?l)) with (reported l).
  by apply loop_reported_sorted; [|apply ready_Init].
Qed.

Lemma reported_counts_never_decrease_witness :
  reported (run RunExamples.only_isolated 0 RunExamples.three_ticks) = [2; 3; 3]%nat /\
  StronglySorted le (reported (run RunExamples.only_isolated 0 RunExamples.three_ticks)).
Proof.
  split; [vm_compute; reflexivity|].
  apply (reported_counts_never_decrease RunExamples.only_isolated 0 RunExamples.three_ticks).
  reflexivity.
Defined.

End RunTheorems.

(** ** The rows of the earlier main *)

Section InlineFacts.
Import TaskIterInline.

Lemma StronglySorted_filter {A} (R : A -> A -> Prop) (P : A -> Prop)
    `{!forall x, Decision (P x)} (l : list A) :
  StronglySorted R l -> StronglySorted R (filter P l).
Proof.
  induction 1 as [|x l Hl IH Hx]; [constructor|].
  rewrite filter_cons. destruct (decide (P x)); [|done].
  constructor; [done|]. apply Forall_forall. intros y Hy.
  apply list_elem_of_filter in Hy as [_ Hy]. rewrite Forall_forall in Hx. by apply Hx.
Qed.

Lemma fold_usage_step_not_nan clkTck l acc processData :
  F64.is_finite (F64.of_Z clkTck) = true ->
  Forall (fun u => F64.is_nan (ProcessUsage.CPUDelta u) = false) acc ->
  Forall (fun u => F64.is_nan (ProcessUsage.CPUDelta u) = false)
         (fold_left (usage_step clkTck) l (acc, processData)).1.
Proof.
  intros Hc. revert acc processData.
  induction l as [|[pid current] l IH]; intros acc processData Hacc; [done|].
  cbn [fold_left].
  destruct (inline_usage_step_delta clkTck acc processData pid current) as (u & Hu & _ & Hd).
  destruct (usage_step clkTck (acc, processData) (pid, current)) as [acc' pd'] eqn:E.
  simpl in Hu. subst acc'. apply IH. apply Forall_app. split; [done|].
  constructor; [|done]. rewrite Hd. destruct (processData !! pid); [|done].
  apply F64Facts.div_shape; [apply F64Facts.of_Z_not_nan|exact Hc].
Qed.

(** What a tick of the earlier main prints, when it prints. *)
Lemma inline_rows_shape e processData count clkTck rows :
  Printed rows ∈ output (collectAndPrintCPUData e processData count clkTck) ->
  exists l,
    let usageData :=
      GoSort.Slice (fold_left (usage_step clkTck) l ([], processData)).1 by_delta_desc in
    let limit := Z.of_nat (length usageData) in
    let limit := if (0 <? count) && (count <? limit) then count else limit in
    rows = filter (fun process => F64.gtb (ProcessUsage.CPUDelta process) F64.zero = true)
                  (take (Z.to_nat limit) usageData).
Proof.
  unfold collectAndPrintCPUData.
  destruct (open_err e); simpl; [by intros ?%elem_of_nil|].
  set (currentData := fold_left _ (TaskIterInline.rows e) ∅).
  assert (G : forall out,
            out = (let '(usageData, processData) :=
                     fold_left (usage_step clkTck)
                               (GoMap.range currentData (range_order e)) ([], processData) in
                   let warned := match clear_err e with
                                 | Some msg => [WarningFailedToClear msg]
                                 | None => []
                                 end in
                   let usageData := GoSort.Slice usageData by_delta_desc in
                   let limit := Z.of_nat (length usageData) in
                   let limit := if (0 <? count) && (count <? limit) then count else limit in
                   let shown :=
                     filter (fun process => F64.gtb (ProcessUsage.CPUDelta process) F64.zero = true)
                            (take (Z.to_nat limit) usageData) in
                   mkResult None processData (warned ++ [Printed shown])) ->
            Printed rows ∈ output out ->
            exists l,
              let usageData :=
                GoSort.Slice (fold_left (usage_step clkTck) l ([], processData)).1
                             by_delta_desc in
              let limit := Z.of_nat (length usageData) in
              let limit := if (0 <? count) && (count <? limit) then count else limit in
              rows = filter (fun process => F64.gtb (ProcessUsage.CPUDelta process) F64.zero = true)
                            (take (Z.to_nat limit) usageData)).
  { intros out -> Hin. exists (GoMap.range currentData (range_order e)).
    destruct (fold_left (usage_step clkTck) _ _) as [usageData pd'].
    simpl in Hin. apply elem_of_app in Hin as [Hin|Hin].
    { destruct (clear_err e); [|by apply elem_of_nil in Hin].
      apply list_elem_of_singleton in Hin. discriminate. }
    apply list_elem_of_singleton in Hin. by injection Hin as ->. }
  destruct (read_res e); simpl;
    try (by intros ?%elem_of_nil);
    destruct (iterate_err e); simpl;
    try (by intros ?%elem_of_nil); by apply G.
Qed.

End InlineFacts.

Section InlineTheorems.
Import TaskIterInline.

(** X29 (collectAndPrintCPUData of the earlier main): the rows that a
    tick prints all have a delta above zero, no row is followed by one of
    greater delta, and with a positive count there are at most count
    rows: they are what is left of the count first records, in descending
    order of delta, when those of delta zero are passed over. *)
Theorem inline_rows_positive_descending_limited
    (e : env) (processData : gmap Z ProcessData.t) (count clkTck : Z)
    (rows : list ProcessUsage.t) :
  clkTck <> 0 -> is_int64 clkTck ->
  Printed rows ∈ output (collectAndPrintCPUData e processData count clkTck) ->
  Forall (fun row => F64.gtb (ProcessUsage.CPUDelta row) F64.zero = true) rows /\
  StronglySorted
    (fun a b => F64.gtb (ProcessUsage.CPUDelta b) (ProcessUsage.CPUDelta a) = false) rows /\
  (0 < count -> Z.of_nat (length rows) <= count).
Proof.
  intros Hc0 Hc Hin.
  destruct (inline_rows_shape e processData count clkTck rows Hin) as (l & Hrows).
  cbv zeta in Hrows.
  set (usageData := GoSort.Slice (fold_left (usage_step clkTck) l ([], processData)).1
                                 by_delta_desc) in *.
  set (limit := if (0 <? count) && (count <? Z.of_nat (length usageData))
                then count else Z.of_nat (length usageData)) in *.
  assert (Hfin : F64.is_finite (F64.of_Z clkTck) = true).
  { apply F64Facts.of_Z_is_finite; [done|]. unfold is_int64 in Hc. lia. }
  assert (Hsorted : StronglySorted (fun a b => by_delta_desc b a = false) usageData).
  { apply (Slice_sorted by_delta_desc
             (fun u => F64.is_nan (ProcessUsage.CPUDelta u) = false)).
    - intros a b. apply F64Facts.gtb_asym.
    - intros a b c Ha Hb Hcc H1 H2. unfold by_delta_desc in *.
      exact (F64Facts.not_gtb_trans _ _ _ Hcc Hb Ha H2 H1).
    - by apply fold_usage_step_not_nan. }
  subst rows. split; [|split].
  - apply Forall_forall. intros u Hu. by apply list_elem_of_filter in Hu as [Hpos _].
  - apply StronglySorted_filter. by apply StronglySorted_take.
  - intros Hpos.
    pose proof (length_filter
                  (fun process => F64.gtb (ProcessUsage.CPUDelta process) F64.zero = true)
                  (take (Z.to_nat limit) usageData)) as Hlf.
    rewrite length_take in Hlf. unfold limit in *.
    destruct (Z.ltb_spec 0 count); [|lia].
    destruct (Z.ltb_spec count (Z.of_nat (length usageData))); simpl in *; lia.
Qed.

Lemma inline_rows_positive_descending_limited_witness :
  exists rows,
    output (collectAndPrintCPUData InlineExamples.env3 InlineExamples.stored3 2 100)
    = [Printed rows] /\
    map ProcessUsage.PID rows = [9; 7] /\
    Forall (fun row => F64.gtb (ProcessUsage.CPUDelta row) F64.zero = true) rows /\
    Z.of_nat (length rows) <= 2.
Proof.
  eexists. split; [vm_compute; reflexivity|]. split; [vm_compute; reflexivity|].
  match goal with
  | |- Forall _ ?rows /\ _ =>
      destruct (inline_rows_positive_descending_limited InlineExamples.env3
                  InlineExamples.stored3 2 100 rows) as (Hpos & _ & Hlen)
  end.
  - discriminate.
  - unfold is_int64. lia.
  - apply list_elem_of_singleton. vm_compute. reflexivity.
  - split; [exact Hpos|]. apply Hlen. lia.
Defined.

End InlineTheorems.

